(** * ma_debate: the debate protocol and its judges

    A shallow embedding of [src/ma_debate] (agents.py, rubrics.py, judge.py,
    debate.py) together with the guards of the two UI entry points.

    Conventions of the embedding.
    - A Python [str] is a [string]; the Python operations used by the code
      ([in], [count], [lower], [find], [rfind], slicing, [join]) are written
      out in module [Py].
    - A Python [dict] is an association list in insertion order whose keys
      are pairwise distinct ([Py.get], [Py.set], [Py.of_list]).
    - A Python [float] that the judges compute with (a score, a total) is
      an IEEE binary64 number, that is Rocq's primitive [float]: the same
      values (NaN, the infinities and the signed zeros included) and the
      same arithmetic, rounded to nearest.  An [int] is a [Z]; its
      conversion to a float rounds, and raises [OverflowError] beyond the
      range of the floats.  The generation temperature is only handed on to
      the capability and is kept as the rational it denotes.
    - The completion capability ([LLM.chat]) is an oracle that answers from
      the history of the session; every call and every log record is
      appended to the trace of the computation. *)

From Stdlib Require Import List String Ascii ZArith QArith Lia Bool Arith.
From Stdlib Require Import DecimalString Floats.
Import ListNotations.
Local Open Scope string_scope.

(** ** Python strings, dictionaries and [max] *)

Module Py.

(** The newline and the double quote, which a literal cannot hold. *)
Definition nl : string := String "010"%char EmptyString.
Definition dq : string := String "034"%char EmptyString.

(** [p in s]. *)
Fixpoint contains (p s : string) : bool :=
  String.prefix p s
  || match s with
     | EmptyString => false
     | String _ s' => contains p s'
     end.

(** [s.count(p)] for a non-empty [p]: occurrences are counted from the left
    and do not overlap; [skip] characters of the last match are still to be
    passed over. *)
Fixpoint count_from (skip : nat) (p s : string) : nat :=
  match s with
  | EmptyString => 0
  | String _ s' =>
      match skip with
      | S k => count_from k p s'
      | O =>
          if String.prefix p s
          then S (count_from (String.length p - 1) p s')
          else count_from 0 p s'
      end
  end.

Definition count (p s : string) : nat :=
  match p with
  | EmptyString => S (String.length s)
  | _ => count_from 0 p s
  end.

(** [c.lower()] for a code point below 256: A-Z, and the capital letters
    of Latin-1 (all of 192-222 but the multiplication sign). *)
Definition lower_ascii (c : ascii) : ascii :=
  let n := nat_of_ascii c in
  if ((65 <=? n)%nat && (n <=? 90)%nat)
     || ((192 <=? n)%nat && (n <=? 222)%nat && negb (n =? 215)%nat)
  then ascii_of_nat (n + 32) else c.

(** [s.lower()]. *)
Fixpoint lower (s : string) : string :=
  match s with
  | EmptyString => EmptyString
  | String c s' => String (lower_ascii c) (lower s')
  end.

(** [s.find(p)] and [s.rfind(p)]: the lowest and the highest index at which
    [p] occurs, [-1] when it does not. *)
Fixpoint find_from (i : Z) (p s : string) : Z :=
  if String.prefix p s then i
  else match s with
       | EmptyString => (-1)%Z
       | String _ s' => find_from (i + 1)%Z p s'
       end.

Definition find (p s : string) : Z := find_from 0%Z p s.

Fixpoint rfind_from (i best : Z) (p s : string) : Z :=
  let best' := if String.prefix p s then i else best in
  match s with
  | EmptyString => best'
  | String _ s' => rfind_from (i + 1)%Z best' p s'
  end.

Definition rfind (p s : string) : Z := rfind_from 0%Z (-1)%Z p s.

(** A slice bound as Python normalises it: a negative bound counts from the
    end, and the result is clamped to [0, len]. *)
Definition clamp (len i : Z) : Z :=
  let i := if (i <? 0)%Z then (i + len)%Z else i in
  if (i <? 0)%Z then 0%Z else if (len <? i)%Z then len else i.

(** [s[i:j]]. *)
Definition slice (s : string) (i j : Z) : string :=
  let len := Z.of_nat (String.length s) in
  let a := clamp len i in
  let b := clamp len j in
  if (a <? b)%Z then String.substring (Z.to_nat a) (Z.to_nat (b - a)) s
  else EmptyString.

(** [sep.join(l)]. *)
Definition join (sep : string) (l : list string) : string := String.concat sep l.

(** [c.isspace()] for a code point below 256. *)
Definition isspace (c : ascii) : bool :=
  let n := nat_of_ascii c in
  ((9 <=? n)%nat && (n <=? 13)%nat) || ((28 <=? n)%nat && (n <=? 32)%nat)
  || (n =? 133)%nat || (n =? 160)%nat.

Fixpoint lstrip_chars (l : list ascii) : list ascii :=
  match l with
  | c :: l' => if isspace c then lstrip_chars l' else l
  | [] => []
  end.

(** [s.strip()]. *)
Definition strip (s : string) : string :=
  string_of_list_ascii
    (rev (lstrip_chars (rev (lstrip_chars (list_ascii_of_string s))))).

(** [s.split(c)] for a separator of one character. *)
Fixpoint split (c : ascii) (s : string) : list string :=
  match s with
  | EmptyString => [EmptyString]
  | String x s' =>
      if Ascii.eqb x c then EmptyString :: split c s'
      else match split c s' with
           | h :: t => String x h :: t
           | [] => [String x EmptyString]
           end
  end.

(** [s.split(c, 1)] when [c] occurs in [s]: the text before the first [c]
    and the text after it; [None] when [c] does not occur. *)
Fixpoint split_once (c : ascii) (s : string) : option (string * string) :=
  match s with
  | EmptyString => None
  | String x s' =>
      if Ascii.eqb x c then Some (EmptyString, s')
      else match split_once c s' with
           | Some (a, b) => Some (String x a, b)
           | None => None
           end
  end.

(** [str(n)] for an integer. *)
Definition str_of_int (n : Z) : string := NilZero.string_of_int (Z.to_int n).

Section Dict.
Context {V : Type}.

Definition dict : Type := list (string * V).

Fixpoint get (k : string) (d : dict) : option V :=
  match d with
  | [] => None
  | (k', v) :: d' => if String.eqb k k' then Some v else get k d'
  end.

(** [d[k] = v]: an existing key keeps its place, a new one goes last. *)
Fixpoint set (k : string) (v : V) (d : dict) : dict :=
  match d with
  | [] => [(k, v)]
  | (k', v') :: d' =>
      if String.eqb k k' then (k', v) :: d' else (k', v') :: set k v d'
  end.

(** [dict(pairs)]. *)
Definition of_list (l : list (string * V)) : dict :=
  fold_left (fun d kv => set (fst kv) (snd kv) d) l [].

Definition keys (d : dict) : list string := map fst d.

End Dict.

Arguments dict V : clear implicits.

(** The float nearest to an integer (ties to even), infinite beyond the
    range of the floats. *)
Definition nearest_float (n : Z) : float :=
  SF2Prim (binary_normalize prec emax n 0 false).

(** [float(n)] for an [int], which is also the conversion of [n] in
    [x * n] for a float [x]: [None] stands for the [OverflowError] of an
    integer too large for a float. *)
Definition float_of_int (n : Z) : option float :=
  let f := nearest_float n in
  if is_infinity f then None else Some f.

(** [max(l, key=key)] with float keys: [None] stands for the [ValueError]
    on an empty sequence; the running best is replaced only by an element
    whose key compares greater ([key(y) > key(best)]), so the first of
    several maximal elements is returned, and a NaN key neither replaces
    nor is replaced. *)
Definition max_step {A : Type} (key : A -> float) (best y : A) : A :=
  if (key best <? key y)%float then y else best.

Definition max_by {A : Type} (key : A -> float) (l : list A) : option A :=
  match l with
  | [] => None
  | x :: r => Some (fold_left (max_step key) r x)
  end.

End Py.

(** ** Values shared by the judges *)

(** A decoded JSON value, as [json.loads] returns it: a number without
    fraction and exponent is an [int], any other a [float], the literals
    [NaN], [Infinity] and [-Infinity] included. *)
#[local] Set Warnings "-register-all".
Inductive json : Type :=
| JNull
| JBool (b : bool)
| JInt (n : Z)
| JFloat (f : float)
| JStr (s : string)
| JArr (l : list json)
| JObj (m : list (string * json)).

(** One entry of [Judgement.per_criterion]. *)
Record CritInfo : Type := mkCritInfo {
  ci_score : float;
  ci_weight : Z;
  ci_note : json
}.

Record Judgement : Type := mkJudgement {
  total : float;
  per_criterion : Py.dict CritInfo;
  verdict : json
}.

Definition Answers : Type := Py.dict string.
Definition Details : Type := Py.dict Judgement.


(** ** Exceptions, the trace and the session monad *)

Inductive exn : Type :=
| KeyError (k : string)
| ValueError
| AttributeError
| TypeError
| IndexError
| OverflowError
| AssertionError
| BadParameter (msg : string).

Inductive result (A : Type) : Type :=
| Ok (a : A)
| Raise (e : exn).

Arguments Ok {A} a.
Arguments Raise {A} e.

Record Message : Type := mkMessage {
  role : string;
  content : string
}.

(** The generation parameters every call carries. *)
Record Params : Type := mkParams {
  temperature : Q;
  max_tokens : Z;
  seed : option Z
}.

(** Who issued a completion call: one of the three agent operations, or a
    judge.  The tag is bookkeeping of the model; the oracle's answer does not
    have to depend on it. *)
Inductive Op : Type := OpPropose | OpCritique | OpDefend | OpJudge.

(** The records [Debate] hands to the logger (the timestamp is left out). *)
Inductive LogRecord : Type :=
| LogStart (question : string) (constraints : option string) (rounds : Z)
| LogPropose (agent text : string)
| LogCritique (from to text : string)
| LogDefend (agent text : string)
| LogEnd (winner : string).

Inductive Event : Type :=
| EChat (op : Op) (messages : list Message) (p : Params) (response : string)
| ELog (r : LogRecord).

Definition Trace : Type := list Event.

(** llm.py, [class LLM(Protocol)]: the completion text may depend on
    everything that happened before the call. *)
Class LLM : Type := {
  chat_response : Trace -> list Message -> Params -> string
}.

(** The two library conversions [GPTJudge] relies on: [json.loads] ([None]
    when it raises) and [float] of a string ([None] for its [ValueError]). *)
Class JSONCodec : Type := {
  json_loads : string -> option json;
  float_of_str : string -> option float
}.

(** A computation reads the history of the session and returns its result
    with the events it added; an exception keeps the events emitted before
    it was raised. *)
Definition M (A : Type) : Type := Trace -> result A * list Event.

Definition ret {A : Type} (a : A) : M A := fun _ => (Ok a, []).

Definition raise {A : Type} (e : exn) : M A := fun _ => (Raise e, []).

Definition bind {A B : Type} (m : M A) (f : A -> M B) : M B :=
  fun h =>
    match m h with
    | (Ok a, es) => let (r, es') := f a (h ++ es)%list in (r, (es ++ es')%list)
    | (Raise e, es) => (Raise e, es)
    end.

Definition lift {A : Type} (r : result A) : M A := fun _ => (r, []).

Declare Scope session_scope.
Delimit Scope session_scope with session.
Notation "x <- m ;; k" := (bind m (fun x => k))
  (at level 61, m at next level, right associativity) : session_scope.
Notation "' pat <- m ;; k" := (bind m (fun x => match x with pat => k end))
  (at level 61, pat pattern, m at next level, right associativity)
  : session_scope.
Notation "m ;; k" := (bind m (fun _ => k))
  (at level 61, right associativity) : session_scope.
Local Open Scope session_scope.

Definition chat `{LLM} (op : Op) (messages : list Message) (p : Params)
  : M string :=
  fun h =>
    let resp := chat_response h messages p in
    (Ok resp, [EChat op messages p resp]).

Definition log (r : LogRecord) : M unit := fun _ => (Ok tt, [ELog r]).

(** A [for] loop that collects one value per element, and one that threads
    an accumulator. *)
Fixpoint mapM {A B : Type} (f : A -> M B) (l : list A) : M (list B) :=
  match l with
  | [] => ret []
  | x :: l' => y <- f x ;; ys <- mapM f l' ;; ret (y :: ys)
  end.

Fixpoint foldM {A S : Type} (f : S -> A -> M S) (l : list A) (s : S) : M S :=
  match l with
  | [] => ret s
  | x :: l' => s' <- f s x ;; foldM f l' s'
  end.

(** The same loop for code that can raise but calls nothing. *)
Fixpoint fold_result {A S : Type} (f : S -> A -> result S) (l : list A)
  (s : S) : result S :=
  match l with
  | [] => Ok s
  | x :: l' =>
      match f s x with
      | Ok s' => fold_result f l' s'
      | Raise e => Raise e
      end
  end.

(** Computations all of whose events satisfy [P], whatever they return. *)
Definition emits_only {A : Type} (P : Event -> Prop) (m : M A) : Prop :=
  forall h, Forall P (snd (m h)).

(** ** rubrics.py *)

Module Rubrics.

Record Rubric : Type := mkRubric {
  name : string;
  criteria : Py.dict Z
}.

Definition DEFAULT_RUBRIC : Rubric :=
  {| name := "GeneralReasoningV1";
     criteria :=
       [("soundness", 3%Z); ("evidence", 2%Z); ("constraints", 2%Z);
        ("safety", 1%Z); ("clarity", 1%Z)] |}.

Definition rubric_instructions (r : Rubric) : string :=
  let desc :=
    Py.join Py.nl
      (map (fun kw => "- " ++ fst kw ++ ": weight " ++ Py.str_of_int (snd kw))
         (criteria r)) in
  "You are a judge. Score each submission 0-10 per criterion, multiply by weight, sum to total. Criteria:"
  ++ Py.nl ++ desc ++ Py.nl
  ++ "Respond as JSON with per-criterion scores and brief justifications, plus a one-sentence verdict.".

End Rubrics.

(** ** agents.py *)

Module Agents.

Record AgentSpec : Type := mkAgentSpec {
  id : string;
  system : string;
  style : string
}.

(** [constraints or 'None']. *)
Definition or_none (constraints : option string) : string :=
  match constraints with
  | Some (String c s) => String c s
  | _ => "None"
  end.

Section Agent.
Context `{LLM}.

Definition propose (spec : AgentSpec) (question : string)
  (constraints : option string) (p : Params) : M string :=
  let msgs :=
    [ mkMessage "system" (system spec);
      mkMessage "user"
        ("Question: " ++ question ++ Py.nl
         ++ "Constraints: " ++ or_none constraints ++ Py.nl ++ Py.nl
         ++ "Produce an initial, high-quality proposal. Use structured reasoning and cite assumptions.") ] in
  chat OpPropose msgs p.

Definition critique (spec : AgentSpec) (opponent_answer : string)
  (p : Params) : M string :=
  let msgs :=
    [ mkMessage "system" (system spec);
      mkMessage "user"
        ("Opponent's answer:" ++ Py.nl ++ opponent_answer ++ Py.nl ++ Py.nl
         ++ "Critique this answer: identify flaws, missing evidence, risky assumptions, and constraints violations. Be specific and constructive.") ] in
  chat OpCritique msgs p.

Definition defend (spec : AgentSpec) (own_answer : string)
  (critiques : list string) (p : Params) : M string :=
  let joined :=
    match critiques with
    | [] => "None"
    | _ => Py.join (Py.nl ++ "- ") critiques
    end in
  let msgs :=
    [ mkMessage "system" (system spec);
      mkMessage "user"
        ("Your previous answer:" ++ Py.nl ++ own_answer ++ Py.nl ++ Py.nl
         ++ "Critiques received:" ++ Py.nl ++ "- " ++ joined ++ Py.nl ++ Py.nl
         ++ "Revise your answer addressing valid points and strengthening the proposal. Keep what holds, fix what doesn't.") ] in
  chat OpDefend msgs p.

End Agent.

End Agents.

(** ** judge.py *)

Module RulesJudge.

Definition keywords : list string :=
  ["risk"; "mitigat"; "trade-off"; "constraint"; "latency"; "throughput";
   "security"; "safety"].

(** [_score]; a text has fewer than 2^63 characters, so the conversion of
    the count in [count * 1.0] cannot overflow. *)
Definition _score (text : string) : float :=
  let score := 0%float in
  let score :=
    (score
     + Py.nearest_float (Z.of_nat (Py.count (Py.nl ++ "- ") text)) * 1)%float in
  let score :=
    if Py.contains "##" text || Py.contains "###" text
    then (score + 1)%float else score in
  let score :=
    fold_left
      (fun score kw =>
         if Py.contains kw (Py.lower text) then (score + 1.5)%float else score)
      keywords score in
  let score :=
    if (3000 <? String.length text)%nat then (score - 2)%float else score in
  score.

Definition heuristic (s : float) : Judgement :=
  mkJudgement s [] (JStr "Heuristic score").

Definition judge (answers : Answers) : M (string * Details) :=
  let details :=
    fold_left
      (fun details kv => Py.set (fst kv) (heuristic (_score (snd kv))) details)
      answers [] in
  match Py.max_by (fun kv => total (snd kv)) details with
  | None => raise ValueError
  | Some kv => ret (fst kv, details)
  end.

End RulesJudge.

Module GPTJudge.

Section GPTJudge.
Context `{LLM} `{JSONCodec}.

(** [float(v)] for a decoded value: an [int] is converted to the nearest
    float, and is too large when no finite float is nearest; a string is
    parsed; [None], a list and an object are no numbers. *)
Definition py_float (v : json) : result float :=
  match v with
  | JInt n =>
      match Py.float_of_int n with
      | Some f => Ok f
      | None => Raise OverflowError
      end
  | JFloat f => Ok f
  | JBool b => Ok (if b then 1%float else 0%float)
  | JStr s =>
      match float_of_str s with
      | Some f => Ok f
      | None => Raise ValueError
      end
  | _ => Raise TypeError
  end.

(** [v.get(k, default)]: only a decoded object has the method. *)
Definition json_get (v : json) (k : string) (default : json) : result json :=
  match v with
  | JObj m =>
      Ok match Py.get k m with
         | Some x => x
         | None => default
         end
  | _ => Raise AttributeError
  end.

(** The body of the loop over [self.rubric.criteria.items()]; in
    [score * weight] the weight, an [int], is converted to a float. *)
Definition score_step (data : json) (acc : float * Py.dict CritInfo)
  (cw : string * Z) : result (float * Py.dict CritInfo) :=
  let (total, per) := acc in
  let (crit, weight) := cw in
  match json_get data crit (JObj []) with
  | Raise e => Raise e
  | Ok info =>
      match json_get info "score" (JFloat 0) with
      | Raise e => Raise e
      | Ok raw =>
          match py_float raw with
          | Raise e => Raise e
          | Ok score =>
              match json_get info "note" (JStr EmptyString) with
              | Raise e => Raise e
              | Ok note =>
                  let per := Py.set crit (mkCritInfo score weight note) per in
                  match Py.float_of_int weight with
                  | None => Raise OverflowError
                  | Some w => Ok ((total + score * w)%float, per)
                  end
              end
          end
      end
  end.

Definition parsing_failed : Judgement :=
  mkJudgement 0 [] (JStr "Parsing failed").

(** What follows the [try] block, for a response that parsed to [data]. *)
Definition score_parsed (rubric : Rubrics.Rubric) (data : json)
  : result Judgement :=
  match fold_result (score_step data) (Rubrics.criteria rubric)
          (0%float, []) with
  | Raise e => Raise e
  | Ok (total, per) =>
      match json_get data "verdict" (JStr EmptyString) with
      | Raise e => Raise e
      | Ok verdict => Ok (mkJudgement total per verdict)
      end
  end.

(** The [try] block: the text between the first opening and the last closing
    brace is decoded; any exception leaves [None]. *)
Definition extract (resp : string) : option json :=
  let start := Py.find "{" resp in
  let end_ := Py.rfind "}" resp in
  json_loads (Py.slice resp start (end_ + 1)).

Definition judge_params : Params := mkParams 0 600 None.

(** The request [_score_one] sends for one submission. *)
Definition messages (rubric : Rubrics.Rubric) (agent_id answer : string)
  : list Message :=
  let prompt :=
    Rubrics.rubric_instructions rubric ++ Py.nl ++ Py.nl
    ++ "Submission from " ++ agent_id ++ ":" ++ Py.nl ++ answer ++ Py.nl in
  [ mkMessage "system" "You are a strict but fair debate judge.";
    mkMessage "user" prompt ].

Definition _score_one (rubric : Rubrics.Rubric) (agent_id answer : string)
  : M Judgement :=
  resp <- chat OpJudge (messages rubric agent_id answer) judge_params ;;
  match extract resp with
  | None => ret parsing_failed
  | Some data => lift (score_parsed rubric data)
  end.

Definition judge (rubric : Rubrics.Rubric) (answers : Answers)
  : M (string * Details) :=
  scored <- mapM (fun kv =>
                    j <- _score_one rubric (fst kv) (snd kv) ;;
                    ret (fst kv, j))
                 answers ;;
  let details := Py.of_list scored in
  match Py.max_by (fun kv => total (snd kv)) details with
  | None => raise ValueError
  | Some kv => ret (fst kv, details)
  end.

End GPTJudge.

End GPTJudge.

Module PanelJudge.

(** [n: int = 3] of [PanelJudge.__init__]. *)
Definition default_n : Z := 3.

Section PanelJudge.
Context `{LLM} `{JSONCodec}.

(** [agg[aid] += j.total]. *)
Definition add_total (agg : Py.dict float) (aj : string * Judgement)
  : result (Py.dict float) :=
  match Py.get (fst aj) agg with
  | None => Raise (KeyError (fst aj))
  | Some x => Ok (Py.set (fst aj) (x + total (snd aj))%float agg)
  end.

Definition add_panel (agg : Py.dict float) (wd : string * Details)
  : result (Py.dict float) :=
  fold_result add_total (snd wd) agg.

Definition zero_agg (answers : Answers) : Py.dict float :=
  Py.of_list (map (fun kv => (fst kv, 0%float)) answers).

(** The [n] members are judged one after the other, each over [answers]. *)
Definition run_members (rubric : Rubrics.Rubric) (n : Z) (answers : Answers)
  : M (list (string * Details)) :=
  mapM (fun _ : nat => GPTJudge.judge rubric answers) (seq 0 (Z.to_nat n)).

Definition judge (rubric : Rubrics.Rubric) (n : Z) (answers : Answers)
  : M (string * Details) :=
  panels <- run_members rubric n answers ;;
  agg <- lift (fold_result add_panel panels (zero_agg answers)) ;;
  match Py.max_by snd agg with
  | None => raise ValueError
  | Some kv =>
      match panels with
      | [] => raise IndexError
      | first :: _ => ret (fst kv, snd first)
      end
  end.

End PanelJudge.

End PanelJudge.

(** [BaseJudge] and its three subclasses. *)
Inductive Judge : Type :=
| GPT (rubric : Rubrics.Rubric)
| Panel (rubric : Rubrics.Rubric) (n : Z)
| Rules.

Definition judge `{LLM} `{JSONCodec} (j : Judge) (answers : Answers)
  : M (string * Details) :=
  match j with
  | GPT rubric => GPTJudge.judge rubric answers
  | Panel rubric n => PanelJudge.judge rubric n answers
  | Rules => RulesJudge.judge answers
  end.

(** [judge_factory(kind, llm)]; [has_llm] says whether [llm] is not [None]. *)
Definition judge_factory (kind : option string) (has_llm : bool)
  : result Judge :=
  let k :=
    Py.lower match kind with
             | Some (String c s) => String c s
             | _ => "gpt"
             end in
  if String.eqb k "gpt" then
    if has_llm then Ok (GPT Rubrics.DEFAULT_RUBRIC) else Raise AssertionError
  else if String.eqb k "panel" then
    if has_llm
    then Ok (Panel Rubrics.DEFAULT_RUBRIC PanelJudge.default_n)
    else Raise AssertionError
  else if String.eqb k "rules" then Ok Rules
  else Raise ValueError.

(** ** debate.py *)

Module Debate.

Record DebateResult : Type := mkDebateResult {
  winner_id : string;
  final_synthesis : string;
  answers : Answers;
  judge_details : Details
}.

Definition Agents : Type := Py.dict Agents.AgentSpec.

Section Debate.
Context `{LLM} `{JSONCodec}.
Variable agents : Agents.
Variable the_judge : Judge.

(** The tasks are coroutines without a suspension point: [asyncio.gather]
    runs them to completion one after the other, in the order of
    [self.agents]. *)
Definition _propose_round (question : string) (constraints : option string)
  (p : Params) : M Answers :=
  results <- mapM (fun aa =>
                     ans <- Agents.propose (snd aa) question constraints p ;;
                     log (LogPropose (fst aa) ans) ;;
                     ret (fst aa, ans))
                  agents ;;
  ret (Py.of_list results).

Definition Critiques : Type := Py.dict (list string).

(** The body of the inner loop, for the critic [aa] and one target:
    [critiques[target_id].append(...)] raises [KeyError] for a target that
    is no key of [critiques]. *)
Definition critique_one (target_id target_ans : string) (p : Params)
  (critiques : Critiques) (aa : string * Agents.AgentSpec) : M Critiques :=
  if String.eqb (fst aa) target_id then ret critiques
  else
    crit <- Agents.critique (snd aa) target_ans p ;;
    match Py.get target_id critiques with
    | None => raise (KeyError target_id)
    | Some l =>
        log (LogCritique (fst aa) target_id crit) ;;
        ret (Py.set target_id
               (l ++ [(fst aa ++ ": " ++ crit)%string])%list critiques)
    end.

Definition _critique_round (answers : Answers) (p : Params) : M Critiques :=
  let critiques : Critiques :=
    Py.of_list (map (fun aa => (fst aa, [])) agents) in
  foldM (fun critiques ta =>
           foldM (critique_one (fst ta) (snd ta) p) agents critiques)
        answers critiques.

Definition _defend_round (answers : Answers) (critiques : Critiques)
  (p : Params) : M Answers :=
  results <- mapM (fun aa =>
                     match Py.get (fst aa) answers with
                     | None => raise (KeyError (fst aa))
                     | Some own =>
                         match Py.get (fst aa) critiques with
                         | None => raise (KeyError (fst aa))
                         | Some cs =>
                             rev <- Agents.defend (snd aa) own cs p ;;
                             log (LogDefend (fst aa) rev) ;;
                             ret (fst aa, rev)
                         end
                     end)
                  agents ;;
  ret (Py.of_list results).

Definition _synthesize (answers : Answers) : string :=
  let parts :=
    map (fun at_ => "### " ++ fst at_ ++ Py.nl ++ snd at_ ++ Py.nl) answers in
  Py.join Py.nl parts.

(** [for _ in range(rounds)]: one critique round, then one defend round. *)
Fixpoint rounds_loop (n : nat) (answers : Answers) (p : Params) : M Answers :=
  match n with
  | O => ret answers
  | S n' =>
      critiques <- _critique_round answers p ;;
      answers <- _defend_round answers critiques p ;;
      rounds_loop n' answers p
  end.

(** Everything [run] does before it calls the judge. *)
Definition debate (question : string) (constraints : option string)
  (rounds : Z) (p : Params) : M Answers :=
  log (LogStart question constraints rounds) ;;
  answers <- _propose_round question constraints p ;;
  rounds_loop (Z.to_nat rounds) answers p.

(** The rest of [run], from the call of the judge on. *)
Definition conclude (answers : Answers) : M DebateResult :=
  wd <- judge the_judge answers ;;
  let synthesis := _synthesize answers in
  log (LogEnd (fst wd)) ;;
  let det := Py.of_list (snd wd) in
  ret (mkDebateResult (fst wd) synthesis answers det).

Definition run (question : string) (constraints : option string)
  (rounds : Z) (p : Params) : M DebateResult :=
  answers <- debate question constraints rounds p ;;
  conclude answers.

End Debate.

End Debate.

(** ** cli.py *)

Module Cli.

(** [[x.strip() for x in agents.split(",") if x.strip()]]. *)
Definition parse_agent_ids (agents : string) : list string :=
  map Py.strip
    (filter (fun x => negb (String.eqb (Py.strip x) EmptyString))
       (Py.split "," agents)).

(** [build_agents]; [reg] is the registry [load_registry] read from
    [config/agents.yaml]. *)
Definition build_agents (reg : Py.dict Agents.AgentSpec)
  (agent_ids : list string) (extra_roles : list string)
  : result Debate.Agents :=
  match
    fold_result
      (fun chosen aid =>
         match Py.get aid reg with
         | None => Raise (BadParameter ("Unknown agent id: " ++ aid))
         | Some spec => Ok (Py.set aid spec chosen)
         end)
      agent_ids []
  with
  | Raise e => Raise e
  | Ok chosen =>
      fold_result
        (fun chosen role =>
           match Py.split_once ":" role with
           | None =>
               Raise (BadParameter
                        "Each --agent-role must look like 'Name:system prompt text'")
           | Some (name, system) =>
               Ok (Py.set name
                     (Agents.mkAgentSpec name (Py.strip system) "generalist")
                     chosen)
           end)
        extra_roles chosen
  end.

(** Whether the entry points create a client for the judge. *)
Definition judge_needs_llm (judge_kind : string) : bool :=
  let k := Py.lower judge_kind in
  String.eqb k "gpt" || String.eqb k "panel".

Section Run.
Context `{LLM} `{JSONCodec}.
Variable reg : Py.dict Agents.AgentSpec.

(** The command [run], given the options as typer hands them over. *)
Definition run (question agents : string) (agent_role : list string)
  (rounds : Z) (judge_kind : string) (p : Params)
  (constraints : option string) : M Debate.DebateResult :=
  let agent_ids := parse_agent_ids agents in
  built_agents <- lift (build_agents reg agent_ids agent_role) ;;
  judge_inst <- lift (judge_factory (Some judge_kind)
                        (judge_needs_llm judge_kind)) ;;
  Debate.run built_agents judge_inst question constraints rounds p.

End Run.

End Cli.

(** ** streamlit_ui.py (gradio_ui.py has the same guards) *)

Module StreamlitUI.

Inductive Outcome : Type :=
| Rejected (msg : string)
| Failed (e : exn)
| Completed (r : Debate.DebateResult).

Section RunDebate.
Context `{LLM} `{JSONCodec}.
Variable reg : Py.dict Agents.AgentSpec.

(** [run_debate]: the three guards return before anything is built; an
    exception of the session is caught and reported. *)
Definition run_debate (question agents : string) (rounds : Z)
  (judge_type : string) (temperature : Q) (max_tokens : Z)
  (api_key : string) : M Outcome :=
  if String.eqb (Py.strip question) EmptyString then
    ret (Rejected "Please enter a question for the debate.")
  else if String.eqb (Py.strip agents) EmptyString then
    ret (Rejected "Please specify at least one agent.")
  else if String.eqb (Py.strip api_key) EmptyString then
    ret (Rejected "Please enter your OpenAI API key.")
  else
    let session :=
      let agent_ids := Cli.parse_agent_ids agents in
      built_agents <- lift (Cli.build_agents reg agent_ids []) ;;
      judge_inst <- lift (judge_factory (Some judge_type)
                            (Cli.judge_needs_llm judge_type)) ;;
      Debate.run built_agents judge_inst question None rounds
        (mkParams temperature max_tokens None) in
    fun h =>
      match session h with
      | (Ok r, es) => (Ok (Completed r), es)
      | (Raise e, es) => (Ok (Failed e), es)
      end.

End RunDebate.

End StreamlitUI.

(** ** Concrete collaborators for the examples *)

(** A completion capability that plays back a script: the k-th call of the
    session gets the k-th text, and the empty text once the script is over. *)
Module Scripted.

Definition chats (h : Trace) : nat :=
  List.length
    (filter (fun e => match e with
                      | EChat _ _ _ _ => true
                      | ELog _ => false
                      end) h).

Definition llm (script : list string) : LLM :=
  {| chat_response := fun h _ _ => nth (chats h) script EmptyString |}.

End Scripted.

(** A decoder for the JSON texts of the examples: objects, arrays, strings
    with the one-character escapes, [true], [false], [null], [NaN] and the
    infinities, integers, and the decimal numbers that one correctly rounded
    operation gives exactly as [float] does (mantissa below 2^53, decimal
    exponent within 22).  On these texts it returns what [json.loads]
    returns. *)
Module MiniJSON.

Definition is_ws (c : ascii) : bool :=
  let n := nat_of_ascii c in
  (n =? 32)%nat || (n =? 9)%nat || (n =? 10)%nat || (n =? 13)%nat.

Fixpoint skip_ws (s : string) : string :=
  match s with
  | String c s' => if is_ws c then skip_ws s' else s
  | EmptyString => EmptyString
  end.

Definition digit (c : ascii) : option Z :=
  let n := nat_of_ascii c in
  if (48 <=? n)%nat && (n <=? 57)%nat then Some (Z.of_nat (n - 48)) else None.

(** The digits at the head of [s]: their value after [acc], how many there
    are, and the rest of the text. *)
Fixpoint digits (s : string) (acc : Z) (k : nat) : Z * nat * string :=
  match s with
  | String c s' =>
      match digit c with
      | Some d => digits s' (acc * 10 + d)%Z (S k)
      | None => (acc, k, s)
      end
  | EmptyString => (acc, k, s)
  end.

Definition exponent (s : string) : option (option Z * string) :=
  match s with
  | String c s' =>
      if Ascii.eqb c "e" || Ascii.eqb c "E" then
        let (neg, s1) :=
          match s' with
          | String d s2 =>
              if Ascii.eqb d "-" then (true, s2)
              else if Ascii.eqb d "+" then (false, s2)
              else (false, s')
          | EmptyString => (false, s')
          end in
        match digits s1 0%Z 0 with
        | (_, O, _) => None
        | (e, _, rest) => Some (Some (if neg then (- e)%Z else e), rest)
        end
      else Some (None, s)
  | EmptyString => Some (None, s)
  end.

(** The digits after the point, as an integer with its number of digits. *)
Definition fraction (s : string) : option (option (Z * nat) * string) :=
  match s with
  | String c s' =>
      if Ascii.eqb c "." then
        match digits s' 0%Z 0 with
        | (_, O, _) => None
        | (f, S k, rest) => Some (Some (f, S k), rest)
        end
      else Some (None, s)
  | EmptyString => Some (None, s)
  end.

(** The float nearest to [m * 10^e], for the numbers one operation on
    exact operands gets right: [m] below 2^53 and [e] between -22 and 22. *)
Definition decimal (m e : Z) : option float :=
  if (m <? 2 ^ 53)%Z && (-22 <=? e)%Z && (e <=? 22)%Z then
    Some (if (e <? 0)%Z
          then (Py.nearest_float m / Py.nearest_float (10 ^ (- e)))%float
          else (Py.nearest_float m * Py.nearest_float (10 ^ e))%float)
  else None.

(** A number: an [int] when it has neither fraction nor exponent, a
    [float] otherwise. *)
Definition number (s : string) : option (json * string) :=
  let (neg, s1) :=
    match s with
    | String c s' => if Ascii.eqb c "-" then (true, s') else (false, s)
    | EmptyString => (false, s)
    end in
  let int_part :=
    match s1 with
    | String c s' =>
        if Ascii.eqb c "0" then Some (0%Z, s')
        else match digits s1 0%Z 0 with
             | (_, O, _) => None
             | (n, _, rest) => Some (n, rest)
             end
    | EmptyString => None
    end in
  match int_part with
  | None => None
  | Some (n, s2) =>
      match fraction s2 with
      | None => None
      | Some (frac, s3) =>
          match exponent s3 with
          | None => None
          | Some (exp, s4) =>
              match frac, exp with
              | None, None => Some (JInt (if neg then (- n)%Z else n), s4)
              | _, _ =>
                  let (f, k) :=
                    match frac with
                    | Some fk => fk
                    | None => (0%Z, O)
                    end in
                  let e :=
                    match exp with
                    | Some e => e
                    | None => 0%Z
                    end in
                  match decimal (n * 10 ^ Z.of_nat k + f)%Z
                          (e - Z.of_nat k)%Z with
                  | Some x => Some (JFloat (if neg then (- x)%float else x), s4)
                  | None => None
                  end
              end
          end
      end
  end.

(** The text of a string literal, read after its opening quote. *)
Fixpoint string_body (s : string) : option (string * string) :=
  match s with
  | EmptyString => None
  | String c s' =>
      if Ascii.eqb c "034" then Some (EmptyString, s')
      else if Ascii.eqb c "\" then
        match s' with
        | String e s2 =>
            let plain (x : ascii) :=
              match string_body s2 with
              | Some (t, rest) => Some (String x t, rest)
              | None => None
              end in
            if Ascii.eqb e "034" then plain "034"%char
            else if Ascii.eqb e "\" then plain "\"%char
            else if Ascii.eqb e "/" then plain "/"%char
            else if Ascii.eqb e "n" then plain "010"%char
            else if Ascii.eqb e "t" then plain "009"%char
            else if Ascii.eqb e "r" then plain "013"%char
            else if Ascii.eqb e "b" then plain "008"%char
            else if Ascii.eqb e "f" then plain "012"%char
            else None
        | EmptyString => None
        end
      else if (nat_of_ascii c <? 32)%nat then None
      else match string_body s' with
           | Some (t, rest) => Some (String c t, rest)
           | None => None
           end
  end.

Definition literal (word : string) (v : json) (s : string)
  : option (json * string) :=
  if String.prefix word s
  then Some (v, String.substring (String.length word)
                  (String.length s - String.length word) s)
  else None.

Fixpoint value (fuel : nat) (s : string) {struct fuel}
  : option (json * string) :=
  match fuel with
  | O => None
  | S fuel' =>
      match skip_ws s with
      | EmptyString => None
      | String c r =>
          if Ascii.eqb c "{" then
            match skip_ws r with
            | String d r' =>
                if Ascii.eqb d "}" then Some (JObj [], r')
                else members fuel' (String d r') []
            | EmptyString => None
            end
          else if Ascii.eqb c "[" then
            match skip_ws r with
            | String d r' =>
                if Ascii.eqb d "]" then Some (JArr [], r')
                else elements fuel' (String d r') []
            | EmptyString => None
            end
          else if Ascii.eqb c "034" then
            match string_body r with
            | Some (t, rest) => Some (JStr t, rest)
            | None => None
            end
          else if Ascii.eqb c "t" then literal "true" (JBool true) (String c r)
          else if Ascii.eqb c "f" then literal "false" (JBool false) (String c r)
          else if Ascii.eqb c "n" then literal "null" JNull (String c r)
          else if Ascii.eqb c "N" then literal "NaN" (JFloat nan) (String c r)
          else if Ascii.eqb c "I"
          then literal "Infinity" (JFloat infinity) (String c r)
          else if String.prefix "-I" (String c r)
          then literal "-Infinity" (JFloat neg_infinity) (String c r)
          else number (String c r)
      end
  end
with members (fuel : nat) (s : string) (acc : Py.dict json) {struct fuel}
  : option (json * string) :=
  match fuel with
  | O => None
  | S fuel' =>
      match s with
      | String c r =>
          if Ascii.eqb c "034" then
            match string_body r with
            | None => None
            | Some (k, r1) =>
                match skip_ws r1 with
                | String colon r2 =>
                    if Ascii.eqb colon ":" then
                      match value fuel' r2 with
                      | None => None
                      | Some (v, r3) =>
                          match skip_ws r3 with
                          | String d r4 =>
                              if Ascii.eqb d "," then
                                members fuel' (skip_ws r4) (Py.set k v acc)
                              else if Ascii.eqb d "}" then
                                Some (JObj (Py.set k v acc), r4)
                              else None
                          | EmptyString => None
                          end
                      end
                    else None
                | EmptyString => None
                end
            end
          else None
      | EmptyString => None
      end
  end
with elements (fuel : nat) (s : string) (acc : list json) {struct fuel}
  : option (json * string) :=
  match fuel with
  | O => None
  | S fuel' =>
      match value fuel' s with
      | None => None
      | Some (v, r1) =>
          match skip_ws r1 with
          | String d r2 =>
              if Ascii.eqb d "," then elements fuel' r2 (acc ++ [v])%list
              else if Ascii.eqb d "]" then Some (JArr (acc ++ [v])%list, r2)
              else None
          | EmptyString => None
          end
      end
  end.

Definition loads (s : string) : option json :=
  match value (S (String.length s)) s with
  | Some (v, rest) =>
      match skip_ws rest with
      | EmptyString => Some v
      | String _ _ => None
      end
  | None => None
  end.

Definition to_float (s : string) : option float :=
  match number (Py.strip s) with
  | Some (JInt n, EmptyString) => Some (Py.nearest_float n)
  | Some (JFloat f, EmptyString) => Some f
  | _ => None
  end.

Definition codec : JSONCodec :=
  {| json_loads := loads; float_of_str := to_float |}.

End MiniJSON.


(** ** Reading a trace *)

Definition Op_eqb (a b : Op) : bool :=
  match a, b with
  | OpPropose, OpPropose | OpCritique, OpCritique
  | OpDefend, OpDefend | OpJudge, OpJudge => true
  | _, _ => false
  end.

(** What an event is, without the texts it carries. *)
Inductive Kind : Type :=
| KChat (op : Op)
| KStart
| KPropose (agent : string)
| KCritique (from to : string)
| KDefend (agent : string)
| KEnd.

Definition kind (e : Event) : Kind :=
  match e with
  | EChat op _ _ _ => KChat op
  | ELog (LogStart _ _ _) => KStart
  | ELog (LogPropose a _) => KPropose a
  | ELog (LogCritique f t _) => KCritique f t
  | ELog (LogDefend a _) => KDefend a
  | ELog (LogEnd _) => KEnd
  end.

Definition is_chat (op : Op) (k : Kind) : bool :=
  match k with
  | KChat op' => Op_eqb op op'
  | _ => false
  end.

Definition count_kind (op : Op) (ks : list Kind) : nat :=
  List.length (filter (is_chat op) ks).

(** The number of completion calls issued by [op] among the events [es]. *)
Definition calls (op : Op) (es : list Event) : nat :=
  count_kind op (map kind es).

(** An event of the closing part of a session: a completion call of a judge
    or the [end] record. *)
Definition closing_event (e : Event) : Prop :=
  match kind e with
  | KChat OpJudge | KEnd => True
  | _ => False
  end.

(** The critiques logged in [es]: critic, target and text. *)
Definition critique_records (es : list Event)
  : list (string * string * string) :=
  flat_map (fun e => match e with
                     | ELog (LogCritique f t x) => [(f, t, x)]
                     | _ => []
                     end) es.

(** The entries the critique round stores for [target], read off the log. *)
Definition entries_for (target : string) (es : list Event) : list string :=
  map (fun r => (fst (fst r) ++ ": " ++ snd r)%string)
    (filter (fun r => String.eqb (snd (fst r)) target) (critique_records es)).

(** The shape of a session over the agent ids [ids]. *)
Definition propose_shape (ids : list string) : list Kind :=
  flat_map (fun a => [KChat OpPropose; KPropose a]) ids.

Definition critique_pair (target critic : string) : list Kind :=
  if String.eqb critic target then []
  else [KChat OpCritique; KCritique critic target].

Definition critique_shape (ids : list string) : list Kind :=
  flat_map (fun t => flat_map (critique_pair t) ids) ids.

Definition defend_shape (ids : list string) : list Kind :=
  flat_map (fun a => [KChat OpDefend; KDefend a]) ids.

Fixpoint rounds_shape (n : nat) (ids : list string) : list Kind :=
  match n with
  | O => []
  | S n' => (critique_shape ids ++ defend_shape ids ++ rounds_shape n' ids)%list
  end.

Definition debate_shape (n : nat) (ids : list string) : list Kind :=
  (KStart :: propose_shape ids ++ rounds_shape n ids)%list.

(** ** Notions the properties are stated with *)

(** [x] is the first element of [l] whose key is maximal, in the order of
    the floats ([<] and [<=] as Python compares them): everything before it
    has a strictly smaller key, nothing after it has a larger one. *)
Definition first_argmax {A : Type} (key : A -> float) (l : list A) (x : A)
  : Prop :=
  exists l1 l2,
    l = (l1 ++ x :: l2)%list
    /\ (forall y, In y l1 -> (key y <? key x)%float = true)
    /\ (forall y, In y l2 -> (key y <=? key x)%float = true).


(** The key the judges rank by. *)
Definition by_total (kv : string * Judgement) : float := total (snd kv).

(** One member's total for [aid] added to a running sum. *)
Definition add_member (aid : string) (acc : float) (wd : string * Details)
  : float :=
  match Py.get aid (snd wd) with
  | Some j => (acc + total j)%float
  | None => acc
  end.

(** The total a panel gives to [aid]: the members' totals added in the order
    of the members, starting from [0.0]. *)
Definition summed_total (panels : list (string * Details)) (aid : string)
  : float :=
  fold_left (add_member aid) panels 0%float.

Definition summed_totals (panels : list (string * Details))
  (answers : Answers) : Py.dict float :=
  map (fun kv => (fst kv, summed_total panels (fst kv))) answers.

(** The text the capability returns to [_score_one]. *)
Definition judge_response `{LLM} (rubric : Rubrics.Rubric) (aid answer : string)
  (h : Trace) : string :=
  chat_response h (GPTJudge.messages rubric aid answer) GPTJudge.judge_params.




(** The lines of a text that begin with a bullet, as the specification
    counts them. *)
Definition bullet_lines (text : string) : nat :=
  List.length (filter (String.prefix "- ") (Py.split "010" text)).

(** The pattern the heuristic judge counts, and the first line of a text. *)
Definition bullet : string := Py.nl ++ "- ".

Definition first_line (s : string) : string :=
  hd EmptyString (Py.split "010" s).

(** The heuristic score as the specification words it, for a text with
    [bullets] lines that begin with a bullet: one per such line, then one
    for a heading marker, then one and a half for each keyword found, then
    two off for a long text, added up in this order in float arithmetic. *)
Definition spec_score_of (bullets : nat) (text : string) : float :=
  let score := (0 + Py.nearest_float (Z.of_nat bullets) * 1)%float in
  let score :=
    if Py.contains "##" text || Py.contains "###" text
    then (score + 1)%float else score in
  let score :=
    fold_left
      (fun score kw =>
         if Py.contains kw (Py.lower text) then (score + 1.5)%float else score)
      RulesJudge.keywords score in
  if (3000 <? String.length text)%nat then (score - 2)%float else score.

Definition spec_score (text : string) : float :=
  spec_score_of (bullet_lines text) text.

(** The places of a text where [p] begins. *)
Fixpoint occurrences (p s : string) : nat :=
  match s with
  | EmptyString => 0
  | String _ s' =>
      ((if String.prefix p s then 1 else 0) + occurrences p s')%nat
  end.

(** The heading [_synthesize] gives to an agent, and its whole block. *)
Definition heading (aid : string) : string := "### " ++ aid.

Definition block (aid text : string) : string :=
  heading aid ++ Py.nl ++ text ++ Py.nl.

(** The lines of a text that are the heading of [aid]. *)
Definition heading_lines (aid text : string) : nat :=
  count_occ string_dec (Py.split "010" text) (heading aid).

(** The state of the critique round agrees with its log: every agent has a
    list, holding the critiques logged for it so far. *)
Definition critiques_agree (ids : list string) (acc : list Event)
  (cr : Py.dict (list string)) : Prop :=
  Py.keys cr = ids
  /\ forall t, In t ids -> Py.get t cr = Some (entries_for t acc).

(** An event that is a completion call of a judge. *)
Definition judge_call (e : Event) : Prop := kind e = KChat OpJudge.

(** The texts the log holds for the agents: what each proposed or answered
    in defence, in the order of the records. *)
Definition logged_texts (es : list Event) : list (string * string) :=
  flat_map (fun e => match e with
                     | ELog (LogPropose a t) => [(a, t)]
                     | ELog (LogDefend a t) => [(a, t)]
                     | _ => []
                     end) es.

(** A record that logs the completion [resp] of a call issued by [op]. *)
Definition records (op : Op) (r : LogRecord) (resp : string) : Prop :=
  match op, r with
  | OpPropose, LogPropose _ t => t = resp
  | OpCritique, LogCritique _ _ t => t = resp
  | OpDefend, LogDefend _ t => t = resp
  | _, _ => False
  end.

(** A stretch of the trace in which every completion call is followed at
    once by the record of its text, and nothing else happens. *)
Fixpoint transcribed (es : list Event) : Prop :=
  match es with
  | [] => True
  | EChat op _ _ resp :: ELog r :: rest => records op r resp /\ transcribed rest
  | _ => False
  end.

(** A stretch that is a transcript of the agents' texts [ys]. *)
Definition transcript_of (ys : list (string * string)) (es : list Event)
  : Prop :=
  transcribed es /\ logged_texts es = ys.

(** The critics of a target: the other agents, in the order of the agents. *)
Definition critics_of (target : string) (ids : list string) : list string :=
  filter (fun c => negb (String.eqb c target)) ids.

(** The (critic, target) pairs of the critique records among some kinds. *)
Definition kind_pairs (ks : list Kind) : list (string * string) :=
  flat_map (fun k => match k with
                     | KCritique f t => [(f, t)]
                     | _ => []
                     end) ks.

(** The names of the ad-hoc roles ([Name:system prompt text]), in the order
    given. *)
Definition role_names (roles : list string) : list string :=
  flat_map (fun role => match Py.split_once ":" role with
                        | Some (name, _) => [name]
                        | None => []
                        end) roles.

(** The options of the command line that [run] can act on: every agent id
    is in the registry, every ad-hoc role has a colon, and the judge kind
    is one of the three (in any letter case). *)
Definition well_configured (reg : Py.dict Agents.AgentSpec)
  (agents : string) (agent_role : list string) (judge_kind : string) : Prop :=
  (forall aid, In aid (Cli.parse_agent_ids agents) -> Py.get aid reg <> None)
  /\ (forall role, In role agent_role -> Py.split_once ":" role <> None)
  /\ judge_kind <> EmptyString
  /\ In (Py.lower judge_kind) ["gpt"; "panel"; "rules"].

(** The exceptions with which [run] turns down its options. *)
Definition config_error (e : exn) : Prop :=
  match e with
  | BadParameter _ | AssertionError | ValueError => True
  | _ => False
  end.

(** A completion call made for an agent of [agents] with the generation
    parameters [p] of the session: the persona of the agent as system
    message, then one user message. *)
Definition agent_request (agents : Debate.Agents) (p : Params) (e : Event)
  : Prop :=
  match e with
  | EChat op msgs p' _ =>
      op <> OpJudge /\ p' = p
      /\ exists aa user,
           In aa agents
           /\ msgs = [ mkMessage "system" (Agents.system (snd aa));
                       mkMessage "user" user ]
  | ELog _ => False
  end.

(** A completion call of a judge: the request [_score_one] builds for some
    submission, at temperature [0.0], with at most 600 tokens and no seed. *)
Definition judge_request (e : Event) : Prop :=
  match e with
  | EChat op msgs p' _ =>
      op = OpJudge
      /\ (temperature p' = 0%Q /\ max_tokens p' = 600%Z /\ seed p' = None)
      /\ exists rubric agent_id answer,
           msgs = GPTJudge.messages rubric agent_id answer
  | ELog _ => False
  end.

Definition is_log (e : Event) : Prop :=
  match e with
  | ELog _ => True
  | EChat _ _ _ _ => False
  end.

(** The details of a judge none of whose responses could be decoded. *)
Definition failed_details (answers : Answers) : Details :=
  map (fun kv => (fst kv, GPTJudge.parsing_failed)) answers.

(** What the breakdown of a judgement adds up to: score times weight over
    its entries, in their order, starting from [0.0], in float
    arithmetic. *)
Definition breakdown_sum (per : Py.dict CritInfo) : float :=
  fold_left
    (fun acc kc =>
       (acc + ci_score (snd kc) * Py.nearest_float (ci_weight (snd kc)))%float)
    per 0%float.

(** The text logged last for [aid] in [h]: what it proposed or answered
    in defence most recently. *)
Definition latest (aid : string) (h : list Event) : option string :=
  Py.get aid (rev (logged_texts h)).

(** The events of [h] that come after the record of the latest text of
    [aid] (all of [h] when it has logged none). *)
Definition since_step (aid : string) (acc : list Event) (e : Event)
  : list Event :=
  match e with
  | ELog (LogPropose a _) | ELog (LogDefend a _) =>
      if String.eqb a aid then [] else (acc ++ [e])%list
  | _ => (acc ++ [e])%list
  end.

Definition since_latest (aid : string) (h : list Event) : list Event :=
  fold_left (since_step aid) h [].

(** A stretch of the trace made of completion calls, each followed at once by
    a log record to which it is related by [P] at the history of the call. *)
Fixpoint paired (P : Trace -> Event -> LogRecord -> Prop) (h : Trace)
  (es : list Event) : Prop :=
  match es with
  | [] => True
  | call :: ELog r :: rest =>
      P h call r /\ paired P (h ++ [call; ELog r])%list rest
  | _ => False
  end.

(** The data flow of the protocol, for a call made at the history [h] and
    logged as [r]: a proposal is the agent's [propose] on the question; a
    critique is the critic's [critique] of the latest answer of another
    agent, the target; a defence is the agent's [defend] of its own latest
    answer against the critiques logged for it since that answer.  In each
    case the text logged is the completion of the call. *)
Definition follows_protocol `{LLM} (agents : Debate.Agents)
  (question : string) (constraints : option string) (p : Params)
  (h : Trace) (call : Event) (r : LogRecord) : Prop :=
  match r with
  | LogPropose a x =>
      exists spec,
        Py.get a agents = Some spec
        /\ Agents.propose spec question constraints p h = (Ok x, [call])
  | LogCritique f t x =>
      f <> t
      /\ exists spec ans,
           Py.get f agents = Some spec
           /\ latest t h = Some ans
           /\ Agents.critique spec ans p h = (Ok x, [call])
  | LogDefend a x =>
      exists spec own,
        Py.get a agents = Some spec
        /\ latest a h = Some own
        /\ Agents.defend spec own (entries_for a (since_latest a h)) p h
           = (Ok x, [call])
  | _ => False
  end.

(** ** The data of the examples *)

Module Examples.

Definition answer_A : string :=
  "- one" ++ Py.nl ++ "- two" ++ Py.nl ++ "## Heading" ++ Py.nl
  ++ "Security and safety matter.".

Definition answer_B : string :=
  "plain text, no bullets, no headings, nothing relevant.".

Definition answers_AB : Answers := [("A", answer_A); ("B", answer_B)].

Definition registry : Py.dict Agents.AgentSpec :=
  [("A", Agents.mkAgentSpec "A" "You are cautious." "generalist");
   ("B", Agents.mkAgentSpec "B" "You are bold." "generalist")].

Definition params : Params := mkParams (1 # 5) 800 None.

(** A session of two agents and one round: two proposals, two critiques and
    two revised answers, the last two being the answers of the scenario. *)
Definition script_AB : list string :=
  ["first A"; "first B"; "B is vague"; "A is long"; answer_A; answer_B].

Definition quoted (s : string) : string := Py.dq ++ s ++ Py.dq.

(** A reply that gives a bare number for a criterion. *)
Definition bare_number_reply : string :=
  "{" ++ quoted "soundness" ++ ": 5}".

(** A reply that scores one criterion and nothing else. *)
Definition single_reply (crit score : string) : string :=
  "{" ++ quoted crit ++ ": {" ++ quoted "score" ++ ": " ++ score ++ "}}".

(** The digits of 10^n. *)
Fixpoint zeros (n : nat) : string :=
  match n with
  | O => EmptyString
  | S k => String "0" (zeros k)
  end.

Definition power_of_ten (n : nat) : string := String "1" (zeros n).

(** A reply in the shape the judge reads. *)
Definition reply (soundness : string) : string :=
  "Here is my verdict: {" ++ quoted "soundness" ++ ": {" ++ quoted "score"
  ++ ": " ++ soundness ++ ", " ++ quoted "note" ++ ": " ++ quoted "ok"
  ++ "}, " ++ quoted "style" ++ ": {" ++ quoted "score" ++ ": 10}, "
  ++ quoted "verdict" ++ ": " ++ quoted "fine" ++ "} Thanks.".

End Examples.

(** * Properties *)

(** ** Dictionaries *)

Section DictFacts.
Context {V : Type}.
Implicit Types (d : Py.dict V) (k : string) (v : V).

Lemma get_set_same k v d : Py.get k (Py.set k v d) = Some v.
Proof.
  induction d as [|[k' v'] d IH]; simpl.
  - now rewrite String.eqb_refl.
  - destruct (String.eqb k k') eqn:E; simpl; rewrite E; auto.
Qed.

Lemma get_set_other k k' v d :
  k <> k' -> Py.get k' (Py.set k v d) = Py.get k' d.
Proof.
  intros Hne. induction d as [|[k0 v0] d IH]; simpl.
  - destruct (String.eqb k' k) eqn:E; auto.
    apply String.eqb_eq in E. congruence.
  - destruct (String.eqb k k0) eqn:E; simpl.
    + apply String.eqb_eq in E. subst k0.
      destruct (String.eqb k' k) eqn:E'; auto.
      apply String.eqb_eq in E'. congruence.
    + now rewrite IH.
Qed.

Lemma get_in_keys k d : In k (Py.keys d) -> exists v, Py.get k d = Some v.
Proof.
  induction d as [|[k' v'] d IH]; simpl; [tauto|].
  intros [->|Hin].
  - rewrite String.eqb_refl. eauto.
  - destruct (String.eqb k k'); eauto.
Qed.

Lemma get_some_in k v d : Py.get k d = Some v -> In k (Py.keys d).
Proof.
  induction d as [|[k' v'] d IH]; simpl; [discriminate|].
  destruct (String.eqb k k') eqn:E.
  - apply String.eqb_eq in E. auto.
  - auto.
Qed.

Lemma keys_set_in k v d : In k (Py.keys d) -> Py.keys (Py.set k v d) = Py.keys d.
Proof.
  induction d as [|[k' v'] d IH]; simpl; [tauto|].
  intros Hin. destruct (String.eqb k k') eqn:E; simpl; auto.
  f_equal. apply IH. destruct Hin as [->|]; auto.
  now rewrite String.eqb_refl in E.
Qed.

Lemma set_fresh k v d : ~ In k (Py.keys d) -> Py.set k v d = (d ++ [(k, v)])%list.
Proof.
  induction d as [|[k' v'] d IH]; simpl; auto.
  intros Hn. destruct (String.eqb k k') eqn:E.
  - apply String.eqb_eq in E. subst. tauto.
  - f_equal. apply IH. tauto.
Qed.

Lemma fold_set_fresh (l : list (string * V)) d :
  NoDup (Py.keys d ++ map fst l) ->
  fold_left (fun d kv => Py.set (fst kv) (snd kv) d) l d = (d ++ l)%list.
Proof.
  revert d. induction l as [|[k v] l IH]; intros d Hnd; simpl.
  - now rewrite app_nil_r.
  - simpl in Hnd. rewrite set_fresh.
    + rewrite IH.
      * now rewrite <- app_assoc.
      * unfold Py.keys in *. rewrite map_app. simpl.
        rewrite <- app_assoc. simpl. exact Hnd.
    + apply NoDup_remove_2 in Hnd. intros Hin. apply Hnd.
      apply in_or_app. now left.
Qed.

(** A list of pairs with distinct keys is the dictionary built from it. *)
Lemma of_list_nodup (l : list (string * V)) :
  NoDup (map fst l) -> Py.of_list l = l.
Proof.
  intros Hnd. unfold Py.of_list. now rewrite fold_set_fresh.
Qed.

Lemma get_map_const {W : Type} (l : list (string * W)) (v : V) k :
  In k (map fst l) -> Py.get k (map (fun kw => (fst kw, v)) l) = Some v.
Proof.
  induction l as [|[k' w] l IH]; simpl; [tauto|].
  intros [->|Hin].
  - now rewrite String.eqb_refl.
  - destruct (String.eqb k k'); auto.
Qed.

End DictFacts.

(** ** The order of the floats *)


(** Two floats that are numbers compare, and compare the other way round
    with the opposite result. *)
Lemma SFcompare_cases (x y : spec_float) :
  x <> S754_nan -> y <> S754_nan ->
  exists c, SFcompare x y = Some c /\ SFcompare y x = Some (CompOpp c).
Proof.
  intros Hx Hy.
  destruct x as [sx|sx| |sx mx ex]; try congruence;
    destruct y as [sy|sy| |sy my ey]; try congruence; cbn [SFcompare];
    try (destruct sx; destruct sy; eexists; split; reflexivity);
    try (destruct sx; eexists; split; reflexivity);
    try (destruct sy; eexists; split; reflexivity).
  change (PosDef.Pos.compare_cont Eq mx my) with (Pos.compare mx my).
  change (PosDef.Pos.compare_cont Eq my mx) with (Pos.compare my mx).
  rewrite (Z.compare_antisym ex ey), (Pos.compare_antisym mx my).
  destruct sx, sy; try (eexists; split; reflexivity);
    destruct (ex ?= ey)%Z; cbn [CompOpp];
    try (eexists; split; reflexivity);
    destruct (mx ?= my)%positive; eexists; split; reflexivity.
Qed.


Lemma not_nan_spec (a : float) : is_nan a = false -> Prim2SF a <> S754_nan.
Proof.
  unfold is_nan. rewrite FloatAxioms.eqb_spec. intros Hn E.
  rewrite E in Hn. discriminate.
Qed.

Lemma float_ltb_compare (a b : float) :
  (a <? b)%float = true <-> SFcompare (Prim2SF a) (Prim2SF b) = Some Lt.
Proof.
  rewrite ltb_spec. unfold SFltb.
  destruct (SFcompare (Prim2SF a) (Prim2SF b)) as [[| |]|]; split;
    congruence.
Qed.

Lemma float_leb_compare (a b : float) :
  (a <=? b)%float = true <->
  exists c, SFcompare (Prim2SF a) (Prim2SF b) = Some c /\ c <> Gt.
Proof.
  rewrite leb_spec. unfold SFleb.
  destruct (SFcompare (Prim2SF a) (Prim2SF b)) as [[| |]|]; split;
    try discriminate; try (intros _; eexists; split; [reflexivity|congruence]);
    intros (c & E & Hc); congruence.
Qed.

(** Of two numbers, the one that is not smaller is greater or equal. *)
Lemma float_not_lt_le (a b : float) :
  is_nan a = false -> is_nan b = false ->
  (a <? b)%float = false -> (b <=? a)%float = true.
Proof.
  intros Ha Hb Hlt.
  destruct (SFcompare_cases _ _ (not_nan_spec a Ha) (not_nan_spec b Hb))
    as (c & Hab & Hba).
  apply float_leb_compare. exists (CompOpp c). split; [exact Hba|].
  destruct c; cbn; try congruence.
  apply float_ltb_compare in Hab. congruence.
Qed.



Lemma float_lt_le (a b : float) :
  (a <? b)%float = true -> (a <=? b)%float = true.
Proof.
  rewrite float_ltb_compare, float_leb_compare. intros H1.
  exists Lt. split; [exact H1|congruence].
Qed.

Lemma float_le_refl (a : float) : is_nan a = false -> (a <=? a)%float = true.
Proof.
  intros Ha. apply float_not_lt_le; auto.
  destruct (a <? a)%float eqn:E; [|reflexivity].
  apply float_ltb_compare in E.
  destruct (SFcompare_cases _ _ (not_nan_spec a Ha) (not_nan_spec a Ha))
    as (c & H1 & H2).
  rewrite H1 in E, H2. destruct c; discriminate.
Qed.


(** ** [max] *)

Section MaxFacts.
Context {A : Type} (key : A -> float).

(** [max] returns an element of the sequence. *)
Lemma max_by_in (l : list A) (x : A) : Py.max_by key l = Some x -> In x l.
Proof.
  destruct l as [|a r]; cbn [Py.max_by]; [discriminate|].
  intros [= <-]. revert a. induction r as [|y r IH]; intros a; cbn [fold_left].
  - now left.
  - unfold Py.max_step at 2. destruct (key a <? key y)%float.
    + right. apply IH.
    + destruct (IH a) as [<-|Hin]; [now left|]. right. now right.
Qed.



Lemma max_by_nonempty (l : list A) : l <> [] -> exists x, Py.max_by key l = Some x.
Proof. destruct l; [congruence|]. simpl. eauto. Qed.

(** The first element wins when no other has a greater key. *)
Lemma max_by_first_unbeaten (x : A) (rest : list A) :
  (forall y, In y rest -> (key x <? key y)%float = false) ->
  Py.max_by key (x :: rest) = Some x.
Proof.
  intros Hrest. cbn [Py.max_by]. f_equal.
  induction rest as [|y rest IH]; [reflexivity|].
  cbn [fold_left]. unfold Py.max_step at 2.
  rewrite (Hrest y (or_introl eq_refl)).
  apply IH. intros z Hz. apply Hrest. now right.
Qed.

Lemma first_argmax_in (l : list A) (x : A) : first_argmax key l x -> In x l.
Proof.
  intros (l1 & l2 & -> & _). apply in_or_app. right. now left.
Qed.

Lemma first_argmax_max (l : list A) (x y : A) :
  first_argmax key l x -> is_nan (key x) = false -> In y l ->
  (key y <=? key x)%float = true.
Proof.
  intros (l1 & l2 & -> & Hlt & Hle) Hx Hy.
  apply in_app_or in Hy as [Hy|[<-|Hy]]; auto.
  - now apply float_lt_le, Hlt.
  - now apply float_le_refl.
Qed.

End MaxFacts.

(** ** The session monad *)

Section MonadFacts.
Context {A B : Type}.

Lemma bind_ok (m : M A) (f : A -> M B) h a es :
  m h = (Ok a, es) ->
  bind m f h = (fst (f a (h ++ es)%list), (es ++ snd (f a (h ++ es)%list))%list).
Proof.
  intros E. unfold bind. rewrite E. now destruct (f a (h ++ es)%list).
Qed.

Lemma bind_raise (m : M A) (f : A -> M B) h e es :
  m h = (Raise e, es) -> bind m f h = (Raise e, es).
Proof. intros E. unfold bind. now rewrite E. Qed.

(** A bind returns only if its first part does. *)
Lemma bind_inv (m : M A) (f : A -> M B) h b es :
  bind m f h = (Ok b, es) ->
  exists a es1 es2,
    m h = (Ok a, es1) /\ f a (h ++ es1)%list = (Ok b, es2)
    /\ es = (es1 ++ es2)%list.
Proof.
  unfold bind. destruct (m h) as [[a|e] es1]; [|discriminate].
  destruct (f a (h ++ es1)%list) as [r es2] eqn:E. intros [= -> <-].
  now exists a, es1, es2.
Qed.

End MonadFacts.

(** A loop whose body always returns: the results are related to the
    elements one by one, and the events are those of the bodies in order. *)
Lemma mapM_total {A B : Type} (f : A -> M B) (R : A -> B -> Prop)
  (sk : A -> list Kind) (l : list A) :
  (forall x h, In x l ->
     exists y es, f x h = (Ok y, es) /\ R x y /\ map kind es = sk x) ->
  forall h, exists ys es,
    mapM f l h = (Ok ys, es) /\ Forall2 R l ys
    /\ map kind es = flat_map sk l.
Proof.
  induction l as [|a l IH]; intros Hf h; simpl.
  - exists [], []. repeat split. constructor.
  - destruct (Hf a h (or_introl eq_refl)) as (y & es & E & HR & Hk).
    destruct (IH (fun x h Hx => Hf x h (or_intror Hx)) (h ++ es)%list)
      as (ys & es' & E' & HF & Hk').
    exists (y :: ys), (es ++ es')%list.
    rewrite (bind_ok _ _ _ _ _ E), (bind_ok _ _ _ _ _ E'). simpl.
    rewrite app_nil_r, map_app, Hk, Hk'. repeat split. now constructor.
Qed.

(** A loop that threads a state: [I done s acc] relates the state to the
    elements already visited and to the events emitted so far. *)
Lemma foldM_inv {A S : Type} (f : S -> A -> M S)
  (I : list A -> S -> list Event -> Prop) (l : list A) :
  (forall done x rest s acc h,
     l = (done ++ x :: rest)%list -> I done s acc ->
     exists s' es, f s x h = (Ok s', es) /\ I (done ++ [x])%list s' (acc ++ es)%list) ->
  forall s0 h, I [] s0 [] ->
  exists s' es, foldM f l s0 h = (Ok s', es) /\ I l s' es.
Proof.
  intros Hstep.
  assert (G : forall rest done s acc h,
             l = (done ++ rest)%list -> I done s acc ->
             exists s' es, foldM f rest s h = (Ok s', es) /\ I l s' (acc ++ es)%list).
  { induction rest as [|x rest IH]; intros done s acc h Hl HI; simpl.
    - exists s, []. rewrite app_nil_r in *. subst. now split.
    - destruct (Hstep done x rest s acc h Hl HI) as (s1 & es1 & E1 & HI1).
      destruct (IH (done ++ [x])%list s1 (acc ++ es1)%list (h ++ es1)%list)
        as (s2 & es2 & E2 & HI2); auto.
      { now rewrite <- app_assoc. }
      exists s2, (es1 ++ es2)%list. rewrite (bind_ok _ _ _ _ _ E1), E2. simpl.
      split; auto. now rewrite app_assoc. }
  intros s0 h H0. exact (G l [] s0 [] h eq_refl H0).
Qed.

Section EmitsOnly.
Context (P : Event -> Prop).

Lemma emits_only_ret {A : Type} (a : A) : emits_only P (ret a).
Proof. intros h. constructor. Qed.

Lemma emits_only_raise {A : Type} (e : exn) : emits_only P (@raise A e).
Proof. intros h. constructor. Qed.

Lemma emits_only_lift {A : Type} (r : result A) : emits_only P (lift r).
Proof. intros h. constructor. Qed.

Lemma emits_only_bind {A B : Type} (m : M A) (f : A -> M B) :
  emits_only P m -> (forall a, emits_only P (f a)) -> emits_only P (bind m f).
Proof.
  intros Hm Hf h. unfold bind. specialize (Hm h).
  destruct (m h) as [[a|e] es]; simpl in *; auto.
  specialize (Hf a (h ++ es)%list).
  destruct (f a (h ++ es)%list) as [r es']. simpl in *.
  apply Forall_app. now split.
Qed.

Lemma emits_only_mapM {A B : Type} (f : A -> M B) (l : list A) :
  (forall x, emits_only P (f x)) -> emits_only P (mapM f l).
Proof.
  intros Hf. induction l as [|x l IH]; simpl.
  - apply emits_only_ret.
  - apply emits_only_bind; auto. intros y.
    apply emits_only_bind; auto. intros ys. apply emits_only_ret.
Qed.

End EmitsOnly.

(** ** The phases of a session *)

Lemma flat_map_fst {A B C : Type} (g : A -> list C) (l : list (A * B)) :
  flat_map (fun x => g (fst x)) l = flat_map g (map fst l).
Proof. induction l; simpl; congruence. Qed.

Lemma Forall2_fst_eq {A B C : Type} (l : list (A * B)) (l' : list (A * C)) :
  Forall2 (fun x y => fst y = fst x) l l' -> map fst l' = map fst l.
Proof. induction 1; simpl; congruence. Qed.

Lemma entries_for_app target es es' :
  entries_for target (es ++ es') =
  (entries_for target es ++ entries_for target es')%list.
Proof.
  unfold entries_for, critique_records.
  now rewrite flat_map_app, filter_app, map_app.
Qed.

Lemma entries_for_critique target op msgs p resp f t x :
  entries_for target [EChat op msgs p resp; ELog (LogCritique f t x)] =
  if String.eqb t target then [(f ++ ": " ++ x)%string] else [].
Proof.
  unfold entries_for, critique_records. cbn [flat_map app filter fst snd].
  now destruct (String.eqb t target).
Qed.

Lemma critique_call `{LLM} spec opponent_answer p h :
  exists msgs resp,
    Agents.critique spec opponent_answer p h =
    (Ok resp, [EChat OpCritique msgs p resp]).
Proof. eexists. eexists. reflexivity. Qed.

Section DebateFacts.
Context `{LLM}.
Variable agents : Debate.Agents.
Hypothesis agents_nodup : NoDup (Py.keys agents).

Let ids : list string := Py.keys agents.

Lemma propose_round_total question constraints p h :
  exists answers es,
    Debate._propose_round agents question constraints p h = (Ok answers, es)
    /\ Py.keys answers = ids
    /\ map kind es = propose_shape ids.
Proof.
  unfold Debate._propose_round.
  destruct (mapM_total
              (fun aa =>
                 ans <- Agents.propose (snd aa) question constraints p ;;
                 log (LogPropose (fst aa) ans) ;; ret (fst aa, ans))
              (fun aa y => fst y = fst aa)
              (fun aa => [KChat OpPropose; KPropose (fst aa)]) agents)
    with (h := h) as (ys & es & E & HF & Hk).
  { intros aa h' _. eexists. eexists. split; [reflexivity|]. now split. }
  exists ys, es. rewrite (bind_ok _ _ _ _ _ E). simpl. rewrite app_nil_r.
  apply Forall2_fst_eq in HF.
  rewrite of_list_nodup by (rewrite HF; exact agents_nodup).
  repeat split; auto.
  rewrite Hk. apply (flat_map_fst (fun a => [KChat OpPropose; KPropose a])).
Qed.

Lemma critique_one_step target target_ans p cr acc aa h :
  critiques_agree ids acc cr -> In target ids ->
  exists cr' es,
    Debate.critique_one target target_ans p cr aa h = (Ok cr', es)
    /\ critiques_agree ids (acc ++ es) cr'
    /\ map kind es = critique_pair target (fst aa).
Proof.
  intros [Hkeys Hget] Hin. unfold Debate.critique_one, critique_pair.
  destruct (String.eqb (fst aa) target) eqn:E.
  - exists cr, []. rewrite app_nil_r. repeat split; auto.
  - destruct (critique_call (snd aa) target_ans p h) as (msgs & resp & Ec).
    rewrite (bind_ok _ _ _ _ _ Ec), (Hget target Hin).
    unfold bind, log, ret. cbn [fst snd app].
    eexists. eexists. split; [reflexivity|]. split; [|reflexivity].
    split.
    + rewrite keys_set_in; auto. now rewrite Hkeys.
    + intros t Ht. rewrite entries_for_app, entries_for_critique.
      destruct (String.eqb target t) eqn:Et.
      * apply String.eqb_eq in Et. subst t. now rewrite get_set_same.
      * rewrite get_set_other by (intros ->; now rewrite String.eqb_refl in Et).
        rewrite (Hget t Ht). now rewrite app_nil_r.
Qed.

Lemma critique_target_total target target_ans p cr acc h :
  critiques_agree ids acc cr -> In target ids ->
  exists cr' es,
    foldM (Debate.critique_one target target_ans p) agents cr h = (Ok cr', es)
    /\ critiques_agree ids (acc ++ es) cr'
    /\ map kind es = flat_map (critique_pair target) ids.
Proof.
  intros Hagree Hin.
  destruct (foldM_inv (Debate.critique_one target target_ans p)
              (fun done cr' es =>
                 critiques_agree ids (acc ++ es) cr'
                 /\ map kind es = flat_map (critique_pair target) (map fst done))
              agents)
    with (s0 := cr) (h := h) as (cr' & es & E & Hag & Hk).
  - intros done aa rest s es0 h' _ [Hag Hk].
    destruct (critique_one_step target target_ans p s (acc ++ es0) aa h' Hag Hin)
      as (s' & es1 & E1 & Hag1 & Hk1).
    exists s', es1. split; auto. split.
    + now rewrite app_assoc.
    + rewrite !map_app, flat_map_app, Hk, Hk1. simpl. now rewrite app_nil_r.
  - rewrite app_nil_r. now split.
  - exists cr', es. auto.
Qed.

Lemma critique_round_total answers p h :
  incl (Py.keys answers) ids ->
  exists cr es,
    Debate._critique_round agents answers p h = (Ok cr, es)
    /\ critiques_agree ids es cr
    /\ map kind es =
       flat_map (fun t => flat_map (critique_pair t) ids) (Py.keys answers).
Proof.
  intros Hincl. unfold Debate._critique_round.
  destruct (foldM_inv
              (fun critiques ta =>
                 foldM (Debate.critique_one (fst ta) (snd ta) p) agents critiques)
              (fun done cr es =>
                 critiques_agree ids es cr
                 /\ map kind es =
                    flat_map (fun t => flat_map (critique_pair t) ids)
                      (map fst done))
              answers)
    with (s0 := Py.of_list (map (fun aa : string * Agents.AgentSpec =>
                                   (fst aa, @nil string)) agents))
         (h := h) as (cr & es & E & Hag & Hk).
  - intros done ta rest s es0 h' Hl [Hag Hk].
    assert (Hin : In (fst ta) ids).
    { apply Hincl. unfold Py.keys. rewrite Hl, map_app. apply in_or_app.
      right. now left. }
    destruct (critique_target_total (fst ta) (snd ta) p s es0 h' Hag Hin)
      as (s' & es1 & E1 & Hag1 & Hk1).
    exists s', es1. split; auto. split; auto.
    rewrite !map_app, flat_map_app, Hk, Hk1. simpl. now rewrite app_nil_r.
  - assert (Hmap : map fst (map (fun aa : string * Agents.AgentSpec =>
                                   (fst aa, @nil string)) agents) = ids).
    { rewrite map_map. reflexivity. }
    rewrite of_list_nodup by (rewrite Hmap; exact agents_nodup).
    split; [|reflexivity]. split; [exact Hmap|].
    intros t Ht. now apply get_map_const.
  - exists cr, es. auto.
Qed.

Lemma defend_round_total answers critiques p h :
  Py.keys answers = ids -> Py.keys critiques = ids ->
  exists answers' es,
    Debate._defend_round agents answers critiques p h = (Ok answers', es)
    /\ Py.keys answers' = ids
    /\ map kind es = defend_shape ids.
Proof.
  intros Ha Hc. unfold Debate._defend_round.
  match goal with
  | |- context [mapM ?f agents] =>
      destruct (mapM_total f (fun aa y => fst y = fst aa)
                  (fun aa => [KChat OpDefend; KDefend (fst aa)]) agents)
        with (h := h) as (ys & es & E & HF & Hk)
  end.
  { intros aa h' Hin.
    assert (Hk : In (fst aa) ids) by (apply in_map; exact Hin).
    destruct (get_in_keys (fst aa) answers) as [own Hown]; [now rewrite Ha|].
    destruct (get_in_keys (fst aa) critiques) as [cs Hcs]; [now rewrite Hc|].
    rewrite Hown, Hcs.
    eexists. eexists. split; [reflexivity|]. now split. }
  exists ys, es. rewrite (bind_ok _ _ _ _ _ E). simpl. rewrite app_nil_r.
  apply Forall2_fst_eq in HF.
  rewrite of_list_nodup by (rewrite HF; exact agents_nodup).
  repeat split; auto.
  rewrite Hk. apply (flat_map_fst (fun a => [KChat OpDefend; KDefend a])).
Qed.

Lemma rounds_loop_total n : forall answers p h,
  Py.keys answers = ids ->
  exists answers' es,
    Debate.rounds_loop agents n answers p h = (Ok answers', es)
    /\ Py.keys answers' = ids
    /\ map kind es = rounds_shape n ids.
Proof.
  induction n as [|n IH]; intros answers p h Ha; simpl.
  - exists answers, []. repeat split; auto.
  - destruct (critique_round_total answers p h) as (cr & es1 & E1 & [Hck _] & Hk1).
    { rewrite Ha. apply incl_refl. }
    destruct (defend_round_total answers cr p (h ++ es1)%list Ha Hck)
      as (a2 & es2 & E2 & Ha2 & Hk2).
    destruct (IH a2 p ((h ++ es1) ++ es2)%list Ha2) as (a3 & es3 & E3 & Ha3 & Hk3).
    exists a3, (es1 ++ es2 ++ es3)%list.
    rewrite (bind_ok _ _ _ _ _ E1), (bind_ok _ _ _ _ _ E2), E3. simpl.
    repeat split; auto.
    rewrite !map_app, Hk1, Hk2, Hk3, Ha. reflexivity.
Qed.

(** Everything before the judge returns, with one answer per agent, and
    its events have the shape of the protocol. *)
Lemma debate_total question constraints rounds p h :
  exists answers es,
    Debate.debate agents question constraints rounds p h = (Ok answers, es)
    /\ Py.keys answers = ids
    /\ map kind es = debate_shape (Z.to_nat rounds) ids.
Proof.
  unfold Debate.debate.
  destruct (propose_round_total question constraints p
              (h ++ [ELog (LogStart question constraints rounds)])%list)
    as (a1 & es1 & E1 & Ha1 & Hk1).
  destruct (rounds_loop_total (Z.to_nat rounds) a1 p
              ((h ++ [ELog (LogStart question constraints rounds)]) ++ es1)%list Ha1)
    as (a2 & es2 & E2 & Ha2 & Hk2).
  exists a2, (ELog (LogStart question constraints rounds) :: es1 ++ es2)%list.
  unfold bind at 1. unfold log at 1.
  rewrite (bind_ok _ _ _ _ _ E1), E2. simpl.
  repeat split; auto.
  unfold debate_shape. now rewrite map_app, Hk1, Hk2.
Qed.

End DebateFacts.

(** ** Counting the calls of a session *)

Lemma count_kind_app op ks ks' :
  count_kind op (ks ++ ks') = (count_kind op ks + count_kind op ks')%nat.
Proof. unfold count_kind. now rewrite filter_app, length_app. Qed.

Lemma calls_app op es es' :
  calls op (es ++ es') = (calls op es + calls op es')%nat.
Proof. unfold calls. now rewrite map_app, count_kind_app. Qed.

Lemma count_kind_flat_map {A : Type} op (g : A -> list Kind) (c : nat) l :
  (forall x, In x l -> count_kind op (g x) = c) ->
  count_kind op (flat_map g l) = (List.length l * c)%nat.
Proof.
  induction l as [|x l IH]; intros Hg; simpl; auto.
  rewrite count_kind_app, (Hg x (or_introl eq_refl)).
  rewrite IH; [reflexivity|].
  intros y Hy. apply Hg. now right.
Qed.

Lemma count_propose_shape op ids :
  count_kind op (propose_shape ids) =
  if Op_eqb op OpPropose then List.length ids else 0%nat.
Proof.
  unfold propose_shape.
  rewrite (count_kind_flat_map op _ (if Op_eqb op OpPropose then 1 else 0)%nat).
  - destruct op; simpl; lia.
  - intros a _. now destruct op.
Qed.

Lemma count_defend_shape op ids :
  count_kind op (defend_shape ids) =
  if Op_eqb op OpDefend then List.length ids else 0%nat.
Proof.
  unfold defend_shape.
  rewrite (count_kind_flat_map op _ (if Op_eqb op OpDefend then 1 else 0)%nat).
  - destruct op; simpl; lia.
  - intros a _. now destruct op.
Qed.

(** Among distinct ids, all but the target itself are critics. *)
Lemma critics_of_target t ids :
  NoDup ids -> In t ids ->
  count_kind OpCritique (flat_map (critique_pair t) ids)
  = (List.length ids - 1)%nat.
Proof.
  intros Hnd Hin.
  assert (Hnot : forall l, ~ In t l ->
            count_kind OpCritique (flat_map (critique_pair t) l) = List.length l).
  { induction l as [|a l IH]; intros Hn; simpl; auto.
    rewrite count_kind_app, IH by (intros Hl; apply Hn; now right).
    unfold critique_pair. destruct (String.eqb a t) eqn:E.
    - apply String.eqb_eq in E. subst. exfalso. apply Hn. now left.
    - reflexivity. }
  induction Hnd as [|a l Hna Hnd IH]; [destruct Hin|].
  simpl. rewrite count_kind_app. unfold critique_pair at 1.
  destruct (String.eqb a t) eqn:E.
  - apply String.eqb_eq in E. subst a. rewrite Hnot by assumption.
    simpl. lia.
  - destruct Hin as [->|Hin]; [now rewrite String.eqb_refl in E|].
    rewrite IH by assumption. destruct l; [destruct Hin|]. simpl. lia.
Qed.

Lemma count_critique_pairs_other op t ids :
  op <> OpCritique -> count_kind op (flat_map (critique_pair t) ids) = 0%nat.
Proof.
  intros Hop. rewrite (count_kind_flat_map op _ 0%nat); [lia|].
  intros a _. unfold critique_pair.
  destruct (String.eqb a t); [reflexivity|]. now destruct op.
Qed.

Lemma count_critique_shape op ids :
  NoDup ids ->
  count_kind op (critique_shape ids) =
  if Op_eqb op OpCritique
  then (List.length ids * (List.length ids - 1))%nat else 0%nat.
Proof.
  intros Hnd. unfold critique_shape. destruct (Op_eqb op OpCritique) eqn:E.
  - destruct op; try discriminate.
    apply count_kind_flat_map. intros t Ht. now apply critics_of_target.
  - rewrite (count_kind_flat_map op _ 0%nat); [lia|].
    intros t _. apply count_critique_pairs_other. intros ->. discriminate.
Qed.

Lemma count_rounds_shape op n ids :
  NoDup ids ->
  count_kind op (rounds_shape n ids) =
  (n * ((if Op_eqb op OpCritique
         then List.length ids * (List.length ids - 1) else 0)
        + (if Op_eqb op OpDefend then List.length ids else 0)))%nat.
Proof.
  intros Hnd. induction n as [|n IH]; simpl; auto.
  rewrite !count_kind_app, IH, count_critique_shape, count_defend_shape by auto.
  lia.
Qed.

Lemma count_debate_shape op n ids :
  NoDup ids ->
  count_kind op (debate_shape n ids) =
  ((if Op_eqb op OpPropose then List.length ids else 0)
   + n * ((if Op_eqb op OpCritique
           then List.length ids * (List.length ids - 1) else 0)
          + (if Op_eqb op OpDefend then List.length ids else 0)))%nat.
Proof.
  intros Hnd. unfold debate_shape.
  change (KStart :: propose_shape ids ++ rounds_shape n ids)%list
    with ([KStart] ++ propose_shape ids ++ rounds_shape n ids)%list.
  rewrite !count_kind_app, count_propose_shape, count_rounds_shape by auto.
  reflexivity.
Qed.

(** ** What the judges and the end of a session add to the trace *)

Lemma calls_closing op es :
  Forall closing_event es -> op <> OpJudge -> calls op es = 0%nat.
Proof.
  intros HF Hop. induction HF as [|e es He _ IH]; auto.
  change (e :: es) with ([e] ++ es)%list. rewrite calls_app, IH.
  unfold calls, count_kind, closing_event in *. simpl.
  destruct (kind e) as [[]| | | | |]; simpl; try tauto; now destruct op.
Qed.

Section JudgeFacts.
Context `{LLM} `{JSONCodec}.

Lemma chat_judge_closing msgs p : emits_only closing_event (chat OpJudge msgs p).
Proof. intros h. unfold chat. simpl. repeat constructor. Qed.

Lemma score_one_closing rubric aid answer :
  emits_only closing_event (GPTJudge._score_one rubric aid answer).
Proof.
  unfold GPTJudge._score_one. apply emits_only_bind.
  - apply chat_judge_closing.
  - intros resp. destruct (GPTJudge.extract resp).
    + apply emits_only_lift.
    + apply emits_only_ret.
Qed.

Lemma gpt_judge_closing rubric answers :
  emits_only closing_event (GPTJudge.judge rubric answers).
Proof.
  unfold GPTJudge.judge. apply emits_only_bind.
  - apply emits_only_mapM. intros kv. apply emits_only_bind.
    + apply score_one_closing.
    + intros j. apply emits_only_ret.
  - intros scored. destruct (Py.max_by _ _).
    + apply emits_only_ret.
    + apply emits_only_raise.
Qed.

Lemma panel_judge_closing rubric n answers :
  emits_only closing_event (PanelJudge.judge rubric n answers).
Proof.
  unfold PanelJudge.judge, PanelJudge.run_members. apply emits_only_bind.
  - apply emits_only_mapM. intros _. apply gpt_judge_closing.
  - intros panels. apply emits_only_bind; [apply emits_only_lift|].
    intros agg. destruct (Py.max_by _ _); [|apply emits_only_raise].
    destruct panels; [apply emits_only_raise|apply emits_only_ret].
Qed.

Lemma rules_judge_silent answers h : snd (RulesJudge.judge answers h) = [].
Proof.
  unfold RulesJudge.judge. now destruct (Py.max_by _ _).
Qed.

Lemma judge_closing j answers : emits_only closing_event (judge j answers).
Proof.
  destruct j; simpl.
  - apply gpt_judge_closing.
  - apply panel_judge_closing.
  - intros h. rewrite rules_judge_silent. constructor.
Qed.

Lemma conclude_closing j answers :
  emits_only closing_event (Debate.conclude j answers).
Proof.
  unfold Debate.conclude. apply emits_only_bind; [apply judge_closing|].
  intros wd. apply emits_only_bind.
  - intros h. unfold log. simpl. repeat constructor.
  - intros _. apply emits_only_ret.
Qed.

(** When [run] returns, its result carries the answers the judge was given
    and their synthesis. *)
Lemma conclude_result j answers h res es :
  Debate.conclude j answers h = (Ok res, es) ->
  Debate.answers res = answers
  /\ Debate.final_synthesis res = Debate._synthesize answers.
Proof.
  unfold Debate.conclude. intros E.
  apply bind_inv in E as (wd & es1 & es2 & _ & E & _).
  apply bind_inv in E as (u & es3 & es4 & _ & E & _).
  unfold ret in E. injection E as <- _. now split.
Qed.

End JudgeFacts.

(** ** C5: the calls of a session *)

(** C5.  In a session of N >= 2 agents (with distinct ids, as the keys of a
    dictionary are) and r rounds, 1 <= r <= 6, whatever the judge and
    whatever the completion capability answers: exactly N propose calls,
    r * N * (N - 1) critique calls and r * N defend calls are issued; the part
    of [run] before the judge returns an answers map with exactly one entry
    per agent, in the order of the agents; [run] continues with the judge on
    that map, and a result it returns holds that map and its synthesis. *)
Theorem debate_call_counts `{LLM} `{JSONCodec} (agents : Debate.Agents)
  (the_judge : Judge) (question : string) (constraints : option string)
  (rounds : Z) (p : Params) (h : Trace) :
  NoDup (Py.keys agents) ->
  (1 <= rounds <= 6)%Z ->
  (2 <= List.length agents)%nat ->
  let N := List.length agents in
  let r := Z.to_nat rounds in
  let session := Debate.run agents the_judge question constraints rounds p h in
  calls OpPropose (snd session) = N
  /\ calls OpCritique (snd session) = (r * N * (N - 1))%nat
  /\ calls OpDefend (snd session) = (r * N)%nat
  /\ exists answers es,
       Debate.debate agents question constraints rounds p h = (Ok answers, es)
       /\ Py.keys answers = Py.keys agents
       /\ List.length answers = N
       /\ session =
          (fst (Debate.conclude the_judge answers (h ++ es)%list),
           (es ++ snd (Debate.conclude the_judge answers (h ++ es)%list))%list)
       /\ forall res, fst session = Ok res ->
            Debate.answers res = answers
            /\ Debate.final_synthesis res = Debate._synthesize answers.
Proof.
  intros Hnd Hr HN N r session.
  assert (Hres : forall answers h' res,
            fst (Debate.conclude the_judge answers h') = Ok res ->
            Debate.answers res = answers
            /\ Debate.final_synthesis res = Debate._synthesize answers).
  { intros answers h' res. 
    destruct (Debate.conclude the_judge answers h') as [r' es'] eqn:Ec.
    simpl. intros ->. eapply conclude_result; eauto. }
  destruct (debate_total agents Hnd question constraints rounds p h)
    as (answers & es & E & Hkeys & Hshape).
  assert (Hrun : session =
                 (fst (Debate.conclude the_judge answers (h ++ es)%list),
                  (es ++ snd (Debate.conclude the_judge answers (h ++ es)%list))%list)).
  { unfold session, Debate.run. now rewrite (bind_ok _ _ _ _ _ E). }
  assert (Hlen : List.length (Py.keys agents) = N)
    by (unfold Py.keys; now rewrite length_map).
  assert (Hcount : forall op, op <> OpJudge ->
            calls op (snd session) =
            count_kind op (debate_shape r (Py.keys agents))).
  { intros op Hop. rewrite Hrun. simpl. rewrite calls_app.
    rewrite (calls_closing op _ (conclude_closing the_judge answers _) Hop).
    unfold calls. rewrite Hshape. fold r. lia. }
  repeat split.
  - rewrite Hcount, count_debate_shape by (auto; discriminate).
    simpl. rewrite Hlen. lia.
  - rewrite Hcount, count_debate_shape by (auto; discriminate).
    simpl. rewrite Hlen. nia.
  - rewrite Hcount, count_debate_shape by (auto; discriminate).
    simpl. rewrite Hlen. nia.
  - exists answers, es. split; [exact E|]. split; [exact Hkeys|].
    split; [|split; [exact Hrun|]].
    + rewrite <- Hlen, <- Hkeys. unfold Py.keys. now rewrite length_map.
    + intros res. rewrite Hrun. simpl. apply Hres.
Qed.

Ltac distinct_keys :=
  unfold Py.keys; simpl; repeat constructor; simpl; intuition discriminate.

Lemma debate_call_counts_witness :
  let session :=
    Debate.run (H := Scripted.llm Examples.script_AB) (H0 := MiniJSON.codec)
      Examples.registry Rules "Which design?" None 1 Examples.params [] in
  NoDup (Py.keys Examples.registry)
  /\ calls OpPropose (snd session) = 2%nat
  /\ calls OpCritique (snd session) = 2%nat
  /\ calls OpDefend (snd session) = 2%nat.
Proof.
  assert (Hnd : NoDup (Py.keys Examples.registry)) by distinct_keys.
  pose proof (debate_call_counts (H := Scripted.llm Examples.script_AB)
                (H0 := MiniJSON.codec) Examples.registry Rules
                "Which design?" None 1 Examples.params [] Hnd
                ltac:(lia) ltac:(simpl; lia)) as W.
  cbv zeta in W. destruct W as (Hp & Hc & Hd & _).
  cbv zeta. repeat split; assumption.
Defined.

(** ** C9: nobody critiques itself *)

Lemma in_critique_shape ids critic target :
  In (KCritique critic target) (critique_shape ids) ->
  critic <> target /\ In critic ids /\ In target ids.
Proof.
  unfold critique_shape. intros Hin.
  apply in_flat_map in Hin as (t & Ht & Hin).
  apply in_flat_map in Hin as (c & Hc & Hin).
  unfold critique_pair in Hin. destruct (String.eqb c t) eqn:E; [destruct Hin|].
  destruct Hin as [Hin|[Hin|[]]]; [discriminate|].
  injection Hin as -> ->. repeat split; auto.
  intros ->. now rewrite String.eqb_refl in E.
Qed.

Lemma in_critique_records critic target text es :
  In (critic, target, text) (critique_records es) <->
  In (ELog (LogCritique critic target text)) es.
Proof.
  unfold critique_records. rewrite in_flat_map. split.
  - intros (e & He & Hin). destruct e as [| []]; simpl in Hin; try tauto.
    destruct Hin as [[= -> -> ->]|[]]. exact He.
  - intros Hin. eexists. split; [exact Hin|]. now left.
Qed.

Lemma in_entries_for entry target es :
  In entry (entries_for target es) ->
  exists critic text,
    entry = (critic ++ ": " ++ text)%string
    /\ In (ELog (LogCritique critic target text)) es.
Proof.
  unfold entries_for. intros Hin.
  apply in_map_iff in Hin as ([[critic t] text] & <- & Hin).
  apply filter_In in Hin as [Hin Ht]. simpl in Ht.
  apply String.eqb_eq in Ht. subst t.
  exists critic, text. split; [reflexivity|]. now apply in_critique_records.
Qed.

Lemma in_rounds_shape n ids critic target :
  In (KCritique critic target) (rounds_shape n ids) ->
  critic <> target /\ In critic ids /\ In target ids.
Proof.
  induction n as [|n IH]; simpl; [tauto|].
  intros Hin. apply in_app_or in Hin as [Hin|Hin].
  - now apply in_critique_shape.
  - apply in_app_or in Hin as [Hin|Hin]; [|auto].
    unfold defend_shape in Hin. apply in_flat_map in Hin as (a & _ & Hin).
    destruct Hin as [Hin|[Hin|[]]]; discriminate.
Qed.

Lemma in_debate_shape n ids critic target :
  In (KCritique critic target) (debate_shape n ids) ->
  critic <> target /\ In critic ids /\ In target ids.
Proof.
  unfold debate_shape. intros [Hin|Hin]; [discriminate|].
  apply in_app_or in Hin as [Hin|Hin]; [|now apply in_rounds_shape in Hin].
  unfold propose_shape in Hin. apply in_flat_map in Hin as (a & _ & Hin).
  destruct Hin as [Hin|[Hin|[]]]; discriminate.
Qed.

(** No critique logged anywhere in a session has its critic as target. *)
Lemma session_critiques_exclude_self `{LLM} `{JSONCodec}
  (agents : Debate.Agents) the_judge question constraints rounds p h
  critic target text :
  NoDup (Py.keys agents) ->
  In (ELog (LogCritique critic target text))
     (snd (Debate.run agents the_judge question constraints rounds p h)) ->
  critic <> target.
Proof.
  intros Hnd Hin.
  destruct (debate_total agents Hnd question constraints rounds p h)
    as (answers & es & E & _ & Hshape).
  unfold Debate.run in Hin. rewrite (bind_ok _ _ _ _ _ E) in Hin.
  cbn [snd] in Hin. apply in_app_or in Hin as [Hin|Hin].
  - apply (in_map kind) in Hin. rewrite Hshape in Hin.
    now apply in_debate_shape in Hin.
  - pose proof (conclude_closing the_judge answers (h ++ es)%list) as Hclosing.
    rewrite Forall_forall in Hclosing. now apply Hclosing in Hin.
Qed.

(** C9.  A critique round over the answers of the agents (distinct ids)
    returns, whatever the completion capability answers.  Its calls and log
    records are, target by target, those of the critics other than the
    target, so no logged critique has its critic as its target; the list
    stored for a target holds exactly the critiques logged for it, in order,
    so each entry was authored by an agent other than the target.  The same
    holds for every critique logged in a whole session. *)
Theorem critique_round_excludes_self `{LLM} `{JSONCodec}
  (agents : Debate.Agents) (answers : Answers) (p : Params) (h : Trace) :
  NoDup (Py.keys agents) ->
  Py.keys answers = Py.keys agents ->
  (exists critiques es,
     Debate._critique_round agents answers p h = (Ok critiques, es)
     /\ map kind es = critique_shape (Py.keys agents)
     /\ (forall critic target text,
           In (ELog (LogCritique critic target text)) es -> critic <> target)
     /\ Py.keys critiques = Py.keys agents
     /\ (forall target, In target (Py.keys agents) ->
           Py.get target critiques = Some (entries_for target es))
     /\ (forall target entries entry,
           Py.get target critiques = Some entries -> In entry entries ->
           exists critic text,
             entry = (critic ++ ": " ++ text)%string
             /\ critic <> target
             /\ In critic (Py.keys agents)
             /\ In (ELog (LogCritique critic target text)) es))
  /\ (forall the_judge question constraints rounds p' h' critic target text,
        In (ELog (LogCritique critic target text))
           (snd (Debate.run agents the_judge question constraints rounds p' h')) ->
        critic <> target).
Proof.
  intros Hnd Hkeys. split;
    [|intros; eapply session_critiques_exclude_self; eauto].
  destruct (critique_round_total agents Hnd answers p h)
    as (cr & es & E & [Hck Hget] & Hshape).
  { rewrite Hkeys. apply incl_refl. }
  rewrite Hkeys in Hshape. fold (critique_shape (Py.keys agents)) in Hshape.
  assert (Hself : forall critic target text,
            In (ELog (LogCritique critic target text)) es ->
            critic <> target /\ In critic (Py.keys agents)).
  { intros critic target text Hin.
    apply (in_map kind) in Hin. simpl in Hin. rewrite Hshape in Hin.
    apply in_critique_shape in Hin. tauto. }
  exists cr, es. split; [exact E|]. split; [exact Hshape|].
  split; [intros c t x Hin; now apply (Hself c t x)|].
  split; [exact Hck|]. split; [exact Hget|].
  intros target entries entry Hg Hin.
  assert (Ht : In target (Py.keys agents)).
  { rewrite <- Hck. eapply get_some_in; eauto. }
  rewrite (Hget target Ht) in Hg. injection Hg as <-.
  apply in_entries_for in Hin as (critic & text & -> & Hlog).
  exists critic, text. destruct (Hself _ _ _ Hlog). auto.
Qed.

Lemma critique_round_excludes_self_witness :
  exists critiques es,
    Debate._critique_round (H := Scripted.llm ["B on A"; "A on B"])
      Examples.registry [("A", "first A"); ("B", "first B")]
      Examples.params [] = (Ok critiques, es)
    /\ Py.get "A" critiques = Some ["B: B on A"]
    /\ Py.get "B" critiques = Some ["A: A on B"].
Proof.
  destruct (critique_round_excludes_self (H := Scripted.llm ["B on A"; "A on B"])
              (H0 := MiniJSON.codec)
              Examples.registry [("A", "first A"); ("B", "first B")]
              Examples.params [] ltac:(distinct_keys) eq_refl)
    as [(critiques & es & E & _ & _ & _ & Hget & _) _].
  exists critiques, es. split; [exact E|].
  vm_compute in E. injection E as <- <-. split; reflexivity.
Defined.

(** ** The single-model judge *)

Lemma mapM_inv {A B : Type} (f : A -> M B) (l : list A) : forall h ys es,
  mapM f l h = (Ok ys, es) ->
  Forall2 (fun x y => exists h' es', f x h' = (Ok y, es')) l ys.
Proof.
  induction l as [|x l IH]; intros h ys es E; simpl in E.
  - injection E as <- _. constructor.
  - apply bind_inv in E as (y & es1 & es2 & E1 & E & _).
    apply bind_inv in E as (ys' & es3 & es4 & E2 & E & _).
    injection E as <- _. constructor; eauto.
Qed.

Section GPTFacts.
Context `{LLM} `{JSONCodec}.

(** [_score_one] issues one call and decides on its response alone. *)
Lemma score_one_unfold rubric aid answer h :
  GPTJudge._score_one rubric aid answer h =
  (match GPTJudge.extract (judge_response rubric aid answer h) with
   | None => Ok GPTJudge.parsing_failed
   | Some data => GPTJudge.score_parsed rubric data
   end,
   [EChat OpJudge (GPTJudge.messages rubric aid answer) GPTJudge.judge_params
      (judge_response rubric aid answer h)]).
Proof.
  unfold GPTJudge._score_one, bind, chat. fold (judge_response rubric aid answer h).
  destruct (GPTJudge.extract (judge_response rubric aid answer h));
    unfold lift, ret; now rewrite app_nil_r.
Qed.

Lemma float_of_int_some n f : Py.float_of_int n = Some f -> f = Py.nearest_float n.
Proof.
  unfold Py.float_of_int. destruct (is_infinity (Py.nearest_float n));
    [discriminate|]. now intros [= <-].
Qed.







End GPTFacts.

(** ** More on dictionaries: lookups after a pass of updates *)

Section DictExt.
Context {V : Type}.

Lemma get_not_in (k : string) (d : Py.dict V) :
  ~ In k (Py.keys d) -> Py.get k d = None.
Proof.
  induction d as [|[k' v] d IH]; simpl; auto.
  intros Hn. destruct (String.eqb k k') eqn:E.
  - apply String.eqb_eq in E. subst. tauto.
  - apply IH. tauto.
Qed.

Lemma get_map_fn {W : Type} (g : string -> V) (l : list (string * W)) k :
  In k (map fst l) ->
  Py.get k (map (fun kw => (fst kw, g (fst kw))) l) = Some (g k).
Proof.
  induction l as [|[k' w] l IH]; simpl; [tauto|].
  intros Hin. destruct (String.eqb k k') eqn:E.
  - apply String.eqb_eq in E. now subst.
  - destruct Hin as [->|Hin]; [now rewrite String.eqb_refl in E|auto].
Qed.

(** Two dictionaries with the same distinct keys in the same order and the
    same value at each key are equal. *)
Lemma dict_ext (a b : Py.dict V) :
  Py.keys a = Py.keys b -> NoDup (Py.keys a) ->
  (forall k, In k (Py.keys a) -> Py.get k a = Py.get k b) -> a = b.
Proof.
  revert b. induction a as [|[k v] a IH]; intros [|[k' v'] b] Hk Hnd Hget;
    simpl in *; try discriminate; auto.
  injection Hk as <- Hk. inversion Hnd as [|? ? Hnotin Hnd']; subst.
  pose proof (Hget k (or_introl eq_refl)) as Hv.
  rewrite String.eqb_refl in Hv. injection Hv as <-.
  f_equal. apply IH; auto.
  intros k0 Hin. specialize (Hget k0 (or_intror Hin)).
  destruct (String.eqb k0 k) eqn:E; auto.
  apply String.eqb_eq in E. subst. tauto.
Qed.

End DictExt.

(** ** The panel judge *)

(** One member's totals added to an aggregate with the same keys. *)
Lemma add_totals_get (d : Details) : forall (agg : Py.dict float),
  NoDup (Py.keys d) -> incl (Py.keys d) (Py.keys agg) ->
  exists agg',
    fold_result PanelJudge.add_total d agg = Ok agg'
    /\ Py.keys agg' = Py.keys agg
    /\ forall k,
         Py.get k agg' =
         match Py.get k d with
         | Some j => option_map (fun x => (x + total j)%float) (Py.get k agg)
         | None => Py.get k agg
         end.
Proof.
  induction d as [|[k j] d IH]; intros agg Hnd Hincl; simpl.
  - exists agg. auto.
  - inversion Hnd as [|? ? Hnotin Hnd']; subst.
    destruct (get_in_keys k agg) as [x Hx]; [apply Hincl; now left|].
    unfold PanelJudge.add_total at 1. simpl. rewrite Hx.
    destruct (IH (Py.set k (x + total j)%float agg) Hnd') as (agg' & E & Hk & Hg).
    { rewrite keys_set_in by (eapply get_some_in; eauto).
      intros y Hy. apply Hincl. now right. }
    exists agg'. split; [exact E|]. split.
    + rewrite Hk. apply keys_set_in. eapply get_some_in; eauto.
    + intros k0. rewrite Hg. destruct (String.eqb k0 k) eqn:E0.
      * apply String.eqb_eq in E0. subst k0.
        rewrite (get_not_in k d Hnotin), get_set_same, Hx. reflexivity.
      * rewrite get_set_other; auto.
        intros ->. now rewrite String.eqb_refl in E0.
Qed.

(** The aggregate after all members: per agent, the members' totals added
    in order. *)
Lemma add_panels_fold (answers : Answers) (panels : list (string * Details)) :
  NoDup (Py.keys answers) ->
  Forall (fun wd => Py.keys (snd wd) = Py.keys answers) panels ->
  forall g : string -> float,
    fold_result PanelJudge.add_panel panels
      (map (fun kv => (fst kv, g (fst kv))) answers) =
    Ok (map (fun kv => (fst kv, fold_left (add_member (fst kv)) panels (g (fst kv))))
          answers).
Proof.
  intros Hnd HF. induction HF as [|wd panels Hwd HF IH]; intros g;
    cbn [fold_result fold_left]; auto.
  assert (Hkeys : Py.keys (map (fun kv : string * string => (fst kv, g (fst kv))) answers)
                  = Py.keys answers).
  { unfold Py.keys. now rewrite map_map. }
  destruct (add_totals_get (snd wd)
              (map (fun kv => (fst kv, g (fst kv))) answers))
    as (agg' & E & Hk & Hg).
  { now rewrite Hwd. }
  { rewrite Hwd, Hkeys. apply incl_refl. }
  unfold PanelJudge.add_panel at 1. unfold Details in *. rewrite E.
  assert (Hagg : agg' = map (fun kv : string * string =>
                               (fst kv, add_member (fst kv) (g (fst kv)) wd)) answers).
  { apply dict_ext.
    - rewrite Hk, Hkeys. unfold Py.keys. now rewrite map_map.
    - now rewrite Hk, Hkeys.
    - intros k Hin. rewrite Hk, Hkeys in Hin.
      rewrite Hg, (get_map_fn g answers k Hin).
      rewrite (get_map_fn (fun a => add_member a (g a) wd) answers k Hin).
      unfold add_member, Details. now destruct (Py.get k (snd wd)). }
  rewrite Hagg. apply (IH (fun a => add_member a (g a) wd)).
Qed.

Lemma max_by_all_zero (l : Py.dict float) first rest :
  l = first :: rest -> (forall kv, In kv l -> snd kv = 0%float) ->
  Py.max_by snd l = Some first.
Proof.
  intros -> Hz. apply max_by_first_unbeaten. intros y Hy.
  rewrite (Hz first (or_introl eq_refl)), (Hz y (or_intror Hy)).
  reflexivity.
Qed.

Lemma mapM_inv_shape {A B : Type} (f : A -> M B) (sk : A -> list Kind)
  (l : list A) :
  (forall x h y es, f x h = (Ok y, es) -> map kind es = sk x) ->
  forall h ys es, mapM f l h = (Ok ys, es) -> map kind es = flat_map sk l.
Proof.
  intros Hf. induction l as [|x l IH]; intros h ys es E; simpl in E.
  - now injection E as _ <-.
  - apply bind_inv in E as (y & es1 & es2 & E1 & E & ->).
    apply bind_inv in E as (ys' & es3 & es4 & E2 & E & ->).
    injection E as _ <-. simpl.
    rewrite !map_app, (Hf _ _ _ _ E1), (IH _ _ _ E2). simpl.
    now rewrite app_nil_r.
Qed.

Lemma mapM_length {A B : Type} (f : A -> M B) (l : list A) h ys es :
  mapM f l h = (Ok ys, es) -> List.length ys = List.length l.
Proof.
  intros E. apply mapM_inv in E. induction E; simpl; auto.
Qed.

Lemma max_by_in_keys {V : Type} (key : string * V -> float)
  (d : Py.dict V) w v :
  Py.max_by key d = Some (w, v) -> In w (Py.keys d).
Proof.
  intros Hmax. apply max_by_in in Hmax. now apply (in_map fst) in Hmax.
Qed.

Section WinnerFacts.
Context `{LLM} `{JSONCodec}.

(** The heuristic judge returns for every non-empty answers map. *)
Lemma rules_judge_total (answers : Answers) h :
  answers <> [] -> NoDup (Py.keys answers) ->
  exists w jw,
    RulesJudge.judge answers h =
    (Ok (w, map (fun kv => (fst kv, RulesJudge.heuristic (RulesJudge._score (snd kv))))
              answers), [])
    /\ Py.max_by by_total
         (map (fun kv => (fst kv, RulesJudge.heuristic (RulesJudge._score (snd kv))))
            answers) = Some (w, jw).
Proof.
  intros Hne Hnd. unfold RulesJudge.judge.
  set (g := fun kv : string * string =>
              (fst kv, RulesJudge.heuristic (RulesJudge._score (snd kv)))).
  assert (Hfold : forall l d,
            fold_left (fun details kv =>
                         Py.set (fst kv)
                           (RulesJudge.heuristic (RulesJudge._score (snd kv)))
                           details) l d
            = fold_left (fun d kv => Py.set (fst kv) (snd kv) d) (map g l) d).
  { induction l as [|x l IH]; intros d; simpl; auto. }
  rewrite Hfold. fold (Py.of_list (map g answers)).
  rewrite of_list_nodup by (rewrite map_map; exact Hnd).
  destruct (max_by_nonempty by_total (map g answers)) as [[w jw] Hmax].
  { destruct answers; [congruence|discriminate]. }
  pose proof Hmax as Hmax'. unfold by_total in Hmax at 1. rewrite Hmax.
  exists w, jw. split; [reflexivity|exact Hmax'].
Qed.

(** What a single-model judge returns, when it returns. *)
Lemma gpt_judge_inv rubric (answers : Answers) h w d es :
  NoDup (Py.keys answers) ->
  GPTJudge.judge rubric answers h = (Ok (w, d), es) ->
  Py.keys d = Py.keys answers
  /\ (exists jw, Py.max_by by_total d = Some (w, jw))
  /\ map kind es = flat_map (fun _ => [KChat OpJudge]) answers.
Proof.
  intros Hnd E. unfold GPTJudge.judge in E.
  apply bind_inv in E as (scored & es1 & es2 & E1 & E & ->).
  assert (Hstep : forall (x : string * string) h' y es',
            (j <- GPTJudge._score_one rubric (fst x) (snd x) ;; ret (fst x, j)) h'
            = (Ok y, es') ->
            fst y = fst x /\ map kind es' = [KChat OpJudge]).
  { intros x h' y es' Ex.
    apply bind_inv in Ex as (j & e1 & e2 & Ej & Er & ->).
    injection Er as <- <-. rewrite score_one_unfold in Ej.
    injection Ej as _ <-. now split. }
  assert (Hkeys : map fst scored = Py.keys answers).
  { apply mapM_inv in E1. apply Forall2_fst_eq.
    eapply Forall2_impl; [|exact E1]. simpl.
    intros x y (h' & es' & Ex). now apply Hstep in Ex. }
  assert (Hshape : map kind es1 = flat_map (fun _ => [KChat OpJudge]) answers).
  { eapply mapM_inv_shape; [|exact E1]. simpl.
    intros x h' y es' Ex. now apply Hstep in Ex. }
  rewrite of_list_nodup in E by (rewrite Hkeys; exact Hnd).
  destruct (Py.max_by (fun kv => total (snd kv)) scored) as [[w' jw]|] eqn:Hmax;
    [|discriminate].
  injection E as <- <- <-. rewrite app_nil_r.
  split; [exact Hkeys|]. split; [|exact Hshape].
  exists jw. exact Hmax.
Qed.

(** What the members of a panel return, when they all return. *)
Lemma run_members_inv rubric n (answers : Answers) h panels es :
  NoDup (Py.keys answers) ->
  PanelJudge.run_members rubric n answers h = (Ok panels, es) ->
  List.length panels = Z.to_nat n
  /\ Forall (fun wd => exists h' es',
               GPTJudge.judge rubric answers h' = (Ok wd, es')) panels
  /\ Forall (fun wd => Py.keys (snd wd) = Py.keys answers) panels
  /\ calls OpJudge es = (Z.to_nat n * List.length answers)%nat.
Proof.
  intros Hnd E. unfold PanelJudge.run_members in E.
  pose proof (mapM_length _ _ _ _ _ E) as Hlen. rewrite length_seq in Hlen.
  pose proof (mapM_inv _ _ _ _ _ E) as Hall.
  assert (Hmem : Forall (fun wd => exists h' es',
                           GPTJudge.judge rubric answers h' = (Ok wd, es')) panels).
  { clear -Hall. induction Hall; constructor; auto. }
  split; [exact Hlen|]. split; [exact Hmem|]. split.
  - eapply Forall_impl; [|exact Hmem]. simpl.
    intros [w d] (h' & es' & Ej). now apply gpt_judge_inv in Ej.
  - unfold calls.
    assert (Hshape : map kind es =
                     flat_map (fun _ : nat => flat_map (fun _ => [KChat OpJudge]) answers)
                       (seq 0 (Z.to_nat n))).
    { eapply mapM_inv_shape; [|exact E]. simpl.
      intros x h' [w d] es' Ej. now apply gpt_judge_inv in Ej. }
    rewrite Hshape.
    rewrite (count_kind_flat_map OpJudge _ (List.length answers)).
    + now rewrite length_seq.
    + intros _ _. rewrite (count_kind_flat_map OpJudge _ 1%nat); [lia|].
      reflexivity.
Qed.

(** The panel judge, given what its members returned. *)
Lemma panel_judge_from_members rubric n (answers : Answers) h panels es :
  NoDup (Py.keys answers) ->
  PanelJudge.run_members rubric n answers h = (Ok panels, es) ->
  fst (PanelJudge.judge rubric n answers h) =
  match Py.max_by snd (summed_totals panels answers) with
  | None => Raise ValueError
  | Some kv =>
      match panels with
      | [] => Raise IndexError
      | first :: _ => Ok (fst kv, snd first)
      end
  end
  /\ snd (PanelJudge.judge rubric n answers h) = es.
Proof.
  intros Hnd E.
  destruct (run_members_inv rubric n answers h panels es Hnd E)
    as (_ & _ & Hkeys & _).
  unfold PanelJudge.judge. rewrite (bind_ok _ _ _ _ _ E).
  unfold PanelJudge.zero_agg.
  rewrite of_list_nodup by (rewrite map_map; exact Hnd).
  rewrite (add_panels_fold answers panels Hnd Hkeys (fun _ => 0%float)).
  unfold bind, lift. cbn [fst snd app].
  change (map (fun kv : string * string =>
                 (fst kv, fold_left (add_member (fst kv)) panels 0%float)) answers)
    with (summed_totals panels answers).
  destruct (Py.max_by snd (summed_totals panels answers)) as [kv|].
  - destruct panels; simpl; now rewrite app_nil_r.
  - simpl. now rewrite app_nil_r.
Qed.

End WinnerFacts.

(** ** C6: the winner *)




(** With at least one member, all returning, the panel returns the first
    member's details and what [max] finds among the summed totals. *)
Lemma panel_returns_first_details `{LLM} `{JSONCodec}
  (rubric : Rubrics.Rubric) (n : Z) (answers : Answers) (h : Trace)
  (panels : list (string * Details)) (es : list Event) :
  (1 <= n)%Z -> answers <> [] -> NoDup (Py.keys answers) ->
  PanelJudge.run_members rubric n answers h = (Ok panels, es) ->
  exists first rest w t,
    panels = first :: rest
    /\ PanelJudge.judge rubric n answers h = (Ok (w, snd first), es)
    /\ Py.max_by snd (summed_totals panels answers) = Some (w, t).
Proof.
  intros Hn Hne Hnd E.
  destruct (run_members_inv rubric n answers h panels es Hnd E) as (Hlen & _).
  destruct panels as [|first rest]; [simpl in Hlen; lia|].
  destruct (panel_judge_from_members rubric n answers h (first :: rest) es Hnd E)
    as [Hfst Hsnd].
  destruct (max_by_nonempty snd (summed_totals (first :: rest) answers))
    as [[w t] Hmax].
  { destruct answers; [congruence|discriminate]. }
  rewrite Hmax in Hfst.
  exists first, rest, w, t. split; [reflexivity|]. split.
  - destruct (PanelJudge.judge rubric n answers h). simpl in *. congruence.
  - exact Hmax.
Qed.

(** ** C4 and C10: the panel judge *)




(** The empty answers map with a panel of no member: [max] raises over the
    empty aggregate, so no winner is computed and the access to the first
    member's result is never reached. *)
Lemma panel_judge_empty_map_counterexample :
  fst (PanelJudge.judge (H := Scripted.llm []) (H0 := MiniJSON.codec)
         Rubrics.DEFAULT_RUBRIC 0 [] []) = Raise ValueError
  /\ fst (PanelJudge.judge (H := Scripted.llm []) (H0 := MiniJSON.codec)
            Rubrics.DEFAULT_RUBRIC 0 [] []) <> Raise IndexError
  /\ Py.max_by snd (PanelJudge.zero_agg []) = None.
Proof.
  split; [reflexivity|]. split; [discriminate|reflexivity].
Qed.

(** C10, amended.  For every non-empty answers map (distinct agent ids):
    a panel of no member issues no call, the winner over the all-zero
    aggregate is the first agent, and the access to the first member's result
    raises [IndexError]; with n >= 1 members that all return, the first
    member's result is there and its details are returned. *)
Theorem panel_judge_needs_a_member `{LLM} `{JSONCodec}
  (rubric : Rubrics.Rubric) (answers : Answers) (h : Trace) :
  answers <> [] ->
  NoDup (Py.keys answers) ->
  (PanelJudge.judge rubric 0 answers h = (Raise IndexError, [])
   /\ exists first rest,
        answers = first :: rest
        /\ Py.max_by snd (PanelJudge.zero_agg answers)
           = Some (fst first, 0%float))
  /\ forall n panels es,
       (1 <= n)%Z ->
       PanelJudge.run_members rubric n answers h = (Ok panels, es) ->
       exists first rest w,
         panels = first :: rest
         /\ PanelJudge.judge rubric n answers h = (Ok (w, snd first), es).
Proof.
  intros Hne Hnd. split.
  - destruct answers as [|first rest]; [congruence|].
    assert (Hzero : Py.max_by snd (PanelJudge.zero_agg (first :: rest))
                    = Some (fst first, 0%float)).
    { unfold PanelJudge.zero_agg.
      rewrite of_list_nodup by (rewrite map_map; exact Hnd).
      eapply max_by_all_zero; [reflexivity|].
      intros kv Hin. apply in_map_iff in Hin as (x & <- & _). reflexivity. }
    split; [|eauto].
    unfold PanelJudge.judge, PanelJudge.run_members, bind, lift.
    cbn [Z.to_nat seq mapM fold_result app]. unfold ret at 1.
    cbn [fold_result app]. now rewrite Hzero.
  - intros n panels es Hn E.
    destruct (panel_returns_first_details rubric n answers h panels es
                Hn Hne Hnd E) as (first & rest & w & t & -> & Hj & _).
    eauto.
Qed.

Lemma panel_judge_needs_a_member_witness :
  PanelJudge.judge (H := Scripted.llm []) (H0 := MiniJSON.codec)
    Rubrics.DEFAULT_RUBRIC 0 Examples.answers_AB [] = (Raise IndexError, [])
  /\ Py.max_by snd (PanelJudge.zero_agg Examples.answers_AB)
     = Some ("A", 0%float).
Proof.
  destruct (panel_judge_needs_a_member (H := Scripted.llm [])
              (H0 := MiniJSON.codec) Rubrics.DEFAULT_RUBRIC Examples.answers_AB []
              ltac:(discriminate) ltac:(distinct_keys))
    as [[E (first & rest & Hans & Hmax)] _].
  split; [exact E|]. injection Hans as <- _. exact Hmax.
Defined.

(** ** C7 and C3: one judgement of the single-model judge *)



(** The part of the parse-failure rule the code keeps: a response without
    a parseable object gives the zero judgement and raises nothing. *)
Lemma score_one_parse_failure `{LLM} `{JSONCodec} rubric aid answer h :
  GPTJudge.extract (judge_response rubric aid answer h) = None ->
  fst (GPTJudge._score_one rubric aid answer h) = Ok GPTJudge.parsing_failed
  /\ total GPTJudge.parsing_failed = 0%float
  /\ verdict GPTJudge.parsing_failed = JStr "Parsing failed".
Proof.
  intros Hparse. rewrite score_one_unfold, Hparse. now repeat split.
Qed.

(** An entry that is not an object makes the loop raise: the exception
    leaves [_score_one]. *)
Lemma score_one_entry_not_object `{LLM} `{JSONCodec} rubric aid answer h
  m crit weight rest v :
  GPTJudge.extract (judge_response rubric aid answer h) = Some (JObj m) ->
  Rubrics.criteria rubric = (crit, weight) :: rest ->
  Py.get crit m = Some v ->
  (forall info, v <> JObj info) ->
  fst (GPTJudge._score_one rubric aid answer h) = Raise AttributeError.
Proof.
  intros Hparse Hcrit Hget Hv. rewrite score_one_unfold, Hparse. simpl.
  unfold GPTJudge.score_parsed. rewrite Hcrit. simpl. rewrite Hget.
  destruct v; try reflexivity. now destruct (Hv m0).
Qed.

(** A score that is an integer beyond the range of the floats makes
    [float] raise, after the [try] block: the exception leaves
    [_score_one]. *)
Lemma score_one_score_overflow `{LLM} `{JSONCodec} rubric aid answer h
  m crit weight rest info n :
  GPTJudge.extract (judge_response rubric aid answer h) = Some (JObj m) ->
  Rubrics.criteria rubric = (crit, weight) :: rest ->
  Py.get crit m = Some (JObj info) ->
  Py.get "score" info = Some (JInt n) ->
  Py.float_of_int n = None ->
  fst (GPTJudge._score_one rubric aid answer h) = Raise OverflowError.
Proof.
  intros Hparse Hcrit Hget Hscore Hover.
  rewrite score_one_unfold, Hparse. cbn [fst].
  unfold GPTJudge.score_parsed. rewrite Hcrit. cbn [fold_result].
  unfold GPTJudge.score_step, GPTJudge.json_get.
  rewrite Hget, Hscore. cbn [GPTJudge.py_float]. now rewrite Hover.
Qed.

(** The response that gives 10^400 as the score for soundness. *)
Lemma score_one_huge_integer_raises :
  MiniJSON.loads
    (Examples.single_reply "soundness" (Examples.power_of_ten 400))
  = Some (JObj [("soundness", JObj [("score", JInt (10 ^ 400))])])
  /\ Py.float_of_int (10 ^ 400) = None
  /\ fst (GPTJudge._score_one
            (H := Scripted.llm
                    [Examples.single_reply "soundness"
                       (Examples.power_of_ten 400)])
            (H0 := MiniJSON.codec) Rubrics.DEFAULT_RUBRIC "A" "an answer" [])
     = Raise OverflowError.
Proof. split; [|split]; vm_compute; reflexivity. Qed.

(** The totals are rounded as the floats are: 0.1 times 3 lies above 0.3
    times 1, so that the second agent wins with the score 0.1 for soundness
    against the score 0.3 for safety. *)
Lemma judge_rounds_the_totals :
  exists jA jB es,
    judge (H := Scripted.llm [Examples.single_reply "safety" "0.3";
                              Examples.single_reply "soundness" "0.1"])
      (H0 := MiniJSON.codec) (GPT Rubrics.DEFAULT_RUBRIC)
      Examples.answers_AB []
    = (Ok ("B", [("A", jA); ("B", jB)]), es)
    /\ total jA = (3 / 10)%float
    /\ total jB = (1 / 10 * 3)%float
    /\ (total jA <? total jB)%float = true.
Proof.
  destruct (judge (H := Scripted.llm [Examples.single_reply "safety" "0.3";
                                      Examples.single_reply "soundness" "0.1"])
              (H0 := MiniJSON.codec) (GPT Rubrics.DEFAULT_RUBRIC)
              Examples.answers_AB []) as [r es] eqn:E.
  vm_compute in E. injection E as <- <-.
  eexists. eexists. eexists. split; [reflexivity|].
  split; [reflexivity|]. split; reflexivity.
Qed.

(** C3, at the failing input: the response [{"soundness": 5}] parses, and
    [_score_one] raises [AttributeError] instead of returning a judgement. *)
Theorem score_one_bare_number_raises :
  MiniJSON.loads Examples.bare_number_reply = Some (JObj [("soundness", JInt 5)])
  /\ fst (GPTJudge._score_one (H := Scripted.llm [Examples.bare_number_reply])
            (H0 := MiniJSON.codec) Rubrics.DEFAULT_RUBRIC "A" "an answer" [])
     = Raise AttributeError.
Proof. split; vm_compute; reflexivity. Qed.

(** ** C2: the question is not validated by the session *)

(** The UI entry point turns a blank question away before anything runs. *)
Lemma run_debate_rejects_blank `{LLM} `{JSONCodec} reg question agents rounds
  judge_type temperature max_tokens api_key h :
  Py.strip question = EmptyString ->
  StreamlitUI.run_debate reg question agents rounds judge_type temperature
    max_tokens api_key h
  = (Ok (StreamlitUI.Rejected "Please enter a question for the debate."), []).
Proof.
  intros Hblank. unfold StreamlitUI.run_debate. now rewrite Hblank.
Qed.

(** C2, at the failing input: with the empty question the command-line
    entry point runs the whole session, two propose calls included, and
    returns a result; the UI entry point rejects the same question without a
    call. *)
Theorem empty_question_reaches_agents :
  let session :=
    Cli.run (H := Scripted.llm Examples.script_AB) (H0 := MiniJSON.codec)
      Examples.registry EmptyString "A,B" [] 1 "rules" Examples.params None [] in
  (exists res, fst session = Ok res /\ Debate.winner_id res = "A")
  /\ calls OpPropose (snd session) = 2%nat
  /\ StreamlitUI.run_debate (H := Scripted.llm Examples.script_AB)
       (H0 := MiniJSON.codec) Examples.registry EmptyString "A,B" 1 "rules"
       (1 # 5) 800 "key" []
     = (Ok (StreamlitUI.Rejected "Please enter a question for the debate."), []).
Proof.
  cbv zeta. split; [|split].
  - eexists. split; vm_compute; reflexivity.
  - vm_compute. reflexivity.
  - apply run_debate_rejects_blank. reflexivity.
Qed.

(** ** C1: the heuristic score *)

Lemma prefix_cons_inv a p c s :
  String.prefix (String a p) (String c s) = true ->
  a = c /\ String.prefix p s = true.
Proof. simpl. destruct (ascii_dec a c); [auto|discriminate]. Qed.

Lemma prefix_cons_empty a p : String.prefix (String a p) EmptyString = false.
Proof. reflexivity. Qed.

(** The pattern cannot overlap itself, so Python's count is the number of
    places where it begins. *)
Lemma count_bullet_occurrences : forall n s,
  (String.length s <= n)%nat ->
  Py.count_from 0 bullet s = occurrences bullet s.
Proof.
  induction n as [|n IH]; intros s Hlen.
  - destruct s; [reflexivity|simpl in Hlen; lia].
  - destruct s as [|c s]; [reflexivity|].
    cbn [Py.count_from occurrences].
    destruct (String.prefix bullet (String c s)) eqn:E.
    + apply prefix_cons_inv in E as [<- E].
      destruct s as [|c1 s]; [discriminate|].
      apply prefix_cons_inv in E as [<- E].
      destruct s as [|c2 s]; [discriminate|].
      apply prefix_cons_inv in E as [<- _].
      simpl in Hlen. simpl. f_equal. apply IH. lia.
    + simpl in Hlen. rewrite IH by lia. reflexivity.
Qed.

Lemma split_nonempty c s : exists h t, Py.split c s = h :: t.
Proof.
  induction s as [|x s (h & t & IH)]; simpl; eauto.
  destruct (Ascii.eqb x c); eauto. rewrite IH. eauto.
Qed.

Lemma split_cons_other c x s :
  Ascii.eqb x c = false ->
  Py.split c (String x s)
  = String x (hd EmptyString (Py.split c s)) :: tl (Py.split c s).
Proof.
  intros E. simpl. rewrite E.
  destruct (split_nonempty c s) as (h & t & ->). reflexivity.
Qed.

Lemma prefix_cons a p c s :
  String.prefix (String a p) (String c s) = Ascii.eqb a c && String.prefix p s.
Proof.
  simpl. destruct (ascii_dec a c) as [->|Hne].
  - now rewrite Ascii.eqb_refl.
  - apply Ascii.eqb_neq in Hne. now rewrite Hne.
Qed.

Lemma prefix_empty s : String.prefix EmptyString s = true.
Proof. now destruct s. Qed.

Lemma first_line_newline s : first_line (String "010" s) = EmptyString.
Proof. reflexivity. Qed.

Lemma first_line_other c s :
  Ascii.eqb c "010" = false ->
  first_line (String c s) = String c (first_line s).
Proof.
  intros E. unfold first_line. now rewrite split_cons_other.
Qed.

(** A text without a newline begins a text exactly when it begins its first
    line. *)
Lemma prefix_first_line q : forall s,
  Py.contains Py.nl q = false ->
  String.prefix q (first_line s) = String.prefix q s.
Proof.
  induction q as [|a q IH]; intros s Hq.
  - now rewrite !prefix_empty.
  - cbn [Py.contains] in Hq. apply orb_false_iff in Hq as [Ha Hq].
    unfold Py.nl in Ha. rewrite prefix_cons, prefix_empty, andb_true_r in Ha.
    destruct s as [|c s]; [reflexivity|].
    destruct (Ascii.eqb c "010") eqn:Ec.
    + apply Ascii.eqb_eq in Ec. subst c.
      rewrite first_line_newline, prefix_cons, Ascii.eqb_sym, Ha. reflexivity.
    + rewrite first_line_other by exact Ec.
      rewrite !prefix_cons. now rewrite IH.
Qed.

(** The lines that begin with a bullet are the places where a newline is
    followed by one, and the first line when the text begins with one. *)
Lemma bullet_lines_occurrences : forall s,
  bullet_lines s
  = (occurrences bullet s + (if String.prefix "- " s then 1 else 0))%nat.
Proof.
  assert (Hsplit : forall s,
            bullet_lines s
            = ((if String.prefix "- " (first_line s) then 1 else 0)
               + List.length (filter (String.prefix "- ") (tl (Py.split "010" s))))%nat).
  { intros s. unfold bullet_lines, first_line.
    destruct (split_nonempty "010" s) as (h & t & ->). cbn [filter hd tl].
    now destruct (String.prefix "- " h). }
  assert (Hq : Py.contains Py.nl "- " = false) by reflexivity.
  induction s as [|c s IH]; [reflexivity|].
  cbn [occurrences]. unfold bullet at 1. unfold Py.nl at 1.
  cbn [append]. rewrite prefix_cons.
  rewrite Hsplit, (prefix_first_line "- " (String c s) Hq).
  rewrite Hsplit, (prefix_first_line "- " s Hq) in IH.
  destruct (Ascii.eqb c "010") eqn:Ec.
  - apply Ascii.eqb_eq in Ec. subst c.
    rewrite (prefix_cons "-" " " "010" s).
    cbn [Py.split Ascii.eqb Bool.eqb tl andb].
    fold (bullet_lines s). rewrite Hsplit, (prefix_first_line "- " s Hq).
    lia.
  - rewrite Ascii.eqb_sym, Ec. cbn [andb].
    rewrite split_cons_other by exact Ec. cbn [tl]. lia.
Qed.

(** What [str.count] returns for the bullet pattern. *)
Lemma count_bullet (text : string) :
  Py.count bullet text = occurrences bullet text.
Proof. apply (count_bullet_occurrences (String.length text)). lia. Qed.

(** The heuristic score follows the wording of the specification but for
    the first line: a bullet there is not counted. *)
Lemma score_misses_first_line (text : string) :
  RulesJudge._score text
  = spec_score_of
      (bullet_lines text - (if String.prefix "- " text then 1 else 0)) text.
Proof.
  unfold RulesJudge._score, spec_score_of.
  fold bullet. rewrite (count_bullet text), bullet_lines_occurrences.
  replace (occurrences bullet text + (if String.prefix "- " text then 1 else 0)
           - (if String.prefix "- " text then 1 else 0))%nat
    with (occurrences bullet text) by lia.
  reflexivity.
Qed.

(** C1, at the failing input: the first answer of the scenario has two
    lines that begin with a bullet, of which [count] sees one, so it scores
    5.0 where the specification computes 6.0; the second answer scores 0.0
    and the first agent wins.  For every text the score is the one the
    specification words for a text with one line that begins with a bullet
    fewer when the text itself begins with a bullet, and for the text as it
    is otherwise. *)
Theorem heuristic_score_of_the_scenario :
  bullet_lines Examples.answer_A = 2%nat
  /\ Py.count (Py.nl ++ "- ") Examples.answer_A = 1%nat
  /\ spec_score Examples.answer_A = 6%float
  /\ RulesJudge._score Examples.answer_A = 5%float
  /\ RulesJudge._score Examples.answer_A <> 6%float
  /\ RulesJudge._score Examples.answer_B = 0%float
  /\ (exists d, RulesJudge.judge Examples.answers_AB [] = (Ok ("A", d), []))
  /\ forall text,
       RulesJudge._score text
       = spec_score_of
           (bullet_lines text - (if String.prefix "- " text then 1 else 0))
           text.
Proof.
  split; [vm_compute; reflexivity|]. split; [vm_compute; reflexivity|].
  split; [vm_compute; reflexivity|]. split; [vm_compute; reflexivity|].
  split.
  { intros Heq.
    assert (Hb : (RulesJudge._score Examples.answer_A =? 6)%float = true)
      by (rewrite Heq; reflexivity).
    vm_compute in Hb. discriminate. }
  split; [vm_compute; reflexivity|].
  split; [eexists; vm_compute; reflexivity|].
  exact score_misses_first_line.
Qed.

(** ** C8: the synthesis *)

Lemma heading_inj a b : heading a = heading b -> a = b.
Proof. unfold heading. simpl. now intros [= ->]. Qed.

Lemma count_occ_nodup (l : list string) (x : string) :
  NoDup l -> In x l -> count_occ string_dec l x = 1%nat.
Proof.
  intros Hnd Hin. apply NoDup_count_occ with (decA := string_dec) (x := x) in Hnd.
  apply (count_occ_In string_dec) in Hin. lia.
Qed.

(** The lines of two texts joined by a newline are the lines of the one
    followed by the lines of the other. *)
Lemma split_app_newline c a b :
  Py.split c (a ++ String c b) = (Py.split c a ++ Py.split c b)%list.
Proof.
  induction a as [|x a IH]; cbn [append Py.split].
  - now rewrite Ascii.eqb_refl.
  - rewrite IH. destruct (Ascii.eqb x c); [reflexivity|].
    destruct (split_nonempty c a) as (h & t & ->). reflexivity.
Qed.

Lemma split_no_newline s :
  Py.contains Py.nl s = false -> Py.split "010" s = [s].
Proof.
  induction s as [|x s IH]; [reflexivity|].
  cbn [Py.contains]. intros Hc. apply orb_false_iff in Hc as [Hx Hc].
  unfold Py.nl in Hx. rewrite prefix_cons, prefix_empty, andb_true_r in Hx.
  cbn [Py.split]. rewrite Ascii.eqb_sym, Hx, (IH Hc). reflexivity.
Qed.

Lemma contains_newline_heading aid :
  Py.contains Py.nl aid = false -> Py.contains Py.nl (heading aid) = false.
Proof.
  intros Hc. unfold heading. cbn [append Py.contains].
  unfold Py.nl at 1 2 3 4. rewrite !prefix_cons. cbn [Ascii.eqb Bool.eqb andb orb].
  exact Hc.
Qed.

(** The lines of a block: the heading, the lines of the answer, and the
    empty line after its last newline. *)
Lemma block_lines aid text :
  Py.contains Py.nl aid = false ->
  Py.split "010" (block aid text)
  = (heading aid :: Py.split "010" text ++ [EmptyString])%list.
Proof.
  intros Hc. unfold block, Py.nl.
  change (heading aid ++ String "010" EmptyString ++ text ++ String "010" EmptyString)%string
    with (heading aid ++ String "010" (text ++ String "010" EmptyString))%string.
  rewrite !split_app_newline, (split_no_newline _ (contains_newline_heading aid Hc)).
  reflexivity.
Qed.

Lemma synthesize_cons aid text kv rest :
  Debate._synthesize ((aid, text) :: kv :: rest)
  = (block aid text ++ String "010" (Debate._synthesize (kv :: rest)))%string.
Proof. reflexivity. Qed.

Lemma synthesize_single aid text :
  Debate._synthesize [(aid, text)] = block aid text.
Proof. reflexivity. Qed.

Lemma count_occ_block_lines aid a text :
  count_occ string_dec
    (heading a :: Py.split "010" text ++ [EmptyString])%list (heading aid)
  = ((if String.eqb a aid then 1 else 0) + heading_lines aid text)%nat.
Proof.
  cbn [count_occ]. rewrite count_occ_app. cbn [count_occ].
  destruct (string_dec EmptyString (heading aid)) as [E|_]; [discriminate|].
  unfold heading_lines.
  destruct (string_dec (heading a) (heading aid)) as [E|Hne].
  - apply heading_inj in E. subst. rewrite String.eqb_refl. lia.
  - destruct (String.eqb a aid) eqn:E.
    + apply String.eqb_eq in E. subst. congruence.
    + lia.
Qed.

(** The lines of the synthesis that are the heading of [aid]: one per entry
    of that agent, and those the answers themselves hold. *)
Lemma synthesis_heading_lines aid : forall answers : Answers,
  Forall (fun kv => Py.contains Py.nl (fst kv) = false) answers ->
  heading_lines aid (Debate._synthesize answers)
  = (count_occ string_dec (Py.keys answers) aid
     + list_sum (map (fun kv => heading_lines aid (snd kv)) answers))%nat.
Proof.
  induction answers as [|[a text] answers IH]; intros Hids; [reflexivity|].
  inversion Hids as [|? ? Ha Hrest]; subst. cbn [fst] in Ha.
  assert (Hhead : (if string_dec a aid then 1 else 0)%nat
                  = (if String.eqb a aid then 1 else 0)%nat).
  { destruct (string_dec a aid) as [->|Hne].
    - now rewrite String.eqb_refl.
    - apply String.eqb_neq in Hne. now rewrite Hne. }
  assert (Hcount : count_occ string_dec (Py.keys ((a, text) :: answers)) aid
                   = ((if String.eqb a aid then 1 else 0)
                      + count_occ string_dec (Py.keys answers) aid)%nat).
  { cbn [Py.keys map fst count_occ]. rewrite <- Hhead.
    destruct (string_dec a aid); reflexivity. }
  rewrite Hcount. cbn [map list_sum fold_right snd].
  destruct answers as [|kv rest].
  - rewrite synthesize_single. unfold heading_lines at 1.
    rewrite (block_lines a text Ha), count_occ_block_lines. simpl. lia.
  - rewrite synthesize_cons. unfold heading_lines at 1.
    rewrite split_app_newline, count_occ_app, (block_lines a text Ha).
    rewrite count_occ_block_lines.
    fold (heading_lines aid (Debate._synthesize (kv :: rest))).
    rewrite (IH Hrest). cbn [map list_sum fold_right snd]. lia.
Qed.

(** An answer that quotes the other agent's heading: that heading is then
    a line of the synthesis twice. *)
Lemma synthesis_heading_twice_counterexample :
  Debate._synthesize [("A", "### B" ++ Py.nl ++ "I disagree."); ("B", "My view.")]
  = ("### A" ++ Py.nl ++ "### B" ++ Py.nl ++ "I disagree." ++ Py.nl ++ Py.nl
     ++ "### B" ++ Py.nl ++ "My view." ++ Py.nl)%string
  /\ heading_lines "B"
       (Debate._synthesize
          [("A", "### B" ++ Py.nl ++ "I disagree."); ("B", "My view.")])
     = 2%nat.
Proof. split; reflexivity. Qed.

(** C8, amended.  The synthesis is the blocks of the answers map joined by
    a newline, one block per entry and in the order of the map (not sorted):
    the block at position i is the heading of the i-th agent, a newline, its
    answer and a newline.  With the ids of a dictionary (distinct) that hold
    no newline, the lines of the synthesis that are an agent's heading are the
    one of its block and those the answers themselves hold; so the heading
    is a line of the synthesis exactly once when no answer holds such a
    line. *)
Theorem synthesize_one_block_per_agent (answers : Answers) :
  NoDup (Py.keys answers) ->
  Forall (fun kv => Py.contains Py.nl (fst kv) = false) answers ->
  let parts := map (fun kv => block (fst kv) (snd kv)) answers in
  Debate._synthesize answers = Py.join Py.nl parts
  /\ List.length parts = List.length answers
  /\ (forall i aid text,
        nth_error answers i = Some (aid, text) ->
        nth_error parts i
        = Some ("### " ++ aid ++ Py.nl ++ text ++ Py.nl)%string)
  /\ (forall aid, In aid (Py.keys answers) ->
        heading_lines aid (Debate._synthesize answers)
        = (1 + list_sum (map (fun kv => heading_lines aid (snd kv)) answers))%nat)
  /\ (forall aid, In aid (Py.keys answers) ->
        (forall kv, In kv answers -> heading_lines aid (snd kv) = 0%nat) ->
        heading_lines aid (Debate._synthesize answers) = 1%nat).
Proof.
  intros Hnd Hids parts.
  assert (Hlines : forall aid, In aid (Py.keys answers) ->
            heading_lines aid (Debate._synthesize answers)
            = (1 + list_sum (map (fun kv => heading_lines aid (snd kv)) answers))%nat).
  { intros aid Hin. rewrite (synthesis_heading_lines aid answers Hids).
    now rewrite (count_occ_nodup _ _ Hnd Hin). }
  split; [reflexivity|]. split; [apply length_map|]. split; [|split].
  - intros i aid text Hnth. unfold parts. now rewrite nth_error_map, Hnth.
  - exact Hlines.
  - intros aid Hin Hclean. rewrite (Hlines aid Hin).
    assert (Hzero : list_sum (map (fun kv => heading_lines aid (snd kv)) answers)
                    = 0%nat).
    { clear -Hclean. induction answers as [|kv l IH]; [reflexivity|].
      cbn [map list_sum fold_right].
      rewrite (Hclean kv (or_introl eq_refl)). cbn [Nat.add].
      apply IH.
      intros kv' Hin. apply Hclean. now right. }
    rewrite Hzero. reflexivity.
Qed.

Lemma synthesize_one_block_per_agent_witness :
  Debate._synthesize [("B", "second"); ("A", "first")]
  = ("### B" ++ Py.nl ++ "second" ++ Py.nl ++ Py.nl
     ++ "### A" ++ Py.nl ++ "first" ++ Py.nl)%string
  /\ heading_lines "A" (Debate._synthesize [("B", "second"); ("A", "first")])
     = 1%nat.
Proof.
  destruct (synthesize_one_block_per_agent [("B", "second"); ("A", "first")]
              ltac:(distinct_keys) ltac:(repeat constructor))
    as (Hs & _ & _ & _ & Hc).
  split; [rewrite Hs; reflexivity|].
  apply (Hc "A").
  - simpl. auto.
  - intros kv [<-|[<-|[]]]; reflexivity.
Defined.

(** * Further properties of the code *)

(** ** The shape of a whole session *)

Section JudgeCalls.
Context `{LLM} `{JSONCodec}.

Lemma score_one_judge_calls rubric aid answer :
  emits_only judge_call (GPTJudge._score_one rubric aid answer).
Proof.
  intros h. rewrite score_one_unfold. repeat constructor.
Qed.

Lemma gpt_judge_judge_calls rubric answers :
  emits_only judge_call (GPTJudge.judge rubric answers).
Proof.
  unfold GPTJudge.judge. apply emits_only_bind.
  - apply emits_only_mapM. intros kv. apply emits_only_bind.
    + apply score_one_judge_calls.
    + intros j. apply emits_only_ret.
  - intros scored. destruct (Py.max_by _ _).
    + apply emits_only_ret.
    + apply emits_only_raise.
Qed.

Lemma judge_judge_calls j answers : emits_only judge_call (judge j answers).
Proof.
  destruct j as [rubric|rubric n|]; simpl.
  - apply gpt_judge_judge_calls.
  - unfold PanelJudge.judge, PanelJudge.run_members. apply emits_only_bind.
    + apply emits_only_mapM. intros _. apply gpt_judge_judge_calls.
    + intros panels. apply emits_only_bind; [apply emits_only_lift|].
      intros agg. destruct (Py.max_by _ _); [|apply emits_only_raise].
      destruct panels; [apply emits_only_raise|apply emits_only_ret].
  - intros h. rewrite rules_judge_silent. constructor.
Qed.

(** What a judge returns, when it returns: a winner among the agents of
    the answers map, and details for exactly those agents. *)
Lemma judge_returns_member j (answers : Answers) h w d es :
  NoDup (Py.keys answers) ->
  judge j answers h = (Ok (w, d), es) ->
  In w (Py.keys answers) /\ Py.keys d = Py.keys answers.
Proof.
  intros Hnd E. destruct j as [rubric|rubric n|]; simpl in E.
  - destruct (gpt_judge_inv rubric answers h w d es Hnd E) as (Hk & [jw Hf] & _).
    split; [|exact Hk]. rewrite <- Hk. eapply max_by_in_keys; eauto.
  - pose proof E as E'. unfold PanelJudge.judge in E'.
    apply bind_inv in E' as (panels & es1 & es2 & Em & _ & _).
    destruct (panel_judge_from_members rubric n answers h panels es1 Hnd Em)
      as [Hfst _].
    destruct (run_members_inv rubric n answers h panels es1 Hnd Em)
      as (_ & _ & Hkeys & _).
    rewrite E in Hfst. cbn [fst] in Hfst.
    destruct (Py.max_by snd (summed_totals panels answers)) as [[w' t]|] eqn:Hmax;
      [|discriminate].
    destruct panels as [|first rest]; [discriminate|].
    injection Hfst as -> ->. split.
    + pose proof (max_by_in_keys _ _ _ _ Hmax) as Hin.
      unfold summed_totals, Py.keys in Hin. rewrite map_map in Hin. exact Hin.
    + now inversion Hkeys.
  - assert (Hne : answers <> []) by (intros ->; discriminate).
    destruct (rules_judge_total answers h Hne Hnd) as (w' & jw & E' & Hf).
    rewrite E' in E. injection E as <- <- <-. split.
    + pose proof (max_by_in_keys _ _ _ _ Hf) as Hin.
      unfold Py.keys in Hin. rewrite map_map in Hin. exact Hin.
    + unfold Py.keys. now rewrite map_map.
Qed.

End JudgeCalls.

Lemma judge_calls_shape es :
  Forall judge_call es -> map kind es = repeat (KChat OpJudge) (List.length es).
Proof.
  induction 1 as [|e es He _ IH]; simpl; [reflexivity|].
  now rewrite He, IH.
Qed.

(** The closing part of [run], by what the judge does. *)
Lemma conclude_unfold `{LLM} `{JSONCodec} j answers h :
  Debate.conclude j answers h =
  match judge j answers h with
  | (Ok wd, ej) =>
      (Ok (Debate.mkDebateResult (fst wd) (Debate._synthesize answers) answers
             (Py.of_list (snd wd))),
       (ej ++ [ELog (LogEnd (fst wd))])%list)
  | (Raise e, ej) => (Raise e, ej)
  end.
Proof.
  unfold Debate.conclude, bind at 1.
  destruct (judge j answers h) as [[wd|e] ej]; [|reflexivity].
  unfold bind, log, ret. cbn. reflexivity.
Qed.

(** A session runs through start, proposals and the rounds whatever the
    capability answers; only the judge can make it fail.  Its events are those
    of the protocol in order, then the calls of the judge, then the end record
    naming the winner the result holds; when the judge raises, its exception
    is the session's and no end record is written.  The judge's own calls are
    never logged. *)
Theorem session_shape `{LLM} `{JSONCodec} (agents : Debate.Agents)
  (the_judge : Judge) (question : string) (constraints : option string)
  (rounds : Z) (p : Params) (h : Trace) :
  NoDup (Py.keys agents) ->
  exists answers es_debate es_judge,
    Debate.debate agents question constraints rounds p h = (Ok answers, es_debate)
    /\ map kind es_debate = debate_shape (Z.to_nat rounds) (Py.keys agents)
    /\ snd (judge the_judge answers (h ++ es_debate)%list) = es_judge
    /\ map kind es_judge = repeat (KChat OpJudge) (List.length es_judge)
    /\ match Debate.run agents the_judge question constraints rounds p h with
       | (Ok res, es) =>
           es = (es_debate ++ es_judge
                 ++ [ELog (LogEnd (Debate.winner_id res))])%list
           /\ exists d,
                fst (judge the_judge answers (h ++ es_debate)%list)
                = Ok (Debate.winner_id res, d)
       | (Raise e, es) =>
           es = (es_debate ++ es_judge)%list
           /\ fst (judge the_judge answers (h ++ es_debate)%list) = Raise e
       end.
Proof.
  intros Hnd.
  destruct (debate_total agents Hnd question constraints rounds p h)
    as (answers & es & E & _ & Hshape).
  exists answers, es, (snd (judge the_judge answers (h ++ es)%list)).
  split; [exact E|]. split; [exact Hshape|]. split; [reflexivity|].
  split; [apply judge_calls_shape, judge_judge_calls|].
  unfold Debate.run. rewrite (bind_ok _ _ _ _ _ E), conclude_unfold.
  destruct (judge the_judge answers (h ++ es)%list) as [[[w d]|e] ej]; cbn.
  - split; [reflexivity|eauto].
  - now split.
Qed.

Lemma session_shape_witness :
  exists res,
    Debate.run (H := Scripted.llm Examples.script_AB) (H0 := MiniJSON.codec)
      Examples.registry Rules "Which design?" None 1 Examples.params []
    = (Ok res,
       snd (Debate.debate (H := Scripted.llm Examples.script_AB)
              Examples.registry "Which design?" None 1 Examples.params [])
       ++ [ELog (LogEnd (Debate.winner_id res))])%list.
Proof.
  destruct (session_shape (H := Scripted.llm Examples.script_AB)
              (H0 := MiniJSON.codec) Examples.registry Rules "Which design?"
              None 1 Examples.params [] ltac:(distinct_keys))
    as (answers & es & ej & E & _ & Hj & _ & Hrun).
  destruct (Debate.run (H := Scripted.llm Examples.script_AB)
              (H0 := MiniJSON.codec) Examples.registry Rules "Which design?"
              None 1 Examples.params []) as [[res|e] es'] eqn:Er;
    [|vm_compute in Er; discriminate].
  exists res. destruct Hrun as [-> _]. rewrite E. cbn [snd].
  simpl in Hj. rewrite rules_judge_silent in Hj. subst ej. reflexivity.
Defined.

(** A result a session returns is consistent: the winner is one of the
    agents, the answers and the judge's details are keyed by exactly the
    agents, in their order, and the synthesis is that of the answers. *)
Theorem session_result_consistent `{LLM} `{JSONCodec} (agents : Debate.Agents)
  (the_judge : Judge) (question : string) (constraints : option string)
  (rounds : Z) (p : Params) (h : Trace) (res : Debate.DebateResult)
  (es : list Event) :
  NoDup (Py.keys agents) ->
  Debate.run agents the_judge question constraints rounds p h = (Ok res, es) ->
  In (Debate.winner_id res) (Py.keys agents)
  /\ Py.keys (Debate.answers res) = Py.keys agents
  /\ Py.keys (Debate.judge_details res) = Py.keys agents
  /\ Debate.final_synthesis res = Debate._synthesize (Debate.answers res)
  /\ agents <> [].
Proof.
  intros Hnd Erun.
  destruct (debate_total agents Hnd question constraints rounds p h)
    as (answers & es1 & E & Hkeys & _).
  unfold Debate.run in Erun.
  rewrite (bind_ok _ _ _ _ _ E), conclude_unfold in Erun.
  destruct (judge the_judge answers (h ++ es1)%list) as [[[w d]|e] ej] eqn:Ej;
    [|discriminate].
  injection Erun as <- _.
  cbn [Debate.winner_id Debate.answers Debate.judge_details
       Debate.final_synthesis fst snd].
  assert (Hnd' : NoDup (Py.keys answers)) by now rewrite Hkeys.
  destruct (judge_returns_member the_judge answers _ w d ej Hnd' Ej) as [Hw Hd].
  rewrite Hkeys in Hw, Hd.
  split; [exact Hw|]. split; [exact Hkeys|]. split; [|split; [reflexivity|]].
  - rewrite of_list_nodup; [exact Hd|]. unfold Py.keys in Hd. now rewrite Hd.
  - intros ->. destruct Hw.
Qed.

Lemma session_result_consistent_witness :
  exists res es,
    Debate.run (H := Scripted.llm Examples.script_AB) (H0 := MiniJSON.codec)
      Examples.registry Rules "Which design?" None 1 Examples.params []
    = (Ok res, es)
    /\ In (Debate.winner_id res) ["A"; "B"]
    /\ Py.keys (Debate.judge_details res) = ["A"; "B"].
Proof.
  destruct (Debate.run (H := Scripted.llm Examples.script_AB)
              (H0 := MiniJSON.codec) Examples.registry Rules "Which design?"
              None 1 Examples.params []) as [[res|e] es] eqn:Er;
    [|vm_compute in Er; discriminate].
  destruct (session_result_consistent (H := Scripted.llm Examples.script_AB)
              (H0 := MiniJSON.codec) Examples.registry Rules "Which design?"
              None 1 Examples.params [] res es ltac:(distinct_keys) Er)
    as (Hw & _ & Hd & _).
  exists res, es. split; [reflexivity|]. split; assumption.
Defined.

(** ** The log is a faithful transcript *)

Lemma transcribed_app : forall a b,
  transcribed a -> transcribed b -> transcribed (a ++ b).
Proof.
  assert (G : forall n a b, (List.length a <= n)%nat ->
                transcribed a -> transcribed b -> transcribed (a ++ b)).
  { induction n as [|n IH]; intros a b Hlen Ha Hb.
    - destruct a; [exact Hb|simpl in Hlen; lia].
    - destruct a as [|[op msgs p resp|r] [|[|r'] rest]]; simpl in Ha |- *;
        try tauto.
      destruct Ha as [Hr Ha]. split; [exact Hr|].
      apply IH; auto. simpl in Hlen. lia. }
  intros a b. apply (G (List.length a)). lia.
Qed.

Lemma logged_texts_app es es' :
  logged_texts (es ++ es') = (logged_texts es ++ logged_texts es')%list.
Proof. unfold logged_texts. apply flat_map_app. Qed.

(** What a loop that returned emitted, from what each body emitted. *)
Lemma mapM_inv_rel {A B : Type} (f : A -> M B)
  (G : list B -> list Event -> Prop) :
  G [] [] ->
  (forall y ys e1 e2, G [y] e1 -> G ys e2 -> G (y :: ys) (e1 ++ e2)%list) ->
  (forall x h y es, f x h = (Ok y, es) -> G [y] es) ->
  forall l h ys es, mapM f l h = (Ok ys, es) -> G ys es.
Proof.
  intros Hnil Hcons Hf. induction l as [|x l IH]; intros h ys es E; simpl in E.
  - now injection E as <- <-.
  - apply bind_inv in E as (y & es1 & es2 & E1 & E & ->).
    apply bind_inv in E as (ys' & es3 & es4 & E2 & E & ->).
    injection E as <- <-. rewrite app_nil_r. eauto.
Qed.

Lemma foldM_inv_events {A S : Type} (f : S -> A -> M S)
  (Q : list Event -> Prop) :
  Q [] ->
  (forall e1 e2, Q e1 -> Q e2 -> Q (e1 ++ e2)%list) ->
  (forall s x h s' es, f s x h = (Ok s', es) -> Q es) ->
  forall l s h s' es, foldM f l s h = (Ok s', es) -> Q es.
Proof.
  intros Hnil Happ Hf. induction l as [|x l IH]; intros s h s' es E; simpl in E.
  - now injection E as _ <-.
  - apply bind_inv in E as (s1 & es1 & es2 & E1 & E2 & ->). eauto.
Qed.

Lemma transcript_of_cons y ys e1 e2 :
  transcript_of [y] e1 -> transcript_of ys e2 ->
  transcript_of (y :: ys) (e1 ++ e2).
Proof.
  intros [Ht1 Hl1] [Ht2 Hl2]. split.
  - now apply transcribed_app.
  - now rewrite logged_texts_app, Hl1, Hl2.
Qed.

Section Transcript.
Context `{LLM}.
Variable agents : Debate.Agents.
Hypothesis agents_nodup : NoDup (Py.keys agents).

Lemma propose_round_transcript question constraints p h answers es :
  Debate._propose_round agents question constraints p h = (Ok answers, es) ->
  transcript_of answers es.
Proof.
  intros E.
  destruct (propose_round_total agents agents_nodup question constraints p h)
    as (answers' & es' & E' & Hkeys & _).
  rewrite E in E'. injection E' as <- <-.
  unfold Debate._propose_round in E.
  apply bind_inv in E as (ys & es1 & es2 & E1 & E2 & ->).
  injection E2 as E2 <-. rewrite app_nil_r.
  assert (Hys : answers = ys).
  { rewrite <- E2. apply of_list_nodup.
    apply mapM_inv in E1.
    assert (Hfst : map fst ys = map fst agents).
    { apply Forall2_fst_eq. eapply Forall2_impl; [|exact E1].
      intros x y (h' & es' & Ex). cbn in Ex. now injection Ex as <- _. }
    rewrite Hfst. exact agents_nodup. }
  rewrite Hys.
  eapply (mapM_inv_rel _ transcript_of); [| |  |exact E1].
  - now split.
  - apply transcript_of_cons.
  - intros x h' y es' Ex. cbn in Ex. injection Ex as <- <-. now split.
Qed.

Lemma defend_round_transcript answers critiques p h answers' es :
  Debate._defend_round agents answers critiques p h = (Ok answers', es) ->
  transcript_of answers' es.
Proof.
  intros E. unfold Debate._defend_round in E.
  apply bind_inv in E as (ys & es1 & es2 & E1 & E2 & ->).
  injection E2 as E2 <-. rewrite app_nil_r.
  assert (Hstep : forall (aa : string * Agents.AgentSpec) h' y es',
            match Py.get (fst aa) answers with
            | None => raise (KeyError (fst aa))
            | Some own =>
                match Py.get (fst aa) critiques with
                | None => raise (KeyError (fst aa))
                | Some cs =>
                    rev <- Agents.defend (snd aa) own cs p ;;
                    log (LogDefend (fst aa) rev) ;; ret (fst aa, rev)
                end
            end h' = (Ok y, es') ->
            fst y = fst aa /\ transcript_of [y] es').
  { intros aa h' y es' Ex.
    destruct (Py.get (fst aa) answers); [|discriminate].
    destruct (Py.get (fst aa) critiques); [|discriminate].
    cbn in Ex. injection Ex as <- <-. repeat split. }
  assert (Hys : answers' = ys).
  { rewrite <- E2. apply of_list_nodup.
    pose proof (mapM_inv _ _ _ _ _ E1) as Hall.
    assert (Hfst : map fst ys = map fst agents).
    { apply Forall2_fst_eq. eapply Forall2_impl; [|exact Hall].
      intros x y (h' & es' & Ex). now apply Hstep in Ex. }
    rewrite Hfst. exact agents_nodup. }
  rewrite Hys.
  eapply (mapM_inv_rel _ transcript_of); [| |  |exact E1].
  - now split.
  - apply transcript_of_cons.
  - intros x h' y es' Ex. now apply Hstep in Ex.
Qed.

Lemma critique_round_transcript answers p h cr es :
  Debate._critique_round agents answers p h = (Ok cr, es) ->
  transcript_of [] es.
Proof.
  unfold Debate._critique_round.
  apply (foldM_inv_events _ (transcript_of [])).
  - now split.
  - intros e1 e2 [Ht1 Hl1] [Ht2 Hl2]. split.
    + now apply transcribed_app.
    + now rewrite logged_texts_app, Hl1, Hl2.
  - intros s ta h' s' es'.
    apply (foldM_inv_events _ (transcript_of [])).
    + now split.
    + intros e1 e2 [Ht1 Hl1] [Ht2 Hl2]. split.
      * now apply transcribed_app.
      * now rewrite logged_texts_app, Hl1, Hl2.
    + intros s0 aa h0 s1 es0. unfold Debate.critique_one.
      destruct (String.eqb (fst aa) (fst ta)).
      * intros [= _ <-]. now split.
      * destruct (critique_call (snd aa) (snd ta) p h0) as (msgs & resp & Ec).
        rewrite (bind_ok _ _ _ _ _ Ec).
        destruct (Py.get (fst ta) s0); [|discriminate].
        cbn. intros [= _ <-]. now repeat split.
Qed.

Lemma rounds_loop_transcript n : forall answers p h answers' es,
  Debate.rounds_loop agents n answers p h = (Ok answers', es) ->
  transcribed es
  /\ ((n = 0%nat /\ answers' = answers /\ es = [])
      \/ exists earlier, logged_texts es = (earlier ++ answers')%list).
Proof.
  induction n as [|n IH]; intros answers p h answers' es E; simpl in E.
  - injection E as <- <-. split; [exact I|]. now left.
  - apply bind_inv in E as (cr & es1 & es2 & E1 & E & ->).
    apply bind_inv in E as (a2 & es3 & es4 & E2 & E3 & ->).
    apply critique_round_transcript in E1 as [Ht1 Hl1].
    apply defend_round_transcript in E2 as [Ht2 Hl2].
    apply IH in E3 as [Ht3 Hlast]. split.
    + now repeat apply transcribed_app.
    + right. rewrite !logged_texts_app, Hl1, Hl2. cbn [app].
      destruct Hlast as [(_ & -> & ->)|[earlier ->]].
      * exists []. now rewrite app_nil_r.
      * exists (a2 ++ earlier)%list. now rewrite app_assoc.
Qed.

End Transcript.

(** Before the judge is called, the log is a faithful transcript of the
    session: after the start record, every completion of an agent is followed
    at once by the record of that very text and nothing else is logged, and
    the answers handed to the judge are the texts logged last, one per agent
    in the order of the agents. *)
Theorem debate_log_is_transcript `{LLM} (agents : Debate.Agents)
  (question : string) (constraints : option string) (rounds : Z)
  (p : Params) (h : Trace) :
  NoDup (Py.keys agents) ->
  exists answers es earlier,
    Debate.debate agents question constraints rounds p h
    = (Ok answers, ELog (LogStart question constraints rounds) :: es)
    /\ transcribed es
    /\ logged_texts es = (earlier ++ answers)%list
    /\ Py.keys answers = Py.keys agents.
Proof.
  intros Hnd.
  destruct (debate_total agents Hnd question constraints rounds p h)
    as (answers & es & E & Hkeys & _).
  pose proof E as E'. unfold Debate.debate in E'.
  apply bind_inv in E' as ([] & es0 & es1 & E0 & E' & ->).
  injection E0 as <-.
  apply bind_inv in E' as (a1 & es2 & es3 & E1 & E2 & ->).
  apply (propose_round_transcript agents Hnd) in E1 as [Ht1 Hl1].
  apply (rounds_loop_transcript agents Hnd) in E2 as [Ht2 Hlast].
  assert (Hex : exists earlier,
            logged_texts (es2 ++ es3) = (earlier ++ answers)%list).
  { rewrite logged_texts_app, Hl1.
    destruct Hlast as [(_ & -> & ->)|[earlier ->]].
    - exists []. now rewrite app_nil_r.
    - exists (a1 ++ earlier)%list. now rewrite app_assoc. }
  destruct Hex as [earlier Hex].
  exists answers, (es2 ++ es3)%list, earlier.
  split; [exact E|]. split; [now apply transcribed_app|]. now split.
Qed.

Lemma debate_log_is_transcript_witness :
  exists es earlier,
    Debate.debate (H := Scripted.llm Examples.script_AB) Examples.registry
      "Which design?" None 1 Examples.params []
    = (Ok Examples.answers_AB, ELog (LogStart "Which design?" None 1) :: es)
    /\ transcribed es
    /\ logged_texts es = (earlier ++ Examples.answers_AB)%list.
Proof.
  destruct (debate_log_is_transcript (H := Scripted.llm Examples.script_AB)
              Examples.registry "Which design?" None 1 Examples.params []
              ltac:(distinct_keys))
    as (answers & es & earlier & E & Ht & Hl & _).
  assert (Ha : answers = Examples.answers_AB).
  { vm_compute in E. now injection E as <- _. }
  subst answers. exists es, earlier. auto.
Defined.

(** ** Who critiques whom *)

Lemma records_kind_pairs es :
  map fst (critique_records es) = kind_pairs (map kind es).
Proof.
  induction es as [|[op msgs p resp|[]] es IH]; simpl; auto.
  now rewrite IH.
Qed.

Lemma kind_pairs_app ks ks' :
  kind_pairs (ks ++ ks') = (kind_pairs ks ++ kind_pairs ks')%list.
Proof. unfold kind_pairs. apply flat_map_app. Qed.

Lemma kind_pairs_target t ids :
  kind_pairs (flat_map (critique_pair t) ids)
  = map (fun c => (c, t)) (critics_of t ids).
Proof.
  induction ids as [|c ids IH]; [reflexivity|].
  cbn [flat_map]. rewrite kind_pairs_app, IH. unfold critique_pair, critics_of.
  cbn [filter]. now destruct (String.eqb c t).
Qed.

Lemma filter_flat_map {A B : Type} (P : B -> bool) (g : A -> list B) l :
  filter P (flat_map g l) = flat_map (fun x => filter P (g x)) l.
Proof.
  induction l as [|x l IH]; [reflexivity|].
  cbn [flat_map]. now rewrite filter_app, IH.
Qed.

Lemma map_filter_comm {A B : Type} (g : A -> B) (P : B -> bool) l :
  map g (filter (fun x => P (g x)) l) = filter P (map g l).
Proof.
  induction l as [|x l IH]; [reflexivity|].
  cbn [filter map]. destruct (P (g x)); cbn [map]; now rewrite IH.
Qed.

Lemma flat_map_only {B : Type} (x : string) (g : string -> list B) l :
  NoDup l -> In x l ->
  flat_map (fun t => if String.eqb t x then g t else []) l = g x.
Proof.
  intros Hnd Hin.
  assert (Hnot : forall l', ~ In x l' ->
            flat_map (fun t => if String.eqb t x then g t else []) l' = []).
  { induction l' as [|t l' IH]; intros Hn; [reflexivity|].
    cbn [flat_map]. rewrite IH by (intros Hl; apply Hn; now right).
    destruct (String.eqb t x) eqn:E; [|reflexivity].
    apply String.eqb_eq in E. subst. exfalso. apply Hn. now left. }
  induction Hnd as [|t l Hnt Hnd IH]; [destruct Hin|].
  cbn [flat_map]. destruct (String.eqb t x) eqn:E.
  - apply String.eqb_eq in E. subst t. rewrite Hnot by assumption.
    apply app_nil_r.
  - destruct Hin as [->|Hin]; [now rewrite String.eqb_refl in E|].
    now rewrite IH.
Qed.

Lemma critics_of_length target ids :
  NoDup ids -> In target ids ->
  List.length (critics_of target ids) = (List.length ids - 1)%nat.
Proof.
  intros Hnd Hin. unfold critics_of.
  assert (Hnot : forall l, ~ In target l ->
            filter (fun c => negb (String.eqb c target)) l = l).
  { induction l as [|c l IH]; intros Hn; [reflexivity|].
    cbn [filter]. destruct (String.eqb c target) eqn:E.
    - apply String.eqb_eq in E. subst. exfalso. apply Hn. now left.
    - cbn [negb]. rewrite IH; auto. intros Hl. apply Hn. now right. }
  induction Hnd as [|c l Hnc Hnd IH]; [destruct Hin|].
  cbn [filter]. destruct (String.eqb c target) eqn:E.
  - apply String.eqb_eq in E. subst c. cbn [negb]. rewrite Hnot by assumption.
    simpl. lia.
  - destruct Hin as [->|Hin]; [now rewrite String.eqb_refl in E|].
    cbn [negb List.length]. rewrite IH by assumption.
    destruct l; [destruct Hin|]. simpl. lia.
Qed.

(** The pairs of a round addressed to one target. *)
Lemma critique_shape_to_target target ids :
  NoDup ids -> In target ids ->
  filter (fun ft => String.eqb (snd ft) target) (kind_pairs (critique_shape ids))
  = map (fun c => (c, target)) (critics_of target ids).
Proof.
  intros Hnd Hin. unfold critique_shape.
  assert (Hpairs : forall outer,
            kind_pairs
              (flat_map (fun t => flat_map (critique_pair t) ids) outer)
            = flat_map (fun t => map (fun c => (c, t)) (critics_of t ids))
                outer).
  { induction outer as [|t outer IH]; [reflexivity|].
    cbn [flat_map]. now rewrite kind_pairs_app, kind_pairs_target, IH. }
  rewrite Hpairs, filter_flat_map.
  rewrite <- (flat_map_only target
                (fun t => map (fun c => (c, t)) (critics_of t ids)) ids Hnd Hin).
  apply flat_map_ext. intros t.
  destruct (String.eqb t target) eqn:E.
  - apply String.eqb_eq in E. subst t.
    apply forallb_filter_id. apply forallb_forall.
    intros ft Hft. apply in_map_iff in Hft as (c & <- & _).
    apply String.eqb_refl.
  - induction (critics_of t ids) as [|c l IH]; [reflexivity|].
    cbn [map filter snd]. now rewrite E.
Qed.

(** In a critique round every agent is critiqued by each of the other
    agents exactly once, in the order of the agents: the list stored for a
    target has N - 1 entries, the i-th written by the i-th other agent and
    holding the text logged for that pair. *)
Theorem critique_round_all_others `{LLM} (agents : Debate.Agents)
  (answers : Answers) (p : Params) (h : Trace) :
  NoDup (Py.keys agents) ->
  Py.keys answers = Py.keys agents ->
  exists critiques es,
    Debate._critique_round agents answers p h = (Ok critiques, es)
    /\ forall target, In target (Py.keys agents) ->
         exists entries,
           Py.get target critiques = Some entries
           /\ List.length entries = (List.length agents - 1)%nat
           /\ Forall2
                (fun entry critic =>
                   exists text,
                     entry = (critic ++ ": " ++ text)%string
                     /\ In (ELog (LogCritique critic target text)) es)
                entries (critics_of target (Py.keys agents)).
Proof.
  intros Hnd Hkeys.
  destruct (critique_round_total agents Hnd answers p h)
    as (cr & es & E & [_ Hget] & Hshape).
  { rewrite Hkeys. apply incl_refl. }
  rewrite Hkeys in Hshape. fold (critique_shape (Py.keys agents)) in Hshape.
  exists cr, es. split; [exact E|]. intros target Ht.
  exists (entries_for target es). split; [now apply Hget|].
  set (rs := filter (fun r : string * string * string =>
                       String.eqb (snd (fst r)) target) (critique_records es)).
  assert (Hcritics : map (fun r : string * string * string => fst (fst r)) rs
                     = critics_of target (Py.keys agents)).
  { unfold rs.
    pose proof (map_filter_comm (@fst (string * string) string)
                  (fun ft => String.eqb (snd ft) target) (critique_records es))
      as Hcomm.
    cbv beta in Hcomm.
    rewrite records_kind_pairs, Hshape, critique_shape_to_target in Hcomm
      by assumption.
    apply (f_equal (map fst)) in Hcomm. rewrite !map_map in Hcomm.
    cbn [fst] in Hcomm. rewrite map_id in Hcomm. exact Hcomm. }
  assert (Hin : forall r, In r rs ->
            snd (fst r) = target
            /\ In (ELog (LogCritique (fst (fst r)) target (snd r))) es).
  { intros [[f t] x] Hr. unfold rs in Hr. apply filter_In in Hr as [Hr Heq].
    cbn in Heq. apply String.eqb_eq in Heq. subst t. split; [reflexivity|].
    now apply in_critique_records. }
  unfold entries_for. fold rs. split.
  - rewrite length_map, <- (length_map (fun r => fst (fst r)) rs), Hcritics.
    rewrite critics_of_length by assumption.
    unfold Py.keys. now rewrite length_map.
  - rewrite <- Hcritics. clear Hcritics.
    induction rs as [|r rs IH]; cbn [map]; constructor.
    + exists (snd r). split; [reflexivity|]. apply Hin. now left.
    + apply IH. intros r' Hr'. apply Hin. now right.
Qed.

Lemma critique_round_all_others_witness :
  exists critiques es,
    Debate._critique_round (H := Scripted.llm ["B on A"; "A on B"])
      Examples.registry [("A", "first A"); ("B", "first B")]
      Examples.params [] = (Ok critiques, es)
    /\ exists entries,
         Py.get "A" critiques = Some entries
         /\ List.length entries = 1%nat.
Proof.
  destruct (critique_round_all_others (H := Scripted.llm ["B on A"; "A on B"])
              Examples.registry [("A", "first A"); ("B", "first B")]
              Examples.params [] ltac:(distinct_keys) eq_refl)
    as (critiques & es & E & Hall).
  exists critiques, es. split; [exact E|].
  destruct (Hall "A" ltac:(simpl; auto)) as (entries & Hg & Hlen & _).
  exists entries. split; [exact Hg|exact Hlen].
Defined.

(** ** The command line: agents, roles and the judge *)

Lemma nodup_snoc {A : Type} (l : list A) (x : A) :
  NoDup l -> ~ In x l -> NoDup (l ++ [x]).
Proof.
  induction 1 as [|y l Hy Hnd IH]; intros Hx; simpl.
  - constructor; [intros []|constructor].
  - constructor.
    + rewrite in_app_iff. intros [Hin|[->|[]]]; [tauto|]. apply Hx. now left.
    + apply IH. intros Hin. apply Hx. now right.
Qed.

Section SetFacts.
Context {V : Type}.
Implicit Types (d : Py.dict V) (k : string) (v : V).

Lemma keys_set k v d k' :
  In k' (Py.keys (Py.set k v d)) <-> k' = k \/ In k' (Py.keys d).
Proof.
  destruct (in_dec string_dec k (Py.keys d)) as [Hin|Hn].
  - rewrite keys_set_in by assumption. split; [auto|]. now intros [->|].
  - rewrite set_fresh by assumption. unfold Py.keys. rewrite map_app.
    cbn [map fst]. rewrite in_app_iff. cbn [In]. split.
    + intros [|[<-|[]]]; auto.
    + intros [->|]; auto.
Qed.

Lemma set_nodup k v d : NoDup (Py.keys d) -> NoDup (Py.keys (Py.set k v d)).
Proof.
  intros Hnd. destruct (in_dec string_dec k (Py.keys d)) as [Hin|Hn].
  - now rewrite keys_set_in.
  - rewrite set_fresh by assumption. unfold Py.keys in *. rewrite map_app.
    cbn [map fst]. now apply nodup_snoc.
Qed.

End SetFacts.

(** The first loop of [build_agents], over the agent ids. *)
Lemma build_ids_inv (reg : Py.dict Agents.AgentSpec) ids d d' :
  fold_result
    (fun chosen aid =>
       match Py.get aid reg with
       | None => Raise (BadParameter ("Unknown agent id: " ++ aid))
       | Some spec => Ok (Py.set aid spec chosen)
       end) ids d = Ok d' ->
  NoDup (Py.keys d) ->
  NoDup (Py.keys d')
  /\ (forall k, In k (Py.keys d') <-> In k (Py.keys d) \/ In k ids)
  /\ (forall k, In k ids ->
        Py.get k reg <> None /\ Py.get k d' = Py.get k reg)
  /\ (forall k, ~ In k ids -> Py.get k d' = Py.get k d).
Proof.
  revert d. induction ids as [|aid ids IH]; intros d E Hnd.
  - injection E as <-. split; [exact Hnd|].
    split; [intros k; cbn [In]; tauto|]. split; [intros k []|auto].
  - cbn [fold_result] in E. destruct (Py.get aid reg) as [spec|] eqn:G;
      [|discriminate].
    destruct (IH _ E (set_nodup aid spec d Hnd)) as (N & K & R & O).
    split; [exact N|]. split; [|split].
    + intros k. rewrite K, keys_set. cbn [In].
      intuition (subst; auto).
    + intros k Hk. destruct (in_dec string_dec k ids) as [Hin|Hn]; [auto|].
      destruct Hk as [->|Hk]; [|tauto].
      rewrite G. split; [discriminate|].
      rewrite (O _ Hn). apply get_set_same.
    + intros k Hk. rewrite O by (intros Hin; apply Hk; now right).
      apply get_set_other. intros ->. apply Hk. now left.
Qed.

Lemma build_ids_raise (reg : Py.dict Agents.AgentSpec) ids d e :
  fold_result
    (fun chosen aid =>
       match Py.get aid reg with
       | None => Raise (BadParameter ("Unknown agent id: " ++ aid))
       | Some spec => Ok (Py.set aid spec chosen)
       end) ids d = Raise e ->
  exists aid, In aid ids /\ Py.get aid reg = None
              /\ e = BadParameter ("Unknown agent id: " ++ aid).
Proof.
  revert d. induction ids as [|aid ids IH]; intros d E; [discriminate|].
  cbn [fold_result] in E. destruct (Py.get aid reg) as [spec|] eqn:G.
  - destruct (IH _ E) as (a & Hin & Hg & He). exists a. split; [now right|auto].
  - injection E as <-. exists aid. split; [now left|auto].
Qed.

(** The second loop of [build_agents], over the ad-hoc roles. *)
Lemma build_roles_inv msg roles (d d' : Py.dict Agents.AgentSpec) :
  fold_result
    (fun chosen role =>
       match Py.split_once ":" role with
       | None => Raise (BadParameter msg)
       | Some (name, system) =>
           Ok (Py.set name
                 (Agents.mkAgentSpec name (Py.strip system) "generalist")
                 chosen)
       end) roles d = Ok d' ->
  NoDup (Py.keys d) ->
  NoDup (Py.keys d')
  /\ (forall k, In k (Py.keys d') <-> In k (Py.keys d) \/ In k (role_names roles))
  /\ (forall k, In k (role_names roles) ->
        exists role system,
          In role roles /\ Py.split_once ":" role = Some (k, system)
          /\ Py.get k d'
             = Some (Agents.mkAgentSpec k (Py.strip system) "generalist"))
  /\ (forall k, ~ In k (role_names roles) -> Py.get k d' = Py.get k d)
  /\ (forall role, In role roles -> Py.split_once ":" role <> None).
Proof.
  revert d. induction roles as [|role roles IH]; intros d E Hnd.
  - injection E as <-. split; [exact Hnd|].
    split; [intros k; cbn [role_names flat_map In]; tauto|].
    split; [intros k []|]. split; [auto|intros role []].
  - cbn [fold_result] in E.
    destruct (Py.split_once ":" role) as [[name system]|] eqn:S;
      [|discriminate].
    destruct (IH _ E (set_nodup name _ d Hnd)) as (N & K & R & O & C).
    assert (Hnames : role_names (role :: roles) = name :: role_names roles).
    { unfold role_names. cbn [flat_map]. now rewrite S. }
    rewrite Hnames.
    split; [exact N|]. split; [|split; [|split]].
    + intros k. rewrite K, keys_set. cbn [In].
      intuition (subst; auto).
    + intros k Hk.
      destruct (in_dec string_dec k (role_names roles)) as [Hin|Hn].
      * destruct (R k Hin) as (role' & system' & Hr & Hs & Hg).
        exists role', system'. split; [now right|auto].
      * destruct Hk as [<-|Hk]; [|tauto].
        exists role, system. split; [now left|]. split; [exact S|].
        rewrite (O _ Hn). apply get_set_same.
    + intros k Hk. rewrite O by (intros Hin; apply Hk; now right).
      apply get_set_other. intros ->. apply Hk. now left.
    + intros role' [<-|Hr]; [rewrite S; discriminate|auto].
Qed.

Lemma build_roles_raise msg roles (d : Py.dict Agents.AgentSpec) e :
  fold_result
    (fun chosen role =>
       match Py.split_once ":" role with
       | None => Raise (BadParameter msg)
       | Some (name, system) =>
           Ok (Py.set name
                 (Agents.mkAgentSpec name (Py.strip system) "generalist")
                 chosen)
       end) roles d = Raise e ->
  (exists role, In role roles /\ Py.split_once ":" role = None)
  /\ e = BadParameter msg.
Proof.
  revert d. induction roles as [|role roles IH]; intros d E; [discriminate|].
  cbn [fold_result] in E.
  destruct (Py.split_once ":" role) as [[name system]|] eqn:S.
  - destruct (IH _ E) as ((r & Hin & Hs) & He).
    split; [|exact He]. exists r. split; [now right|auto].
  - injection E as <-. split; [|reflexivity]. exists role. split; [now left|auto].
Qed.

(** When [build_agents] raises, an id is unknown or a role has no colon,
    and the exception is [BadParameter]. *)
Lemma build_agents_raise reg ids roles e :
  Cli.build_agents reg ids roles = Raise e ->
  ((exists aid, In aid ids /\ Py.get aid reg = None)
   \/ (exists role, In role roles /\ Py.split_once ":" role = None))
  /\ exists msg, e = BadParameter msg.
Proof.
  unfold Cli.build_agents. intros E.
  match type of E with
  | context [fold_result ?f ids nil] =>
      destruct (fold_result f ids nil) as [chosen|e1] eqn:E1
  end.
  - apply build_roles_raise in E as (Hr & ->). split; [now right|eauto].
  - injection E as <-. apply build_ids_raise in E1 as (aid & Hin & Hg & ->).
    split; [left|]; eauto.
Qed.

(** When [build_agents] returns, every id is in the registry and every
    role has a colon. *)
Lemma build_agents_inv reg ids roles chosen :
  Cli.build_agents reg ids roles = Ok chosen ->
  (forall k, In k ids -> Py.get k reg <> None)
  /\ (forall role, In role roles -> Py.split_once ":" role <> None).
Proof.
  unfold Cli.build_agents. intros E.
  match type of E with
  | context [fold_result ?f ids nil] =>
      destruct (fold_result f ids nil) as [d|e1] eqn:E1; [|discriminate]
  end.
  destruct (build_ids_inv reg ids [] d E1 (NoDup_nil _)) as (N1 & _ & R1 & _).
  destruct (build_roles_inv _ roles d chosen E N1) as (_ & _ & _ & _ & C).
  split; [|exact C]. intros k Hk. now apply R1.
Qed.

(** The agents [build_agents] returns: their ids are distinct, they are
    the ids asked for and the names of the ad-hoc roles; an ad-hoc role
    takes the place of a registry agent of the same name, every other id
    gets its registry entry, and every id asked for is in the registry,
    overridden or not. *)
Theorem build_agents_chosen reg ids roles chosen :
  Cli.build_agents reg ids roles = Ok chosen ->
  NoDup (Py.keys chosen)
  /\ (forall k, In k (Py.keys chosen) <-> In k ids \/ In k (role_names roles))
  /\ (forall k, In k (role_names roles) ->
        exists role system,
          In role roles /\ Py.split_once ":" role = Some (k, system)
          /\ Py.get k chosen
             = Some (Agents.mkAgentSpec k (Py.strip system) "generalist"))
  /\ (forall k, In k ids -> Py.get k reg <> None)
  /\ (forall k, In k ids -> ~ In k (role_names roles) ->
        Py.get k chosen = Py.get k reg)
  /\ (forall role, In role roles -> Py.split_once ":" role <> None).
Proof.
  unfold Cli.build_agents. intros E.
  match type of E with
  | context [fold_result ?f ids nil] =>
      destruct (fold_result f ids nil) as [d|e1] eqn:E1; [|discriminate]
  end.
  destruct (build_ids_inv reg ids [] d E1 (NoDup_nil _)) as (N1 & K1 & R1 & _).
  destruct (build_roles_inv _ roles d chosen E N1) as (N & K & R & O & C).
  split; [exact N|]. split; [|split; [exact R|split; [|split; [|exact C]]]].
  - intros k. rewrite K, K1. cbn [Py.keys map In]. tauto.
  - intros k Hk. now apply R1.
  - intros k Hk Hn. rewrite (O _ Hn). now apply R1.
Qed.

Lemma build_agents_chosen_witness :
  exists chosen,
    Cli.build_agents Examples.registry ["A"; "B"] ["B: You are terse."]
    = Ok chosen
    /\ NoDup (Py.keys chosen).
Proof.
  destruct (Cli.build_agents Examples.registry ["A"; "B"]
              ["B: You are terse."]) as [chosen|e] eqn:E;
    [|vm_compute in E; discriminate].
  exists chosen. split; [reflexivity|].
  exact (proj1 (build_agents_chosen _ _ _ _ E)).
Defined.

(** The judge the entry points ask the factory for. *)
Lemma cli_judge_factory kind :
  match judge_factory (Some kind) (Cli.judge_needs_llm kind) with
  | Ok j =>
      kind <> EmptyString
      /\ In (Py.lower kind) ["gpt"; "panel"; "rules"]
      /\ j = (if String.eqb (Py.lower kind) "gpt"
              then GPT Rubrics.DEFAULT_RUBRIC
              else if String.eqb (Py.lower kind) "panel"
                   then Panel Rubrics.DEFAULT_RUBRIC 3
                   else Rules)
  | Raise e =>
      (kind = EmptyString /\ e = AssertionError)
      \/ (kind <> EmptyString
          /\ ~ In (Py.lower kind) ["gpt"; "panel"; "rules"]
          /\ e = ValueError)
  end.
Proof.
  destruct kind as [|c s].
  - left. split; reflexivity.
  - unfold judge_factory, Cli.judge_needs_llm. cbv beta iota zeta.
    remember (Py.lower (String c s)) as k eqn:Hk. clear Hk.
    destruct (String.eqb k "gpt") eqn:E1.
    + apply String.eqb_eq in E1. subst k. cbn [orb].
      split; [discriminate|]. split; [now left|reflexivity].
    + cbn [orb]. destruct (String.eqb k "panel") eqn:E2.
      * apply String.eqb_eq in E2. subst k.
        split; [discriminate|]. split; [right; now left|reflexivity].
      * destruct (String.eqb k "rules") eqn:E3.
        -- apply String.eqb_eq in E3. subst k.
           split; [discriminate|]. split; [right; right; now left|reflexivity].
        -- right. split; [discriminate|]. split; [|reflexivity].
           intros [<-|[<-|[<-|[]]]]; discriminate.
Qed.

Lemma bind_lift_ok {A B : Type} (a : A) (f : A -> M B) h :
  bind (lift (Ok a)) f h = f a h.
Proof.
  unfold bind, lift. rewrite app_nil_r. now destruct (f a h).
Qed.

(** A session logs its start before anything else. *)
Lemma run_starts_with_log `{LLM} `{JSONCodec} agents the_judge question
  constraints rounds p h :
  exists r es,
    Debate.run agents the_judge question constraints rounds p h
    = (r, ELog (LogStart question constraints rounds) :: es).
Proof.
  unfold Debate.run, Debate.debate.
  unfold bind at 1. unfold bind at 1. unfold log at 1.
  destruct (bind (Debate._propose_round agents question constraints p) _ _)
    as [[answers|e] es1]; cbn [app].
  - destruct (Debate.conclude _ _ _) as [r es2]. cbn [app]. eauto.
  - eauto.
Qed.

(** [run] fails fast, and only then: when the options are well configured
    the session starts (its start is the first thing logged); otherwise
    [run] raises [BadParameter], [AssertionError] or [ValueError] without a
    single completion call or log record.  The empty judge kind is
    turned down with [AssertionError]: the factory reads it as the default
    kind, for which [run] has created no client. *)
Theorem cli_run_fails_fast `{LLM} `{JSONCodec} reg question agents agent_role
  rounds judge_kind p constraints h :
  (well_configured reg agents agent_role judge_kind ->
   exists r es,
     Cli.run reg question agents agent_role rounds judge_kind p constraints h
     = (r, ELog (LogStart question constraints rounds) :: es))
  /\ (~ well_configured reg agents agent_role judge_kind ->
      exists e,
        Cli.run reg question agents agent_role rounds judge_kind p
          constraints h = (Raise e, [])
        /\ config_error e).
Proof.
  unfold Cli.run.
  pose proof (cli_judge_factory judge_kind) as Hj.
  destruct (Cli.build_agents reg (Cli.parse_agent_ids agents) agent_role)
    as [built|e] eqn:E.
  - apply build_agents_inv in E as (Hids & Hroles).
    rewrite bind_lift_ok.
    destruct (judge_factory (Some judge_kind) (Cli.judge_needs_llm judge_kind))
      as [j|e].
    + rewrite bind_lift_ok. split.
      * intros _. apply run_starts_with_log.
      * intros Hn. exfalso. apply Hn. destruct Hj as (Hk & Hin & _).
        repeat split; auto.
    + split.
      * intros (_ & _ & Hk & Hin). exfalso.
        destruct Hj as [[-> _]|(_ & Hn & _)]; auto.
      * intros _. exists e. split; [reflexivity|].
        destruct Hj as [[_ ->]|(_ & _ & ->)]; exact I.
  - apply build_agents_raise in E as (Hbad & msg & ->). split.
    + intros (Hids & Hroles & _). exfalso.
      destruct Hbad as [(aid & Hin & Hg)|(role & Hin & Hs)].
      * exact (Hids aid Hin Hg).
      * exact (Hroles role Hin Hs).
    + intros _. exists (BadParameter msg). split; [reflexivity|exact I].
Qed.

(** ** A session without agents *)

Lemma rounds_loop_no_agents `{LLM} n p h :
  Debate.rounds_loop [] n [] p h = (Ok [], []).
Proof.
  revert h. induction n as [|n IH]; intros h; [reflexivity|].
  cbn [Debate.rounds_loop]. unfold bind at 1.
  change (Debate._critique_round [] [] p h) with (@Ok Debate.Critiques [], @nil Event).
  cbv beta iota. unfold bind at 1.
  change (Debate._defend_round [] [] [] p (h ++ [])%list)
    with (@Ok Answers [], @nil Event).
  cbv beta iota. rewrite IH. reflexivity.
Qed.

Lemma debate_no_agents `{LLM} question constraints rounds p h :
  Debate.debate [] question constraints rounds p h
  = (Ok [], [ELog (LogStart question constraints rounds)]).
Proof.
  unfold Debate.debate. unfold bind at 1. unfold log at 1. cbv beta iota.
  unfold bind at 1.
  change (Debate._propose_round [] question constraints p
            (h ++ [ELog (LogStart question constraints rounds)])%list)
    with (@Ok Answers [], @nil Event).
  cbv beta iota. rewrite rounds_loop_no_agents. reflexivity.
Qed.

(** Every judge raises [ValueError] on the empty answers map, without a
    call: [max] has nothing to choose from. *)
Lemma judge_no_answers `{LLM} `{JSONCodec} (j : Judge) h :
  judge j [] h = (Raise ValueError, []).
Proof.
  destruct j as [rubric|rubric n|]; [reflexivity| |reflexivity].
  unfold judge, PanelJudge.judge, PanelJudge.run_members.
  destruct (Z.to_nat n) as [|m]; reflexivity.
Qed.

Lemma run_no_agents `{LLM} `{JSONCodec} (j : Judge) question constraints
  rounds p h :
  Debate.run [] j question constraints rounds p h
  = (Raise ValueError, [ELog (LogStart question constraints rounds)]).
Proof.
  unfold Debate.run. unfold bind at 1. rewrite debate_no_agents.
  unfold Debate.conclude. unfold bind at 1. rewrite judge_no_answers.
  reflexivity.
Qed.

(** An agents option that holds no id (only commas and blanks) is not
    turned down: with no ad-hoc role and a valid judge kind, the command
    line logs the start of the session and then fails at the judge with
    [ValueError], without a completion call; the UI entry point, whose guard
    only looks for a blank field, reports the same failure. *)
Theorem session_without_agents `{LLM} `{JSONCodec} reg question agents rounds
  judge_kind p constraints temperature max_tokens api_key h :
  Cli.parse_agent_ids agents = [] ->
  judge_kind <> EmptyString ->
  In (Py.lower judge_kind) ["gpt"; "panel"; "rules"] ->
  Cli.run reg question agents [] rounds judge_kind p constraints h
  = (Raise ValueError, [ELog (LogStart question constraints rounds)])
  /\ (Py.strip question <> EmptyString ->
      Py.strip agents <> EmptyString ->
      Py.strip api_key <> EmptyString ->
      StreamlitUI.run_debate reg question agents rounds judge_kind
        temperature max_tokens api_key h
      = (Ok (StreamlitUI.Failed ValueError),
         [ELog (LogStart question None rounds)])).
Proof.
  intros Hids Hk Hin.
  pose proof (cli_judge_factory judge_kind) as Hj.
  destruct (judge_factory (Some judge_kind) (Cli.judge_needs_llm judge_kind))
    as [j|e] eqn:Ej.
  2:{ exfalso. destruct Hj as [[-> _]|(_ & Hn & _)]; auto. }
  assert (Hrun : forall q c p',
            Cli.run reg q agents [] rounds judge_kind p' c h
            = (Raise ValueError, [ELog (LogStart q c rounds)])).
  { intros q c p'. unfold Cli.run. rewrite Hids.
    change (Cli.build_agents reg [] []) with (@Ok Debate.Agents []).
    rewrite bind_lift_ok, Ej, bind_lift_ok. apply run_no_agents. }
  split; [apply Hrun|].
  intros Hq Ha Hkey. unfold StreamlitUI.run_debate.
  apply String.eqb_neq in Hq, Ha, Hkey. rewrite Hq, Ha, Hkey.
  specialize (Hrun question None (mkParams temperature max_tokens None)).
  unfold Cli.run in Hrun. rewrite Hrun. reflexivity.
Qed.

Lemma session_without_agents_witness :
  Cli.run (H := Scripted.llm []) (H0 := MiniJSON.codec) Examples.registry
    "Which design?" " , ," [] 2 "Rules" Examples.params None []
  = (Raise ValueError, [ELog (LogStart "Which design?" None 2)]).
Proof.
  refine (proj1 (session_without_agents (H := Scripted.llm [])
                   (H0 := MiniJSON.codec) Examples.registry "Which design?"
                   " , ," 2 "Rules" Examples.params None 0 64 "key" []
                   _ _ _)).
  - vm_compute. reflexivity.
  - discriminate.
  - vm_compute. auto.
Defined.

(** ** The requests of a session *)

Lemma emits_only_mapM_in {A B : Type} (P : Event -> Prop) (f : A -> M B)
  (l : list A) :
  (forall x, In x l -> emits_only P (f x)) -> emits_only P (mapM f l).
Proof.
  induction l as [|x l IH]; intros Hf; cbn [mapM].
  - apply emits_only_ret.
  - apply emits_only_bind; [apply Hf; now left|]. intros y.
    apply emits_only_bind; [|intros ys; apply emits_only_ret].
    apply IH. intros z Hz. apply Hf. now right.
Qed.

Lemma emits_only_foldM_in {A S : Type} (P : Event -> Prop) (f : S -> A -> M S)
  (l : list A) :
  (forall s x, In x l -> emits_only P (f s x)) ->
  forall s, emits_only P (foldM f l s).
Proof.
  induction l as [|x l IH]; intros Hf s; cbn [foldM].
  - apply emits_only_ret.
  - apply emits_only_bind; [apply Hf; now left|]. intros s'.
    apply IH. intros s1 z Hz. apply Hf. now right.
Qed.

Lemma emits_only_log (P : Event -> Prop) r : P (ELog r) -> emits_only P (log r).
Proof. intros HP h. repeat constructor. exact HP. Qed.

Lemma emits_only_chat `{LLM} (P : Event -> Prop) op msgs p :
  (forall resp, P (EChat op msgs p resp)) -> emits_only P (chat op msgs p).
Proof. intros HP h. repeat constructor. apply HP. Qed.

Lemma emits_only_weaken {A : Type} (P Q : Event -> Prop) (m : M A) :
  (forall e, P e -> Q e) -> emits_only P m -> emits_only Q m.
Proof.
  intros HPQ Hm h. eapply Forall_impl; [exact HPQ|apply Hm].
Qed.

Section Requests.
Context `{LLM} `{JSONCodec}.
Variable agents : Debate.Agents.
Variable p : Params.

Let agent_or_log (e : Event) : Prop := is_log e \/ agent_request agents p e.

Lemma agent_call_request op (aa : string * Agents.AgentSpec) user :
  In aa agents -> op <> OpJudge ->
  emits_only agent_or_log
    (chat op [ mkMessage "system" (Agents.system (snd aa));
               mkMessage "user" user ] p).
Proof.
  intros Hin Hop. apply emits_only_chat. intros resp. right.
  split; [exact Hop|]. split; [reflexivity|]. now exists aa, user.
Qed.

Lemma propose_round_requests question constraints :
  emits_only agent_or_log (Debate._propose_round agents question constraints p).
Proof.
  unfold Debate._propose_round.
  apply emits_only_bind; [|intros r; apply emits_only_ret].
  apply emits_only_mapM_in. intros aa Hin.
  apply emits_only_bind.
  - apply agent_call_request; [exact Hin|discriminate].
  - intros ans. apply emits_only_bind; [|intros _; apply emits_only_ret].
    apply emits_only_log. now left.
Qed.

Lemma critique_round_requests answers :
  emits_only agent_or_log (Debate._critique_round agents answers p).
Proof.
  unfold Debate._critique_round.
  apply emits_only_foldM_in. intros cr ta _.
  apply emits_only_foldM_in. intros cr' aa Hin.
  unfold Debate.critique_one. destruct (String.eqb (fst aa) (fst ta)).
  - apply emits_only_ret.
  - apply emits_only_bind.
    + apply agent_call_request; [exact Hin|discriminate].
    + intros crit. destruct (Py.get (fst ta) cr'); [|apply emits_only_raise].
      apply emits_only_bind; [|intros _; apply emits_only_ret].
      apply emits_only_log. now left.
Qed.

Lemma defend_round_requests answers critiques :
  emits_only agent_or_log (Debate._defend_round agents answers critiques p).
Proof.
  unfold Debate._defend_round.
  apply emits_only_bind; [|intros r; apply emits_only_ret].
  apply emits_only_mapM_in. intros aa Hin.
  destruct (Py.get (fst aa) answers); [|apply emits_only_raise].
  destruct (Py.get (fst aa) critiques); [|apply emits_only_raise].
  apply emits_only_bind.
  - apply agent_call_request; [exact Hin|discriminate].
  - intros rev. apply emits_only_bind; [|intros _; apply emits_only_ret].
    apply emits_only_log. now left.
Qed.

Lemma rounds_loop_requests n : forall answers,
  emits_only agent_or_log (Debate.rounds_loop agents n answers p).
Proof.
  induction n as [|n IH]; intros answers; cbn [Debate.rounds_loop].
  - apply emits_only_ret.
  - apply emits_only_bind; [apply critique_round_requests|]. intros cr.
    apply emits_only_bind; [apply defend_round_requests|]. intros answers'.
    apply IH.
Qed.

Lemma score_one_requests rubric aid answer :
  emits_only judge_request (GPTJudge._score_one rubric aid answer).
Proof.
  intros h. rewrite score_one_unfold. repeat constructor.
  now exists rubric, aid, answer.
Qed.

Lemma judge_requests j answers : emits_only judge_request (judge j answers).
Proof.
  assert (Hgpt : forall rubric,
            emits_only judge_request (GPTJudge.judge rubric answers)).
  { intros rubric. unfold GPTJudge.judge. apply emits_only_bind.
    - apply emits_only_mapM. intros kv. apply emits_only_bind.
      + apply score_one_requests.
      + intros x. apply emits_only_ret.
    - intros scored. destruct (Py.max_by _ _).
      + apply emits_only_ret.
      + apply emits_only_raise. }
  destruct j as [rubric|rubric n|]; cbn [judge].
  - apply Hgpt.
  - unfold PanelJudge.judge, PanelJudge.run_members. apply emits_only_bind.
    + apply emits_only_mapM. intros _. apply Hgpt.
    + intros panels. apply emits_only_bind; [apply emits_only_lift|].
      intros agg. destruct (Py.max_by _ _); [|apply emits_only_raise].
      destruct panels; [apply emits_only_raise|apply emits_only_ret].
  - intros h. rewrite rules_judge_silent. constructor.
Qed.

End Requests.

(** Every completion call of a session is either a call for one of the
    agents, with that agent's persona as system message and the generation
    parameters of the session, or a call of the judge, which ignores those
    parameters: a judge always asks at temperature [0.0], for at most 600
    tokens and without a seed.  This holds whatever the capability answers
    and whether or not the session fails. *)
Theorem session_requests `{LLM} `{JSONCodec} (agents : Debate.Agents)
  (the_judge : Judge) (question : string) (constraints : option string)
  (rounds : Z) (p : Params) :
  emits_only
    (fun e => is_log e \/ agent_request agents p e \/ judge_request e)
    (Debate.run agents the_judge question constraints rounds p).
Proof.
  assert (Hagent : forall A (m : M A),
            emits_only (fun e => is_log e \/ agent_request agents p e) m ->
            emits_only
              (fun e => is_log e \/ agent_request agents p e \/ judge_request e)
              m).
  { intros A m. apply emits_only_weaken. tauto. }
  unfold Debate.run. apply emits_only_bind.
  - unfold Debate.debate. apply emits_only_bind.
    + apply emits_only_log. now left.
    + intros _. apply emits_only_bind.
      * apply Hagent, propose_round_requests.
      * intros answers. apply Hagent, rounds_loop_requests.
  - intros answers. unfold Debate.conclude. apply emits_only_bind.
    + eapply emits_only_weaken; [|apply judge_requests]. tauto.
    + intros wd. apply emits_only_bind; [|intros _; apply emits_only_ret].
      apply emits_only_log. now left.
Qed.

(** ** What the single-model judge decodes *)

Lemma str_length_app (a b : string) :
  String.length (a ++ b) = (String.length a + String.length b)%nat.
Proof. induction a as [|c a IH]; simpl; auto. Qed.

Lemma contains_char_cons (b c : ascii) (s : string) :
  Py.contains (String b EmptyString) (String c s)
  = Ascii.eqb b c || Py.contains (String b EmptyString) s.
Proof.
  cbn [Py.contains]. now rewrite prefix_cons, prefix_empty, andb_true_r.
Qed.

Lemma prefix_char_absent (b : ascii) (s : string) :
  Py.contains (String b EmptyString) s = false ->
  String.prefix (String b EmptyString) s = false.
Proof.
  destruct s as [|c s]; [reflexivity|]. rewrite contains_char_cons.
  intros Hc. apply orb_false_iff in Hc as [Hc _].
  now rewrite prefix_cons, Hc.
Qed.

(** [find] stops at the first occurrence of the character. *)
Lemma find_from_first (b : ascii) (pre rest : string) : forall i,
  Py.contains (String b EmptyString) pre = false ->
  Py.find_from i (String b EmptyString) (pre ++ String b rest)
  = (i + Z.of_nat (String.length pre))%Z.
Proof.
  induction pre as [|c pre IH]; intros i Hc.
  - cbn [append Py.find_from]. rewrite prefix_cons, Ascii.eqb_refl, prefix_empty.
    simpl. lia.
  - rewrite contains_char_cons in Hc. apply orb_false_iff in Hc as [Hbc Hc].
    cbn [append Py.find_from]. rewrite prefix_cons, Hbc. cbn [andb].
    rewrite IH by assumption. cbn [String.length]. lia.
Qed.

Lemma find_from_absent (b : ascii) (s : string) : forall i,
  Py.contains (String b EmptyString) s = false ->
  Py.find_from i (String b EmptyString) s = (-1)%Z.
Proof.
  induction s as [|c s IH]; intros i Hc; [reflexivity|].
  cbn [Py.find_from]. rewrite (prefix_char_absent _ _ Hc).
  rewrite contains_char_cons in Hc. apply orb_false_iff in Hc as [_ Hc].
  now apply IH.
Qed.

(** [rfind] keeps the last occurrence of the character. *)
Lemma rfind_from_absent (b : ascii) (s : string) : forall i best,
  Py.contains (String b EmptyString) s = false ->
  Py.rfind_from i best (String b EmptyString) s = best.
Proof.
  induction s as [|c s IH]; intros i best Hc; [reflexivity|].
  cbn [Py.rfind_from]. rewrite (prefix_char_absent _ _ Hc).
  rewrite contains_char_cons in Hc. apply orb_false_iff in Hc as [_ Hc].
  now apply IH.
Qed.

Lemma rfind_from_last (b : ascii) (s post : string) : forall i best,
  Py.contains (String b EmptyString) post = false ->
  Py.rfind_from i best (String b EmptyString) (s ++ String b post)
  = (i + Z.of_nat (String.length s))%Z.
Proof.
  induction s as [|c s IH]; intros i best Hc.
  - cbn [append Py.rfind_from]. rewrite prefix_cons, Ascii.eqb_refl, prefix_empty.
    cbn [andb]. rewrite rfind_from_absent by assumption. simpl. lia.
  - cbn [append Py.rfind_from]. rewrite IH by assumption.
    cbn [String.length]. lia.
Qed.

Lemma substring_middle (a b c : string) :
  String.substring (String.length a) (String.length b) (a ++ b ++ c) = b.
Proof.
  induction a as [|x a IH]; [|exact IH].
  cbn [append String.length]. induction b as [|y b IHb].
  - now destruct c.
  - cbn [append String.length String.substring]. now rewrite IHb.
Qed.

(** Slice bounds within the text are taken as they are. *)
Lemma clamp_within (len i : Z) : (0 <= i <= len)%Z -> Py.clamp len i = i.
Proof.
  intros Hi. unfold Py.clamp. cbv zeta.
  destruct (Z.ltb_spec i 0) as [H0|H0]; [lia|]. cbv iota.
  destruct (Z.ltb_spec i 0) as [H1|H1]; [lia|].
  destruct (Z.ltb_spec len i) as [H2|H2]; [lia|reflexivity].
Qed.

Lemma clamp_nonneg (len i : Z) : (0 <= len)%Z -> (0 <= Py.clamp len i)%Z.
Proof.
  intros Hlen. unfold Py.clamp. cbv zeta.
  destruct (Z.ltb_spec i 0) as [H0|H0]; cbv iota.
  - destruct (Z.ltb_spec (i + len) 0) as [H1|H1]; [lia|].
    destruct (Z.ltb_spec len (i + len)) as [H2|H2]; lia.
  - destruct (Z.ltb_spec i 0) as [H1|H1]; [lia|].
    destruct (Z.ltb_spec len i) as [H2|H2]; lia.
Qed.

(** [s[i:j]] for bounds within the text. *)
Lemma slice_middle (a b c : string) :
  b <> EmptyString ->
  Py.slice (a ++ b ++ c) (Z.of_nat (String.length a))
    (Z.of_nat (String.length a + String.length b))
  = b.
Proof.
  intros Hb. unfold Py.slice. cbv zeta. rewrite !str_length_app.
  assert (Hlen : (0 < String.length b)%nat) by (destruct b; simpl; [congruence|lia]).
  rewrite !clamp_within by lia.
  destruct (Z.ltb_spec (Z.of_nat (String.length a))
              (Z.of_nat (String.length a + String.length b))) as [_|Hge];
    [|lia].
  replace (Z.to_nat (Z.of_nat (String.length a + String.length b)
                     - Z.of_nat (String.length a)))
    with (String.length b) by lia.
  rewrite Nat2Z.id. apply substring_middle.
Qed.

(** [s[i:0]] is empty. *)
Lemma slice_to_zero (s : string) (i : Z) : Py.slice s i 0 = EmptyString.
Proof.
  unfold Py.slice. cbv zeta.
  rewrite (clamp_within _ 0%Z) by lia.
  pose proof (clamp_nonneg (Z.of_nat (String.length s)) i ltac:(lia)) as Hi.
  destruct (Z.ltb_spec (Py.clamp (Z.of_nat (String.length s)) i) 0);
    [lia|reflexivity].
Qed.

(** What [_score_one] hands to [json.loads]: the text from the first
    opening brace to the last closing brace of the response, so that prose
    before and after the object is dropped; and the empty text, which is no
    JSON document, when the response has no brace at all. *)
Theorem extract_between_braces `{JSONCodec} (pre body post : string) :
  Py.contains "{" pre = false ->
  Py.contains "}" post = false ->
  GPTJudge.extract (pre ++ "{" ++ body ++ "}" ++ post)
  = json_loads ("{" ++ body ++ "}")
  /\ forall resp,
       Py.contains "{" resp = false -> Py.contains "}" resp = false ->
       GPTJudge.extract resp = json_loads EmptyString.
Proof.
  intros Hpre Hpost. split.
  - unfold GPTJudge.extract. f_equal.
    assert (Hfind : Py.find "{" (pre ++ "{" ++ body ++ "}" ++ post)
                    = Z.of_nat (String.length pre)).
    { unfold Py.find. cbn [append].
      rewrite (find_from_first "{" pre _ 0%Z Hpre). lia. }
    assert (Hshape : (pre ++ "{" ++ body ++ "}" ++ post)
                     = ((pre ++ "{" ++ body) ++ String "}" post)).
    { clear. induction pre as [|c pre IH]; [reflexivity|].
      cbn [append] in *. now f_equal. }
    assert (Hrfind : Py.rfind "}" (pre ++ "{" ++ body ++ "}" ++ post)
                     = Z.of_nat (String.length (pre ++ "{" ++ body))).
    { unfold Py.rfind. rewrite Hshape.
      rewrite (rfind_from_last "}" _ post 0%Z (-1)%Z Hpost). lia. }
    rewrite Hfind, Hrfind.
    assert (Hmid : (pre ++ "{" ++ body ++ "}" ++ post)
                   = (pre ++ ("{" ++ body ++ "}") ++ post)).
    { clear. induction pre as [|c pre IH].
      - cbn [append]. f_equal.
        induction body as [|c body IH]; cbn [append] in *; congruence.
      - cbn [append] in *. now f_equal. }
    rewrite Hmid.
    replace (Z.of_nat (String.length (pre ++ "{" ++ body)) + 1)%Z
      with (Z.of_nat (String.length pre
                      + String.length ("{" ++ body ++ "}")))%Z.
    + apply slice_middle. discriminate.
    + rewrite (str_length_app pre). cbn [append String.length].
      rewrite !str_length_app. cbn [String.length]. lia.
  - intros resp Hopen Hclose. unfold GPTJudge.extract, Py.find, Py.rfind.
    rewrite find_from_absent, rfind_from_absent by assumption.
    f_equal. apply slice_to_zero.
Qed.

Lemma extract_between_braces_witness :
  GPTJudge.extract (H0 := MiniJSON.codec)
    ("Here is my score: " ++ "{" ++ "}" ++ "}" ++ " Thanks.")
  = json_loads (JSONCodec := MiniJSON.codec) ("{" ++ "}" ++ "}").
Proof.
  exact (proj1 (extract_between_braces (H := MiniJSON.codec)
                  "Here is my score: " "}" " Thanks." eq_refl eq_refl)).
Defined.

(** ** A judge that cannot decode any response *)

Section Undecodable.
Context `{LLM} `{JSONCodec}.
Hypothesis undecodable :
  forall h msgs p, GPTJudge.extract (chat_response h msgs p) = None.

Lemma gpt_judge_undecodable rubric first rest h :
  NoDup (Py.keys (first :: rest)) ->
  exists es,
    GPTJudge.judge rubric (first :: rest) h
    = (Ok (fst first, failed_details (first :: rest)), es).
Proof.
  intros Hnd. set (answers := first :: rest) in *.
  destruct (mapM_total
              (fun kv : string * string =>
                 j <- GPTJudge._score_one rubric (fst kv) (snd kv) ;;
                 ret (fst kv, j))
              (fun kv y => y = (fst kv, GPTJudge.parsing_failed))
              (fun _ => [KChat OpJudge]) answers) with (h := h)
    as (ys & es & E & HF & _).
  { intros kv h' _.
    assert (Ej : GPTJudge._score_one rubric (fst kv) (snd kv) h'
                 = (Ok GPTJudge.parsing_failed,
                    [EChat OpJudge (GPTJudge.messages rubric (fst kv) (snd kv))
                       GPTJudge.judge_params
                       (judge_response rubric (fst kv) (snd kv) h')])).
    { rewrite score_one_unfold. unfold judge_response. now rewrite undecodable. }
    rewrite (bind_ok _ _ _ _ _ Ej). cbn [ret fst snd app].
    eexists. eexists. split; [reflexivity|]. split; reflexivity. }
  assert (Hys : ys = failed_details answers).
  { clear -HF. induction HF as [|kv y l l' Hy _ IH]; [reflexivity|].
    cbn [failed_details map] in *. now rewrite Hy, IH. }
  subst ys. exists es. unfold GPTJudge.judge.
  rewrite (bind_ok _ _ _ _ _ E).
  rewrite of_list_nodup
    by (unfold failed_details; rewrite map_map; exact Hnd).
  unfold answers at 1. cbn [failed_details map].
  rewrite max_by_first_unbeaten.
  - cbn [ret fst snd]. now rewrite app_nil_r.
  - intros y Hy. apply in_map_iff in Hy as (kv & <- & _). reflexivity.
Qed.

Lemma summed_total_undecodable (panels : list (string * Details)) answers aid :
  Forall (fun wd => snd wd = failed_details answers) panels ->
  summed_total panels aid = 0%float.
Proof.
  unfold summed_total. induction 1 as [|wd panels Hwd _ IH]; [reflexivity|].
  cbn [fold_left]. unfold add_member at 2. rewrite Hwd.
  destruct (Py.get aid (failed_details answers)) as [j|] eqn:G; [|exact IH].
  assert (Hj : j = GPTJudge.parsing_failed).
  { clear -G. unfold failed_details in G.
    induction answers as [|kv answers IH]; [discriminate|].
    cbn [map Py.get fst] in G. destruct (String.eqb aid (fst kv)); auto.
    congruence. }
  subst j. exact IH.
Qed.

Lemma panel_judge_undecodable rubric n first rest h :
  NoDup (Py.keys (first :: rest)) ->
  (1 <= n)%Z ->
  fst (PanelJudge.judge rubric n (first :: rest) h)
  = Ok (fst first, failed_details (first :: rest)).
Proof.
  intros Hnd Hn. set (answers := first :: rest) in *.
  destruct (mapM_total
              (fun _ : nat => GPTJudge.judge rubric answers)
              (fun _ wd => wd = (fst first, failed_details answers))
              (fun _ => flat_map (fun _ => [KChat OpJudge]) answers)
              (seq 0 (Z.to_nat n))) with (h := h)
    as (panels & es & E & HF & _).
  { intros _ h' _.
    destruct (gpt_judge_undecodable rubric first rest h' Hnd) as [es' E'].
    exists (fst first, failed_details answers), es'. split; [exact E'|].
    split; [reflexivity|]. now apply gpt_judge_inv in E'. }
  assert (Hall : Forall (fun wd => wd = (fst first, failed_details answers))
                   panels).
  { clear -HF. induction HF; constructor; auto. }
  assert (Hlen : List.length panels = Z.to_nat n).
  { apply Forall2_length in HF. now rewrite length_seq in HF. }
  destruct (panel_judge_from_members rubric n answers h panels es Hnd E)
    as [-> _].
  rewrite (max_by_all_zero (summed_totals panels answers)
             (fst first, summed_total panels (fst first))
             (summed_totals panels rest)).
  - destruct panels as [|wd panels]; [simpl in Hlen; lia|].
    inversion Hall as [|? ? Hwd _]; subst. reflexivity.
  - reflexivity.
  - intros kv Hkv. unfold summed_totals in Hkv.
    apply in_map_iff in Hkv as (x & <- & _). cbn [snd].
    apply (summed_total_undecodable panels answers).
    eapply Forall_impl; [|exact Hall]. now intros wd ->.
Qed.

End Undecodable.

(** The degrade to zero, end to end: when no response of the capability
    holds text that decodes, a single-model judge and a panel of at least one
    member still return; every agent gets the zero judgement with the verdict
    "Parsing failed", and the winner is the first agent of the answers
    map. *)
Theorem judge_degrades_to_first_agent `{LLM} `{JSONCodec} (j : Judge)
  (first : string * string) (rest : Answers) (h : Trace) :
  NoDup (Py.keys (first :: rest)) ->
  (forall h' msgs p, GPTJudge.extract (chat_response h' msgs p) = None) ->
  match j with
  | GPT _ => True
  | Panel _ n => (1 <= n)%Z
  | Rules => False
  end ->
  fst (judge j (first :: rest) h)
  = Ok (fst first, failed_details (first :: rest))
  /\ forall aid, In aid (Py.keys (first :: rest)) ->
       Py.get aid (failed_details (first :: rest))
       = Some (mkJudgement 0%float [] (JStr "Parsing failed")).
Proof.
  intros Hnd Hnone Hj. split.
  - destruct j as [rubric|rubric n|]; [| |destruct Hj]; cbn [judge].
    + destruct (gpt_judge_undecodable Hnone rubric first rest h Hnd) as [es ->].
      reflexivity.
    + now apply panel_judge_undecodable.
  - intros aid Hin. unfold failed_details.
    now apply (get_map_const (first :: rest)).
Qed.

Lemma judge_degrades_to_first_agent_witness :
  fst (judge (H := Scripted.llm ["I cannot decide."]) (H0 := MiniJSON.codec)
         (Panel Rubrics.DEFAULT_RUBRIC 3) Examples.answers_AB [])
  = Ok ("A", failed_details Examples.answers_AB).
Proof.
  refine (proj1 (judge_degrades_to_first_agent
                   (H := Scripted.llm ["I cannot decide."])
                   (H0 := MiniJSON.codec) (Panel Rubrics.DEFAULT_RUBRIC 3)
                   ("A", Examples.answer_A) [("B", Examples.answer_B)] []
                   _ _ _)).
  - distinct_keys.
  - intros h' msgs p. cbn [chat_response Scripted.llm].
    destruct (Scripted.chats h') as [|[|k]]; reflexivity.
  - cbv. discriminate.
Defined.

(** ** The breakdown of a judgement *)

Lemma score_step_inv `{JSONCodec} data t per crit weight t' per' :
  GPTJudge.score_step data (t, per) (crit, weight) = Ok (t', per') ->
  exists score note,
    t' = (t + score * Py.nearest_float weight)%float
    /\ per' = Py.set crit (mkCritInfo score weight note) per.
Proof.
  unfold GPTJudge.score_step, GPTJudge.json_get.
  destruct (Py.float_of_int weight) as [w|] eqn:Ew.
  2:{ repeat match goal with
             | |- context [match ?x with _ => _ end] => destruct x
             end; discriminate. }
  apply float_of_int_some in Ew. subst w.
  destruct data as [| | | | | |m]; try discriminate.
  destruct (Py.get crit m) as [[| | | | | |info]|]; try discriminate.
  - destruct (Py.get "score" info) as [raw|].
    + destruct (GPTJudge.py_float raw) as [score|]; [|discriminate].
      intros [= <- <-]. eauto.
    + cbn [GPTJudge.py_float]. intros [= <- <-]. eauto.
  - cbn [Py.get GPTJudge.py_float]. intros [= <- <-]. eauto.
Qed.

(** The loop of [_score_one] appends one entry per criterion, and adds to
    the total what the entry holds. *)
Lemma fold_score_breakdown `{JSONCodec} data crits : forall t per t' per',
  fold_result (GPTJudge.score_step data) crits (t, per) = Ok (t', per') ->
  NoDup (Py.keys per ++ Py.keys crits) ->
  exists added,
    per' = (per ++ added)%list
    /\ Forall2 (fun kc cw => fst kc = fst cw /\ ci_weight (snd kc) = snd cw)
         added crits
    /\ t' = fold_left
              (fun acc kc =>
                 (acc + ci_score (snd kc)
                        * Py.nearest_float (ci_weight (snd kc)))%float)
              added t.
Proof.
  induction crits as [|[crit weight] crits IH]; intros t per t' per' E Hnd;
    cbn [fold_result] in E.
  - injection E as <- <-. exists []. rewrite app_nil_r.
    split; [reflexivity|]. split; [constructor|reflexivity].
  - destruct (GPTJudge.score_step data (t, per) (crit, weight))
      as [[t1 per1]|] eqn:E1; [|discriminate].
    apply score_step_inv in E1 as (score & note & -> & ->).
    cbn [Py.keys map fst] in Hnd.
    rewrite set_fresh in E.
    2:{ apply NoDup_remove_2 in Hnd. intros Hin. apply Hnd.
        apply in_or_app. now left. }
    destruct (IH _ _ _ _ E) as (added & -> & HF & ->).
    { unfold Py.keys in *. rewrite map_app. cbn [map fst].
      rewrite <- app_assoc. exact Hnd. }
    exists ((crit, mkCritInfo score weight note) :: added).
    rewrite <- app_assoc. split; [reflexivity|]. split; [|reflexivity].
    constructor; [now split|exact HF].
Qed.

(** A judgement [_score_one] returns is consistent with its own breakdown:
    the total is what the entries of the breakdown add up to (score times
    weight, in order, in float arithmetic), and unless parsing failed the
    breakdown lists the criteria of the rubric in their order, each with its
    weight.  The code itself does not check the scores. *)
Theorem score_one_breakdown_adds_up `{LLM} `{JSONCodec}
  (rubric : Rubrics.Rubric) (aid answer : string) (h : Trace) (j : Judgement) :
  NoDup (Py.keys (Rubrics.criteria rubric)) ->
  fst (GPTJudge._score_one rubric aid answer h) = Ok j ->
  total j = breakdown_sum (per_criterion j)
  /\ (j = GPTJudge.parsing_failed
      \/ Forall2 (fun kc cw => fst kc = fst cw /\ ci_weight (snd kc) = snd cw)
           (per_criterion j) (Rubrics.criteria rubric)).
Proof.
  intros Hnd E. rewrite score_one_unfold in E. cbn [fst] in E.
  destruct (GPTJudge.extract _) as [data|].
  - unfold GPTJudge.score_parsed in E.
    destruct (fold_result _ _ _) as [[t per]|] eqn:Ef; [|discriminate].
    destruct (GPTJudge.json_get data "verdict" _) as [v|]; [|discriminate].
    injection E as <-. cbn [total per_criterion].
    destruct (fold_score_breakdown data _ _ _ _ _ Ef Hnd)
      as (added & -> & HF & ->).
    cbn [app]. split; [reflexivity|]. now right.
  - injection E as <-. split; [reflexivity|]. now left.
Qed.

(** The total is a rounded sum.  With the weight 2^53 + 3 and the score 10
    it is 5629499534213122 * 2^4, which lies above ten times the weight: a
    bound on the scores bounds the total only up to rounding. *)
Lemma total_is_rounded :
  let rubric := Rubrics.mkRubric "Heavy" [("soundness", (2 ^ 53 + 3)%Z)] in
  exists j,
    fst (GPTJudge._score_one
           (H := Scripted.llm [Examples.single_reply "soundness" "10"])
           (H0 := MiniJSON.codec) rubric "A" "an answer" []) = Ok j
    /\ Prim2SF (total j) = S754_finite false 5629499534213122 4
    /\ (10 * (2 ^ 53 + 3) < 5629499534213122 * 2 ^ 4)%Z.
Proof.
  cbv zeta. eexists. split; [vm_compute; reflexivity|].
  split; [vm_compute; reflexivity|reflexivity].
Qed.

Lemma score_one_breakdown_adds_up_witness :
  exists j,
    fst (GPTJudge._score_one (H := Scripted.llm [Examples.reply "7.5"])
           (H0 := MiniJSON.codec) Rubrics.DEFAULT_RUBRIC "A" "an answer" [])
    = Ok j
    /\ total j = breakdown_sum (per_criterion j).
Proof.
  destruct (fst (GPTJudge._score_one (H := Scripted.llm [Examples.reply "7.5"])
                   (H0 := MiniJSON.codec) Rubrics.DEFAULT_RUBRIC "A"
                   "an answer" []))
    as [j|e] eqn:E; [|vm_compute in E; discriminate].
  exists j. split; [reflexivity|].
  refine (proj1 (score_one_breakdown_adds_up
                   (H := Scripted.llm [Examples.reply "7.5"])
                   (H0 := MiniJSON.codec) Rubrics.DEFAULT_RUBRIC "A"
                   "an answer" [] j _ E)).
  distinct_keys.
Defined.

(** ** The agent ids of the command line *)

Lemma lstrip_head l :
  match Py.lstrip_chars l with
  | c :: _ => Py.isspace c = false
  | [] => True
  end.
Proof.
  induction l as [|c l IH]; cbn [Py.lstrip_chars]; [exact I|].
  destruct (Py.isspace c) eqn:E; [exact IH|exact E].
Qed.

Lemma lstrip_fixed l :
  match l with
  | c :: _ => Py.isspace c = false
  | [] => True
  end ->
  Py.lstrip_chars l = l.
Proof.
  destruct l as [|c l]; [reflexivity|]. cbn [Py.lstrip_chars]. now intros ->.
Qed.

Lemma lstrip_suffix l : exists ws, l = (ws ++ Py.lstrip_chars l)%list.
Proof.
  induction l as [|c l [ws IH]]; [now exists []|].
  cbn [Py.lstrip_chars]. destruct (Py.isspace c).
  - exists (c :: ws). cbn [app]. now f_equal.
  - now exists [].
Qed.

Lemma lstrip_incl c l : In c (Py.lstrip_chars l) -> In c l.
Proof.
  intros Hin. destruct (lstrip_suffix l) as [ws Hws]. rewrite Hws.
  apply in_or_app. now right.
Qed.

(** Stripping twice is stripping once. *)
Lemma strip_idem s : Py.strip (Py.strip s) = Py.strip s.
Proof.
  unfold Py.strip. rewrite list_ascii_of_string_of_list_ascii. f_equal.
  set (l1 := Py.lstrip_chars (list_ascii_of_string s)).
  set (l2 := Py.lstrip_chars (rev l1)).
  assert (H2 : Py.lstrip_chars l2 = l2)
    by (apply lstrip_fixed, lstrip_head).
  assert (H3 : Py.lstrip_chars (rev l2) = rev l2).
  { apply lstrip_fixed.
    destruct (lstrip_suffix (rev l1)) as [ws Hws]. fold l2 in Hws.
    assert (Hl1 : l1 = (rev l2 ++ rev ws)%list).
    { rewrite <- (rev_involutive l1), Hws. apply rev_app_distr. }
    pose proof (lstrip_head (list_ascii_of_string s)) as Hhead.
    fold l1 in Hhead. rewrite Hl1 in Hhead.
    destruct (rev l2) as [|c t]; [exact I|exact Hhead]. }
  now rewrite H3, rev_involutive, H2.
Qed.

Lemma strip_chars_incl c s :
  In c (list_ascii_of_string (Py.strip s)) -> In c (list_ascii_of_string s).
Proof.
  unfold Py.strip. rewrite list_ascii_of_string_of_list_ascii.
  intros Hin. apply in_rev in Hin. apply lstrip_incl in Hin.
  apply in_rev in Hin. now apply lstrip_incl in Hin.
Qed.

(** The pieces of a split do not hold the separator. *)
Lemma split_pieces_free c s :
  Forall (fun piece => ~ In c (list_ascii_of_string piece)) (Py.split c s).
Proof.
  induction s as [|x s IH]; cbn [Py.split].
  - constructor; [intros []|constructor].
  - destruct (Ascii.eqb x c) eqn:E.
    + constructor; [intros []|exact IH].
    + destruct (split_nonempty c s) as (piece & t & Hs). rewrite Hs in *.
      inversion IH; subst. constructor; [|assumption].
      cbn [list_ascii_of_string In]. intros [->|Hin]; [|tauto].
      now rewrite Ascii.eqb_refl in E.
Qed.

Lemma split_no_separator c s :
  ~ In c (list_ascii_of_string s) -> Py.split c s = [s].
Proof.
  induction s as [|x s IH]; [reflexivity|].
  cbn [list_ascii_of_string In Py.split]. intros Hn.
  destruct (Ascii.eqb x c) eqn:E.
  - apply Ascii.eqb_eq in E. tauto.
  - rewrite IH by tauto. reflexivity.
Qed.

(** The ids read from the agents option: each is non-empty, has no white
    space around it and holds no comma; the option is read piece by piece,
    in order, a blank piece giving no id and any other piece its stripped
    text. *)
Theorem parse_agent_ids_clean (agents : string) :
  Forall (fun aid =>
            aid <> EmptyString
            /\ Py.strip aid = aid
            /\ ~ In ","%char (list_ascii_of_string aid))
    (Cli.parse_agent_ids agents)
  /\ (forall a b,
        Cli.parse_agent_ids (a ++ "," ++ b)
        = (Cli.parse_agent_ids a ++ Cli.parse_agent_ids b)%list)
  /\ (~ In ","%char (list_ascii_of_string agents) ->
      Cli.parse_agent_ids agents
      = if String.eqb (Py.strip agents) EmptyString then []
        else [Py.strip agents]).
Proof.
  unfold Cli.parse_agent_ids. split; [|split].
  - apply Forall_forall. intros aid Hin.
    apply in_map_iff in Hin as (x & <- & Hx).
    apply filter_In in Hx as [Hx Hne].
    split; [|split].
    + apply negb_true_iff, String.eqb_neq in Hne. exact Hne.
    + apply strip_idem.
    + intros Hc. apply strip_chars_incl in Hc.
      pose proof (split_pieces_free "," agents) as Hfree.
      rewrite Forall_forall in Hfree. exact (Hfree x Hx Hc).
  - intros a b. cbn [append].
    now rewrite split_app_newline, filter_app, map_app.
  - intros Hn. rewrite (split_no_separator _ _ Hn). cbn [filter].
    now destruct (String.eqb (Py.strip agents) EmptyString).
Qed.

(** ** The data flow of a session *)

Lemma paired_app P : forall e1 h e2,
  paired P h e1 -> paired P (h ++ e1)%list e2 -> paired P h (e1 ++ e2)%list.
Proof.
  assert (G : forall n e1 h e2, (List.length e1 <= n)%nat ->
                paired P h e1 -> paired P (h ++ e1)%list e2 ->
                paired P h (e1 ++ e2)%list).
  { induction n as [|n IH]; intros e1 h e2 Hlen H1 H2.
    - destruct e1; [now rewrite app_nil_r in H2|simpl in Hlen; lia].
    - destruct e1 as [|call [|[|r] rest]]; cbn [paired] in H1; try tauto.
      + now rewrite app_nil_r in H2.
      + destruct H1 as [HP H1]. cbn [app paired]. split; [exact HP|].
        apply IH; [simpl in Hlen; lia|exact H1|].
        now rewrite <- app_assoc. }
  intros e1 h e2. apply (G (List.length e1)). lia.
Qed.

(** A relation on the pairs can be exchanged for another, given what came
    before each pair in the stretch. *)
Lemma paired_impl P Q : forall es h,
  (forall pre call r rest,
     es = (pre ++ call :: ELog r :: rest)%list ->
     P (h ++ pre)%list call r -> Q (h ++ pre)%list call r) ->
  paired P h es -> paired Q h es.
Proof.
  assert (G : forall n es h, (List.length es <= n)%nat ->
                (forall pre call r rest,
                   es = (pre ++ call :: ELog r :: rest)%list ->
                   P (h ++ pre)%list call r -> Q (h ++ pre)%list call r) ->
                paired P h es -> paired Q h es).
  { induction n as [|n IH]; intros es h Hlen HPQ HP.
    - destruct es; [exact I|simpl in Hlen; lia].
    - destruct es as [|call [|[|r] rest]]; cbn [paired] in HP |- *; try tauto.
      destruct HP as [Hhead HP]. split.
      + specialize (HPQ [] call r rest eq_refl).
        rewrite app_nil_r in HPQ. now apply HPQ.
      + apply IH; [simpl in Hlen; lia| |exact HP].
        intros pre call' r' rest' -> HP'.
        rewrite <- app_assoc in HP' |- *.
        now apply (HPQ (call :: ELog r :: pre) call' r' rest'). }
  intros es h. apply (G (List.length es)). lia.
Qed.

Lemma mapM_paired {A B : Type} P (f : A -> M B) (l : list A) :
  (forall x h y es, In x l -> f x h = (Ok y, es) -> paired P h es) ->
  forall h ys es, mapM f l h = (Ok ys, es) -> paired P h es.
Proof.
  induction l as [|x l IH]; intros Hf h ys es E; cbn [mapM] in E.
  - now injection E as _ <-.
  - apply bind_inv in E as (y & es1 & es2 & E1 & E & ->).
    apply bind_inv in E as (ys' & es3 & es4 & E2 & E & ->).
    injection E as _ <-. rewrite app_nil_r. apply paired_app.
    + eapply Hf; [now left|exact E1].
    + eapply IH; [|exact E2]. intros z h' y' es' Hz. apply Hf. now right.
Qed.

Lemma foldM_paired {A S : Type} P (f : S -> A -> M S) (l : list A) :
  (forall s x h s' es, In x l -> f s x h = (Ok s', es) -> paired P h es) ->
  forall s h s' es, foldM f l s h = (Ok s', es) -> paired P h es.
Proof.
  induction l as [|x l IH]; intros Hf s h s' es E; cbn [foldM] in E.
  - now injection E as _ <-.
  - apply bind_inv in E as (s1 & es1 & es2 & E1 & E2 & ->).
    apply paired_app.
    + eapply Hf; [now left|exact E1].
    + eapply IH; [|exact E2]. intros s0 z h' s2 es' Hz. apply Hf. now right.
Qed.

Section DictOrder.
Context {V : Type}.

Lemma get_app_in (k : string) (v : V) (a b : Py.dict V) :
  Py.get k a = Some v -> Py.get k (a ++ b)%list = Some v.
Proof.
  induction a as [|[k' v'] a IH]; cbn [Py.get app]; [discriminate|].
  destruct (String.eqb k k'); auto.
Qed.

Lemma get_app_not_in (k : string) (a b : Py.dict V) :
  ~ In k (Py.keys a) -> Py.get k (a ++ b)%list = Py.get k b.
Proof.
  induction a as [|[k' v'] a IH]; cbn [Py.get app Py.keys map fst In];
    [reflexivity|].
  intros Hn. destruct (String.eqb k k') eqn:E.
  - apply String.eqb_eq in E. subst. tauto.
  - apply IH. tauto.
Qed.

Lemma get_in_nodup (k : string) (v : V) (d : Py.dict V) :
  NoDup (Py.keys d) -> In (k, v) d -> Py.get k d = Some v.
Proof.
  induction d as [|[k' v'] d IH]; cbn [Py.get Py.keys map fst In];
    [tauto|].
  intros Hnd [Heq|Hin].
  - injection Heq as -> ->. now rewrite String.eqb_refl.
  - inversion Hnd as [|? ? Hnot Hnd']; subst.
    destruct (String.eqb k k') eqn:E; [|now apply IH].
    apply String.eqb_eq in E. subst k'. exfalso. apply Hnot.
    apply in_map_iff. now exists (k, v).
Qed.

Lemma get_some_in_pair (k : string) (v : V) (d : Py.dict V) :
  Py.get k d = Some v -> In (k, v) d.
Proof.
  induction d as [|[k' v'] d IH]; cbn [Py.get In]; [discriminate|].
  destruct (String.eqb k k') eqn:E.
  - apply String.eqb_eq in E. subst. intros [= ->]. now left.
  - intros Hg. right. now apply IH.
Qed.

(** With distinct keys the order of the entries does not matter. *)
Lemma get_rev (k : string) (d : Py.dict V) :
  NoDup (Py.keys d) -> Py.get k (rev d) = Py.get k d.
Proof.
  intros Hnd. destruct (Py.get k d) as [v|] eqn:G.
  - apply get_in_nodup.
    + unfold Py.keys. rewrite map_rev. now apply NoDup_rev.
    + apply in_rev. rewrite rev_involutive. now apply get_some_in_pair.
  - destruct (Py.get k (rev d)) as [v|] eqn:G'; [|reflexivity].
    apply get_some_in_pair, in_rev in G'.
    rewrite (get_in_nodup _ _ _ Hnd G') in G. discriminate.
Qed.

End DictOrder.

(** The latest text of an agent is not changed by what others log. *)
Lemma latest_app_other aid h es :
  ~ In aid (Py.keys (logged_texts es)) ->
  latest aid (h ++ es)%list = latest aid h.
Proof.
  intros Hn. unfold latest. rewrite logged_texts_app, rev_app_distr.
  apply get_app_not_in. unfold Py.keys in *. rewrite map_rev.
  intros Hin. apply Hn. now apply in_rev.
Qed.

Lemma latest_app_logged aid h es :
  NoDup (Py.keys (logged_texts es)) ->
  In aid (Py.keys (logged_texts es)) ->
  latest aid (h ++ es)%list = Py.get aid (logged_texts es).
Proof.
  intros Hnd Hin. unfold latest. rewrite logged_texts_app, rev_app_distr.
  destruct (get_in_keys aid (logged_texts es) Hin) as [v Hv].
  rewrite Hv. apply get_app_in. now rewrite get_rev.
Qed.

Lemma since_fold_other aid es : forall acc,
  ~ In aid (Py.keys (logged_texts es)) ->
  fold_left (since_step aid) es acc = (acc ++ es)%list.
Proof.
  induction es as [|e es IH]; intros acc Hn; cbn [fold_left].
  - now rewrite app_nil_r.
  - assert (Hstep : since_step aid acc e = (acc ++ [e])%list
                    /\ ~ In aid (Py.keys (logged_texts es))).
    { unfold logged_texts in Hn. cbn [flat_map] in Hn.
      fold (logged_texts es) in Hn. unfold Py.keys in *.
      rewrite map_app, in_app_iff in Hn.
      destruct e as [op msgs p resp|[q c n|a x|f t x|a x|w]];
        cbn [since_step]; try (split; [reflexivity|tauto]).
      - destruct (String.eqb a aid) eqn:E; [|split; [reflexivity|tauto]].
        apply String.eqb_eq in E. subst a. exfalso. apply Hn. left. now left.
      - destruct (String.eqb a aid) eqn:E; [|split; [reflexivity|tauto]].
        apply String.eqb_eq in E. subst a. exfalso. apply Hn. left. now left. }
    destruct Hstep as [-> Hrest]. rewrite IH by exact Hrest.
    now rewrite <- app_assoc.
Qed.

Lemma since_latest_app_other aid h es :
  ~ In aid (Py.keys (logged_texts es)) ->
  since_latest aid (h ++ es)%list = (since_latest aid h ++ es)%list.
Proof.
  intros Hn. unfold since_latest. rewrite fold_left_app.
  now apply since_fold_other.
Qed.

Lemma critique_records_app es es' :
  critique_records (es ++ es') = (critique_records es ++ critique_records es')%list.
Proof. unfold critique_records. apply flat_map_app. Qed.

Lemma entries_for_none target es :
  critique_records es = [] -> entries_for target es = [].
Proof. unfold entries_for. now intros ->. Qed.

(** After a phase in which the agent logged a text and nobody logged a
    critique, no critique is pending for the agent. *)
Lemma since_fold_reset aid es : forall acc,
  critique_records es = [] ->
  critique_records acc = [] \/ In aid (Py.keys (logged_texts es)) ->
  critique_records (fold_left (since_step aid) es acc) = [].
Proof.
  induction es as [|e es IH]; intros acc Hnone Hor; cbn [fold_left].
  - destruct Hor as [Hacc|[]]. exact Hacc.
  - change (e :: es) with ([e] ++ es)%list in Hnone.
    rewrite critique_records_app in Hnone.
    apply app_eq_nil in Hnone as [He Hes].
    unfold logged_texts in Hor. cbn [flat_map] in Hor.
    fold (logged_texts es) in Hor. unfold Py.keys in Hor.
    rewrite map_app, in_app_iff in Hor. fold (Py.keys (logged_texts es)) in Hor.
    apply IH; [exact Hes|].
    destruct e as [op msgs p resp|[q c n|a x|f t x|a x|w]];
      cbn [since_step map fst In] in *;
      try (destruct Hor as [Hacc|[[]|Hin]];
           [left; rewrite critique_records_app, Hacc; exact He|now right]).
    + destruct (String.eqb a aid) eqn:E; [now left|].
      destruct Hor as [Hacc|[[Heq|[]]|Hin]].
      * left. rewrite critique_records_app, Hacc. exact He.
      * subst a. now rewrite String.eqb_refl in E.
      * now right.
    + destruct (String.eqb a aid) eqn:E; [now left|].
      destruct Hor as [Hacc|[[Heq|[]]|Hin]].
      * left. rewrite critique_records_app, Hacc. exact He.
      * subst a. now rewrite String.eqb_refl in E.
      * now right.
Qed.

Lemma propose_call `{LLM} spec question constraints p h :
  exists msgs resp,
    Agents.propose spec question constraints p h =
    (Ok resp, [EChat OpPropose msgs p resp]).
Proof. eexists. eexists. reflexivity. Qed.

Lemma defend_call `{LLM} spec own critiques p h :
  exists msgs resp,
    Agents.defend spec own critiques p h =
    (Ok resp, [EChat OpDefend msgs p resp]).
Proof. eexists. eexists. reflexivity. Qed.

Lemma kind_pairs_propose ids : kind_pairs (propose_shape ids) = [].
Proof. induction ids as [|a ids IH]; [reflexivity|exact IH]. Qed.

Lemma kind_pairs_defend ids : kind_pairs (defend_shape ids) = [].
Proof. induction ids as [|a ids IH]; [reflexivity|exact IH]. Qed.

Lemma no_critique_records es :
  kind_pairs (map kind es) = [] -> critique_records es = [].
Proof.
  rewrite <- records_kind_pairs. apply map_eq_nil.
Qed.

(** What holds after a phase in which every agent logged one text and
    nobody a critique: the texts are the latest, and no critique is
    pending. *)
Lemma text_phase_invariants h es (ys : Answers) :
  logged_texts es = ys -> NoDup (Py.keys ys) -> critique_records es = [] ->
  (forall a v, Py.get a ys = Some v -> latest a (h ++ es)%list = Some v)
  /\ (forall a, In a (Py.keys ys) ->
        entries_for a (since_latest a (h ++ es)%list) = []).
Proof.
  intros Hys Hnd Hnone. subst ys. split.
  - intros a v Hg. rewrite latest_app_logged; auto.
    eapply get_some_in; eauto.
  - intros a Hin. apply entries_for_none. unfold since_latest.
    rewrite fold_left_app. apply since_fold_reset; auto.
Qed.

Section DataFlow.
Context `{LLM}.
Variable agents : Debate.Agents.
Hypothesis agents_nodup : NoDup (Py.keys agents).
Variables (question : string) (constraints : option string) (p : Params).

Let flow : Trace -> Event -> LogRecord -> Prop :=
  follows_protocol agents question constraints p.

(** The data flow of one phase, in terms of the maps the phase is given. *)
Let critique_of (answers : Answers) (h : Trace) (call : Event)
  (r : LogRecord) : Prop :=
  match r with
  | LogCritique f t x =>
      f <> t
      /\ exists spec ans,
           Py.get f agents = Some spec
           /\ Py.get t answers = Some ans
           /\ Agents.critique spec ans p h = (Ok x, [call])
  | _ => False
  end.

Let defence_of (answers : Answers) (cr : Debate.Critiques) (h : Trace)
  (call : Event) (r : LogRecord) : Prop :=
  match r with
  | LogDefend a x =>
      exists spec own cs,
        Py.get a agents = Some spec
        /\ Py.get a answers = Some own
        /\ Py.get a cr = Some cs
        /\ Agents.defend spec own cs p h = (Ok x, [call])
  | _ => False
  end.

Lemma agents_get (aa : string * Agents.AgentSpec) :
  In aa agents -> Py.get (fst aa) agents = Some (snd aa).
Proof.
  intros Hin. apply get_in_nodup; [exact agents_nodup|]. now destruct aa.
Qed.

Lemma propose_round_flow h answers es :
  Debate._propose_round agents question constraints p h = (Ok answers, es) ->
  paired flow h es.
Proof.
  intros E. unfold Debate._propose_round in E.
  apply bind_inv in E as (ys & es1 & es2 & E1 & E2 & ->).
  injection E2 as _ <-. rewrite app_nil_r.
  eapply mapM_paired; [|exact E1].
  intros aa h' y es' Hin Ex. cbv beta in Ex.
  destruct (propose_call (snd aa) question constraints p h')
    as (msgs & resp & Ec).
  rewrite (bind_ok _ _ _ _ _ Ec) in Ex. cbn in Ex. injection Ex as _ <-.
  cbn [paired]. split; [|exact I].
  exists (snd aa). split; [now apply agents_get|exact Ec].
Qed.

Lemma critique_round_flow answers h cr es :
  NoDup (Py.keys answers) ->
  Debate._critique_round agents answers p h = (Ok cr, es) ->
  paired (critique_of answers) h es.
Proof.
  intros Hnd. unfold Debate._critique_round.
  apply foldM_paired. intros s ta h' s' es' Hta.
  apply foldM_paired. intros s0 aa h0 s1 es0 Haa.
  unfold Debate.critique_one.
  destruct (String.eqb (fst aa) (fst ta)) eqn:Eq.
  - intros [= _ <-]. exact I.
  - destruct (critique_call (snd aa) (snd ta) p h0) as (msgs & resp & Ec).
    rewrite (bind_ok _ _ _ _ _ Ec).
    destruct (Py.get (fst ta) s0); [|discriminate].
    cbn. intros [= _ <-]. split; [|exact I]. split.
    + intros Heq. rewrite Heq, String.eqb_refl in Eq. discriminate.
    + exists (snd aa), (snd ta). split; [now apply agents_get|].
      split; [|exact Ec]. apply get_in_nodup; [exact Hnd|now destruct ta].
Qed.

Lemma defend_round_flow answers cr h answers' es :
  Debate._defend_round agents answers cr p h = (Ok answers', es) ->
  paired (defence_of answers cr) h es.
Proof.
  intros E. unfold Debate._defend_round in E.
  apply bind_inv in E as (ys & es1 & es2 & E1 & E2 & ->).
  injection E2 as _ <-. rewrite app_nil_r.
  eapply mapM_paired; [|exact E1].
  intros aa h' y es' Hin Ex. cbv beta in Ex.
  destruct (Py.get (fst aa) answers) as [own|] eqn:Ga; [|discriminate].
  destruct (Py.get (fst aa) cr) as [cs|] eqn:Gc; [|discriminate].
  destruct (defend_call (snd aa) own cs p h') as (msgs & resp & Ec).
  rewrite (bind_ok _ _ _ _ _ Ec) in Ex. cbn in Ex. injection Ex as _ <-.
  cbn [paired]. split; [|exact I].
  exists (snd aa), own, cs. split; [now apply agents_get|].
  split; [exact Ga|]. split; [exact Gc|exact Ec].
Qed.

(** In a critique round nothing new is answered: the answers critiqued are
    the latest ones. *)
Lemma critique_flow_latest answers h es :
  paired (critique_of answers) h es ->
  logged_texts es = [] ->
  (forall t ans, Py.get t answers = Some ans -> latest t h = Some ans) ->
  paired flow h es.
Proof.
  intros HP Htexts Hlatest. revert HP. apply paired_impl.
  intros pre call r rest Hes Hr. unfold critique_of in Hr.
  unfold flow, follows_protocol.
  destruct r as [q c n|a x|f t x|a x|w]; try contradiction.
  destruct Hr as (Hne & spec & ans & Hg & Ha & Hc).
  split; [exact Hne|]. exists spec, ans. split; [exact Hg|].
  split; [|exact Hc].
  rewrite latest_app_other; [now apply Hlatest|].
  rewrite Hes, logged_texts_app in Htexts.
  apply app_eq_nil in Htexts as [-> _]. intros [].
Qed.

(** In a defend round every agent answers once: when it does, its latest
    answer is still the one of the round before, and the critiques logged
    since are those of this round. *)
Lemma defence_flow_latest answers cr h es :
  paired (defence_of answers cr) h es ->
  NoDup (Py.keys (logged_texts es)) ->
  critique_records es = [] ->
  (forall a own, Py.get a answers = Some own -> latest a h = Some own) ->
  (forall a cs, Py.get a cr = Some cs ->
                entries_for a (since_latest a h) = cs) ->
  paired flow h es.
Proof.
  intros HP Hnd Hnone Hlatest Hpending. revert HP. apply paired_impl.
  intros pre call r rest Hes Hr. unfold defence_of in Hr.
  unfold flow, follows_protocol.
  destruct r as [q c n|a x|f t x|a x|w]; try contradiction.
  destruct Hr as (spec & own & cs & Hg & Ha & Hc & Hd).
  assert (Hcall : exists msgs resp, call = EChat OpDefend msgs p resp).
  { destruct (defend_call spec own cs p (h ++ pre)%list) as (msgs & resp & Ec).
    rewrite Ec in Hd. injection Hd as _ <-. eauto. }
  destruct Hcall as (msgs & resp & ->).
  assert (Hfresh : ~ In a (Py.keys (logged_texts pre))).
  { rewrite Hes, logged_texts_app in Hnd. unfold logged_texts at 2 in Hnd.
    cbn [flat_map app] in Hnd. unfold Py.keys in Hnd |- *.
    rewrite map_app in Hnd. cbn [map fst] in Hnd.
    apply NoDup_remove_2 in Hnd. intros Hin. apply Hnd.
    apply in_or_app. now left. }
  assert (Hquiet : critique_records pre = []).
  { rewrite Hes, critique_records_app in Hnone.
    now apply app_eq_nil in Hnone as [-> _]. }
  exists spec, own. split; [exact Hg|]. split.
  - rewrite latest_app_other by exact Hfresh. now apply Hlatest.
  - rewrite since_latest_app_other by exact Hfresh.
    rewrite entries_for_app, (Hpending _ _ Hc), (entries_for_none _ _ Hquiet).
    rewrite app_nil_r. exact Hd.
Qed.

Lemma rounds_loop_flow n : forall answers h answers' es,
  Debate.rounds_loop agents n answers p h = (Ok answers', es) ->
  Py.keys answers = Py.keys agents ->
  (forall a own, Py.get a answers = Some own -> latest a h = Some own) ->
  (forall a, In a (Py.keys agents) ->
             entries_for a (since_latest a h) = []) ->
  paired flow h es.
Proof.
  induction n as [|n IH]; intros answers h answers' es E Hkeys Hlatest Hpending;
    cbn [Debate.rounds_loop] in E.
  - injection E as _ <-. exact I.
  - apply bind_inv in E as (cr & es1 & es2 & E1 & E & ->).
    apply bind_inv in E as (a2 & es3 & es4 & E2 & E3 & ->).
    assert (Hnd : NoDup (Py.keys answers)) by (now rewrite Hkeys).
    destruct (critique_round_total agents agents_nodup answers p h)
      as (cr' & es' & E' & [Hcrk Hcr] & _).
    { rewrite Hkeys. apply incl_refl. }
    rewrite E1 in E'. injection E' as <- <-.
    destruct (critique_round_transcript agents _ _ _ _ _ E1)
      as [_ Ht1].
    destruct (defend_round_total agents agents_nodup answers cr p
                (h ++ es1)%list Hkeys Hcrk)
      as (a2' & es3' & E2' & Hk2 & Hshape2).
    rewrite E2 in E2'. injection E2' as <- <-.
    destruct (defend_round_transcript agents agents_nodup _ _ _ _ _ _ E2)
      as [_ Ht2].
    assert (Hquiet2 : critique_records es3 = []).
    { apply no_critique_records. rewrite Hshape2. apply kind_pairs_defend. }
    assert (Hnd2 : NoDup (Py.keys a2)) by (now rewrite Hk2).
    assert (Hno1 : forall a, ~ In a (Py.keys (logged_texts es1))).
    { intros a. rewrite Ht1. intros []. }
    destruct (text_phase_invariants (h ++ es1)%list es3 a2 Ht2 Hnd2 Hquiet2)
      as [Hlatest3 Hpending3].
    apply paired_app; [|apply paired_app].
    + apply (critique_flow_latest answers); auto.
      now apply (critique_round_flow answers h cr).
    + apply (defence_flow_latest answers cr).
      * eapply defend_round_flow; eauto.
      * now rewrite Ht2.
      * exact Hquiet2.
      * intros a own Hg. rewrite latest_app_other by apply Hno1.
        now apply Hlatest.
      * intros a cs Hg. rewrite since_latest_app_other by apply Hno1.
        assert (Hin : In a (Py.keys agents)).
        { rewrite <- Hcrk. eapply get_some_in; eauto. }
        rewrite entries_for_app, (Hpending a Hin). cbn [app].
        rewrite (Hcr a Hin) in Hg. now injection Hg.
    + eapply IH; [exact E3|exact Hk2|exact Hlatest3|].
      intros a Hin. apply Hpending3. now rewrite Hk2.
Qed.

End DataFlow.

(** The data flow of a session, for agents with distinct ids: after the
    start record the trace is a sequence of completion calls, each followed
    by its log record, and every call is the one the protocol asks for at
    that point.  A proposal is the agent's [propose] on the question and the
    constraints; a critique is the critic's [critique] of the latest answer
    of another agent, so that round k+1 critiques the answers defended in
    round k; a defence is the agent's [defend] of its own latest answer
    against exactly the critiques logged for it since that answer, in the
    order they were logged.  The text logged is the completion of the
    call. *)
Theorem debate_data_flow `{LLM} (agents : Debate.Agents) (question : string)
  (constraints : option string) (rounds : Z) (p : Params) (h : Trace) :
  NoDup (Py.keys agents) ->
  exists answers es,
    Debate.debate agents question constraints rounds p h
    = (Ok answers, ELog (LogStart question constraints rounds) :: es)
    /\ paired (follows_protocol agents question constraints p)
         (h ++ [ELog (LogStart question constraints rounds)])%list es.
Proof.
  intros Hnd.
  destruct (debate_total agents Hnd question constraints rounds p h)
    as (answers & es & E & _ & _).
  pose proof E as E'. unfold Debate.debate in E'.
  apply bind_inv in E' as ([] & es0 & es1 & E0 & E' & ->).
  injection E0 as <-.
  apply bind_inv in E' as (a1 & es2 & es3 & E1 & E2 & ->).
  exists answers, (es2 ++ es3)%list. split; [exact E|].
  destruct (propose_round_total agents Hnd question constraints p
              (h ++ [ELog (LogStart question constraints rounds)])%list)
    as (a1' & es2' & E1' & Hk1 & Hshape1).
  rewrite E1 in E1'. injection E1' as <- <-.
  destruct (propose_round_transcript agents Hnd _ _ _ _ _ _ E1) as [_ Ht1].
  assert (Hquiet1 : critique_records es2 = []).
  { apply no_critique_records. rewrite Hshape1. apply kind_pairs_propose. }
  assert (Hnd1 : NoDup (Py.keys a1)) by (now rewrite Hk1).
  destruct (text_phase_invariants
              (h ++ [ELog (LogStart question constraints rounds)])%list
              es2 a1 Ht1 Hnd1 Hquiet1) as [Hlatest Hpending].
  apply paired_app.
  - eapply propose_round_flow; eauto.
  - eapply rounds_loop_flow; eauto.
    intros a Hin. apply Hpending. now rewrite Hk1.
Qed.

Lemma debate_data_flow_witness :
  exists answers es,
    Debate.debate (H := Scripted.llm Examples.script_AB) Examples.registry
      "Which design?" None 1 Examples.params []
    = (Ok answers, ELog (LogStart "Which design?" None 1) :: es)
    /\ paired (follows_protocol (H := Scripted.llm Examples.script_AB)
                 Examples.registry "Which design?" None Examples.params)
         [ELog (LogStart "Which design?" None 1)] es.
Proof.
  apply (debate_data_flow (H := Scripted.llm Examples.script_AB)
           Examples.registry "Which design?" None 1 Examples.params []).
  distinct_keys.
Defined.
